(** * cppwinrt metadata helpers: interface closure, fast-ABI ordering,
      method and signature classification

    A shallow embedding of [cppwinrt/helpers.h].  The metadata reader
    (the winmd tables, the type cache) and the text writer are services
    the helpers only call; they appear here as a record of accessors
    ([cache]) and a small [writer] state.  Functions that can throw
    return [res]; recursion over the metadata graph is bounded by fuel. *)

From Stdlib Require Import Bool List String Ascii NArith ZArith Arith Lia.
From Stdlib Require Import Permutation OrderedTypeEx.
Import ListNotations.

Set Implicit Arguments.
Open Scope string_scope.

(* ================================================================== *)
(** ** Exceptions *)

Inductive error : Type :=
| invalid_argument (what : string)  (* throw_invalid *)
| bad_variant_access                (* std::get on another alternative *)
| out_of_range                      (* FixedArgs()[arg] past the end *)
| assertion_failed                  (* row accessor of the wrong table *)
| out_of_fuel.                      (* recursion bound of the embedding *)

Inductive res (A : Type) : Type :=
| Ok (a : A)
| Err (e : error).

Arguments Ok {A} a.
Arguments Err {A} e.

Definition bind {A B : Type} (m : res A) (k : A -> res B) : res B :=
  match m with
  | Ok a => k a
  | Err e => Err e
  end.

Notation "x <- m ;; k" := (bind m (fun x => k))
  (at level 61, m at next level, right associativity).
Notation "' pat <- m ;; k" := (bind m (fun x => match x with pat => k end))
  (at level 61, pat pattern, m at next level, right associativity).

(** A range-based [for] whose body may throw. *)
Fixpoint for_each {A S : Type} (body : A -> S -> res S) (range : list A)
    (s : S) : res S :=
  match range with
  | [] => Ok s
  | a :: range' => s' <- body a s ;; for_each body range' s'
  end.

(* ================================================================== *)
(** ** Metadata records (the winmd reader's view) *)

(** A [TypeDef] is a handle on a row of the TypeDef table. *)
Inductive TypeDef : Type := TypeDef_row (index : nat).

Record TypeRef : Type := {
  TypeRef_TypeNamespace : string;
  TypeRef_TypeName : string
}.

Module ElementType.
Inductive t : Type :=
| Boolean | Char | I1 | U1 | I2 | U2 | I4 | U4 | I8 | U8 | R4 | R8
| String | Object.
End ElementType.

(** [coded_index<TypeDefOrRef>], [GenericTypeInstSig] and [TypeSig].
    A TypeSpec row is represented by the generic instantiation its
    signature holds. *)
Inductive coded_index : Type :=
| TypeDefOrRef_TypeDef (type : TypeDef)
| TypeDefOrRef_TypeRef (type : TypeRef)
| TypeDefOrRef_TypeSpec (GenericTypeInst : GenericTypeInstSig)
with GenericTypeInstSig : Type :=
| Build_GenericTypeInstSig (GenericType : coded_index)
                           (GenericArgs : list TypeSig)
with TypeSig : Type :=
| Build_TypeSig (is_szarray : bool) (Type_ : TypeSig_value)
with TypeSig_value : Type :=
| Type_ElementType (type : ElementType.t)
| Type_coded_index (type : coded_index)
| Type_GenericTypeIndex (index : nat)
| Type_GenericTypeInstSig (type : GenericTypeInstSig)
| Type_GenericMethodTypeIndex (index : nat).

Definition GenericType (s : GenericTypeInstSig) : coded_index :=
  match s with Build_GenericTypeInstSig t _ => t end.

Definition GenericArgs (s : GenericTypeInstSig) : list TypeSig :=
  match s with Build_GenericTypeInstSig _ args => args end.

Definition is_szarray (s : TypeSig) : bool :=
  match s with Build_TypeSig a _ => a end.

Definition Type_ (s : TypeSig) : TypeSig_value :=
  match s with Build_TypeSig _ v => v end.

(** Custom attribute blobs, decoded. *)
Record EnumValue : Type := {
  EnumValue_type : TypeDef;
  EnumValue_value : Z
}.

Inductive ElemSig : Type :=
| Elem_bool (v : bool)
| Elem_int32 (v : Z)
| Elem_uint32 (v : N)
| Elem_string_view (v : string)
| Elem_SystemType (name : string)
| Elem_EnumValue (v : EnumValue).

Inductive FixedArgSig : Type :=
| FixedArg_ElemSig (value : ElemSig)
| FixedArg_vector (value : list ElemSig).

Record CustomAttributeRow : Type := {
  TypeNamespaceAndName : string * string;
  FixedArgs : list FixedArgSig
}.

Record InterfaceImplRow : Type := {
  InterfaceImpl_CustomAttribute : list CustomAttributeRow;
  Interface : coded_index
}.

(** [RetTypeSig] converts to [false] for [void]: [None] here. *)
Record MethodDefSig : Type := {
  ReturnType : option TypeSig;
  Params : list TypeSig
}.

Record MethodDef : Type := {
  SpecialName : bool;
  Name : string;
  Signature : MethodDefSig;
  MethodDef_CustomAttribute : list CustomAttributeRow
}.

(** winmd's [category] of a type definition. *)
Module category.
Inductive t : Type :=
| interface_type | class_type | enum_type | struct_type | delegate_type.
End category.

(** The text writer, as far as the helpers touch it. *)
Record writer : Type := {
  abi_types : bool;
  writer_generic_param_stack : list (list string)
}.

(** The services the helpers call but do not define: row accessors of
    the metadata reader, cache lookups (which throw when the type is
    missing) and name rendering by the writer. *)
Record cache : Type := {
  TypeNamespace : TypeDef -> string;
  TypeName : TypeDef -> string;
  Extends : TypeDef -> option coded_index;
  InterfaceImpl : TypeDef -> list InterfaceImplRow;
  CustomAttribute : TypeDef -> list CustomAttributeRow;
  MethodList : TypeDef -> list MethodDef;
  get_category_of_type : TypeDef -> category.t;
  get_type_namespace_and_name : coded_index -> string * string;
  find_required_TypeRef : TypeRef -> res TypeDef;
  find_required : coded_index -> res TypeDef;
  equals_enumerator : EnumValue -> string -> bool;
  write_temp : writer -> coded_index -> string;
  write_temp_arg : writer -> TypeSig -> string
}.

(** Global generator settings read by the helpers. *)
Record settings_type : Type := {
  settings_fastabi : bool;
  component_ignore_velocity : bool
}.

(** Rows that carry custom attributes (the template parameter [T] of
    [has_attribute]). *)
Class HasCustomAttribute (T : Type) : Type :=
  row_attributes : cache -> T -> list CustomAttributeRow.

#[export] Instance TypeDef_attributes : HasCustomAttribute TypeDef :=
  fun c type => CustomAttribute c type.
#[export] Instance InterfaceImpl_attributes :
  HasCustomAttribute InterfaceImplRow :=
  fun _ impl => InterfaceImpl_CustomAttribute impl.
#[export] Instance MethodDef_attributes : HasCustomAttribute MethodDef :=
  fun _ method => MethodDef_CustomAttribute method.

(* ================================================================== *)
(** ** Small library pieces *)

Definition starts_with (value match_ : string) : bool :=
  String.prefix match_ value.

(** [throw_invalid(message, args...)] concatenates its arguments. *)
Definition throw_invalid {A : Type} (parts : list string) : res A :=
  Err (invalid_argument (String.concat "" parts)).

(** A [std::pair<uint16_t, uint16_t>] compared with [operator<]. *)
Definition pair_ltb (l r : N * N) : bool :=
  (fst l <? fst r)%N || (negb (fst r <? fst l)%N && (snd l <? snd r)%N).

Definition pair_eqb (l r : N * N) : bool :=
  (fst l =? fst r)%N && (snd l =? snd r)%N.

Definition HIWORD (l : N) : N := N.land (N.shiftr l 16) 65535.
Definition LOWORD (l : N) : N := N.land l 65535.

(** [std::size_t] arithmetic (64-bit build). *)
Definition size_t_modulus : N := 2 ^ 64.
Definition size_t_add (a b : N) : N := ((a + b) mod size_t_modulus)%N.

(** [std::partial_sort(first, first + n, last, comp)] with a comparator
    that may throw.  The C++ standard fixes the first [n] positions (the
    [n] least elements, ascending) and leaves the order of the others
    unspecified; this realisation extracts a least element [n] times and
    leaves the others in the order they are then in. *)
Fixpoint select_min {A : Type} (comp : A -> A -> res bool) (x : A)
    (l : list A) : res (A * list A) :=
  match l with
  | [] => Ok (x, [])
  | y :: l' =>
      '(m, rest) <- select_min comp y l' ;;
      less <- comp m x ;;
      if less : bool then Ok (m, x :: rest) else Ok (x, y :: l')
  end.

Fixpoint partial_sort {A : Type} (comp : A -> A -> res bool) (n : nat)
    (l : list A) : res (list A) :=
  match n, l with
  | O, _ => Ok l
  | S _, [] => Ok []
  | S n', x :: l' =>
      '(m, rest) <- select_min comp x l' ;;
      sorted <- partial_sort comp n' rest ;;
      Ok (m :: sorted)
  end.

(** [std::count_if] and [std::for_each_n] with a mutating function. *)
Definition count_if {A : Type} (p : A -> bool) (l : list A) : nat :=
  List.length (List.filter p l).

Fixpoint for_each_n {A : Type} (n : nat) (f : A -> A) (l : list A) : list A :=
  match n, l with
  | S n', x :: l' => f x :: for_each_n n' f l'
  | _, _ => l
  end.

(** [struct interface_info] and the result vector. *)
Module interface_info.
Record t : Type := {
  type : TypeDef;
  is_default : bool;
  defaulted : bool;
  overridable : bool;
  base : bool;
  exclusive : bool;
  fastabi : bool;
  version : N * N;
  generic_param_stack : list (list string)
}.
End interface_info.

Definition get_interfaces_t : Type := list (string * interface_info.t).

Module param_category.
Inductive t : Type :=
| generic_type | object_type | string_type | enum_type | struct_type
| array_type | fundamental_type.
End param_category.

(* ================================================================== *)
(** ** The helpers *)

Section Helpers.

Variable c : cache.
Variable settings : settings_type.

(** winmd's [get_attribute]: the first attribute of that name, or a
    null row. *)
Definition get_attribute {T : Type} `{HasCustomAttribute T} (row : T)
    (type_namespace type_name : string) : option CustomAttributeRow :=
  List.find
    (fun attribute =>
       (fst (TypeNamespaceAndName attribute) =? type_namespace)%string &&
       (snd (TypeNamespaceAndName attribute) =? type_name)%string)
    (row_attributes c row).

Definition has_attribute {T : Type} `{HasCustomAttribute T} (row : T)
    (type_namespace type_name : string) : bool :=
  match get_attribute row type_namespace type_name with
  | Some _ => true
  | None => false
  end.

(** [get_attribute_value<T>(attribute, arg)]; [alternative] selects
    the alternative [T] of the element's variant. *)
Definition get_attribute_value {T : Type} (alternative : ElemSig -> option T)
    (attribute : CustomAttributeRow) (arg : nat) : res T :=
  match nth_error (FixedArgs attribute) arg with
  | None => Err out_of_range
  | Some (FixedArg_vector _) => Err bad_variant_access
  | Some (FixedArg_ElemSig value) =>
      match alternative value with
      | Some v => Ok v
      | None => Err bad_variant_access
      end
  end.

Definition as_uint32 (e : ElemSig) : option N :=
  match e with Elem_uint32 v => Some v | _ => None end.
Definition as_EnumValue (e : ElemSig) : option EnumValue :=
  match e with Elem_EnumValue v => Some v | _ => None end.

(** *** Method signatures *)

Definition is_put_overload (method : MethodDef) : bool :=
  SpecialName method && starts_with (Name method) "put_".

(** [struct method_signature]; the parameter vector and the return
    parameter row are left out, [is_async] does not read them. *)
Record method_signature : Type := {
  m_method : MethodDef;
  m_signature : MethodDefSig
}.

Definition Build_method_signature_of (method : MethodDef) : method_signature :=
  {| m_method := method; m_signature := Signature method |}.

Definition is_async (self : method_signature) : bool :=
  if is_put_overload (m_method self) then true
  else
    match ReturnType (m_signature self) with
    | None => false
    | Some return_type =>
        match Type_ return_type with
        | Type_coded_index type =>
            let '(type_namespace, type_name) :=
              get_type_namespace_and_name c type in
            (type_namespace =? "Windows.Foundation")%string &&
            (type_name =? "IAsyncAction")%string
        | Type_GenericTypeInstSig type =>
            let '(type_namespace, type_name) :=
              get_type_namespace_and_name c (GenericType type) in
            if (type_namespace =? "Windows.Foundation")%string
            then (type_name =? "IAsyncOperation`1")%string ||
                 (type_name =? "IAsyncActionWithProgress`1")%string ||
                 (type_name =? "IAsyncOperationWithProgress`2")%string
            else false
        | _ => false
        end
    end.

(** *** Feature gates *)

Definition has_fastabi (type : TypeDef) : bool :=
  settings_fastabi settings &&
  has_attribute type "Windows.Foundation.Metadata" "FastAbiAttribute".

Definition is_always_disabled (type : TypeDef) : res bool :=
  if component_ignore_velocity settings then Ok false
  else
    match get_attribute type "Windows.Foundation.Metadata" "FeatureAttribute" with
    | None => Ok false
    | Some feature =>
        stage <- get_attribute_value as_EnumValue feature 0 ;;
        Ok (equals_enumerator c stage "AlwaysDisabled")
    end.

Definition is_always_enabled (type : TypeDef) : res bool :=
  match get_attribute type "Windows.Foundation.Metadata" "FeatureAttribute" with
  | None => Ok true
  | Some feature =>
      stage <- get_attribute_value as_EnumValue feature 0 ;;
      Ok (equals_enumerator c stage "AlwaysEnabled")
  end.

(** *** Default interface and base classes *)

(** The result is the null coded index ([None]) for a type without
    interface implementations. *)
Definition get_default_interface (type : TypeDef) : res (option coded_index) :=
  let impls := InterfaceImpl c type in
  match List.find
          (fun impl =>
             has_attribute impl "Windows.Foundation.Metadata" "DefaultAttribute")
          impls with
  | Some impl => Ok (Some (Interface impl))
  | None =>
      if negb (Nat.eqb (List.length impls) 0)
      then throw_invalid
             ["Type '"; TypeNamespace c type; "."; TypeName c type;
              "' does not have a default interface"]
      else Ok None
  end.

Definition get_base_class (derived : TypeDef) : res (option TypeDef) :=
  match Extends c derived with
  | None => Ok None
  | Some extends =>
      let '(extends_namespace, extends_name) :=
        get_type_namespace_and_name c extends in
      if (extends_name =? "Object")%string &&
         (extends_namespace =? "System")%string
      then Ok None
      else base <- find_required c extends ;; Ok (Some base)
  end.

(** The loop of [get_bases], entered with the first base already
    read; one unit of fuel per base class. *)
Fixpoint get_bases_loop (fuel : nat) (base : option TypeDef)
    (bases : list TypeDef) : res (list TypeDef) :=
  match base with
  | None => Ok bases
  | Some b =>
      match fuel with
      | O => Err out_of_fuel
      | S fuel' =>
          next <- get_base_class b ;;
          get_bases_loop fuel' next (bases ++ [b])%list
      end
  end.

Definition get_bases (fuel : nat) (type : TypeDef) : res (list TypeDef) :=
  base <- get_base_class type ;;
  get_bases_loop fuel base [].

Definition get_version (type : TypeDef) : res (N * N) :=
  let fix loop (attributes : list CustomAttributeRow) : res N :=
    match attributes with
    | [] => Ok 0%N
    | attribute :: rest =>
        let name := TypeNamespaceAndName attribute in
        if negb (fst name =? "Windows.Foundation.Metadata")%string
        then loop rest
        else if (snd name =? "ContractVersionAttribute")%string
        then get_attribute_value as_uint32 attribute 1
        else if (snd name =? "VersionAttribute")%string
        then get_attribute_value as_uint32 attribute 0
        else loop rest
    end in
  version <- loop (CustomAttribute c type) ;;
  Ok (HIWORD version, LOWORD version).

(** *** The interface closure *)

(** [find] returns a pointer into the vector, or [nullptr]. *)
Fixpoint find (interfaces : get_interfaces_t) (name : string)
    : option interface_info.t :=
  match interfaces with
  | [] => None
  | entry :: rest =>
      if (fst entry =? name)%string then Some (snd entry) else find rest name
  end.

(** [*existing = info] through the pointer [find] returned. *)
Fixpoint assign (interfaces : get_interfaces_t) (name : string)
    (info : interface_info.t) : get_interfaces_t :=
  match interfaces with
  | [] => []
  | entry :: rest =>
      if (fst entry =? name)%string then (fst entry, info) :: rest
      else entry :: assign rest name info
  end.

Definition insert_or_assign (interfaces : get_interfaces_t) (name : string)
    (info : interface_info.t) : get_interfaces_t :=
  match find interfaces name with
  | Some _ => assign interfaces name info
  | None => (interfaces ++ [(name, info)])%list
  end.

(** Modelled from the spec: [writer::push_generic_params], declared
    with the writer outside these sources; it pushes the rendered
    names of the bound arguments onto the writer's stack, and the
    guard it returns pops them when the loop body is left. *)
Definition push_generic_params (w : writer) (signature : GenericTypeInstSig)
    : writer :=
  {| abi_types := abi_types w;
     writer_generic_param_stack :=
       (writer_generic_param_stack w ++
        [List.map (write_temp_arg c w) (GenericArgs signature)])%list |}.

(** The [switch (type.type())] of [get_interfaces_impl]: the
    definition behind the edge, the entry's generic parameter stack
    and the writer the nested walk runs with.  ([w.add_depends] only
    records the type in the writer's dependency set, which no helper
    here reads; it is left out.) *)
Definition interface_target (w : writer)
    (generic_param_stack : list (list string)) (type : coded_index)
    : res (TypeDef * list (list string) * writer) :=
  match type with
  | TypeDefOrRef_TypeDef type_def => Ok (type_def, generic_param_stack, w)
  | TypeDefOrRef_TypeRef type_ref =>
      info_type <- find_required_TypeRef c type_ref ;;
      Ok (info_type, generic_param_stack, w)
  | TypeDefOrRef_TypeSpec type_signature =>
      let names := List.map (write_temp_arg c w) (GenericArgs type_signature) in
      let guard := push_generic_params w type_signature in
      info_type <- find_required c (GenericType type_signature) ;;
      Ok (info_type, (generic_param_stack ++ [names])%list, guard)
  end.

(** The test that ends an iteration early ([continue]). *)
Definition already_captured (result : get_interfaces_t) (name : string)
    (info_defaulted : bool) : bool :=
  match find result name with
  | Some found => interface_info.defaulted found || negb info_defaulted
  | None => false
  end.

(** One iteration of the loop of [get_interfaces_impl]; [recurse] is
    the nested call. *)
Definition visit
    (recurse : writer -> get_interfaces_t -> bool -> bool -> bool ->
               list (list string) -> list InterfaceImplRow ->
               res get_interfaces_t)
    (w : writer) (defaulted overridable base : bool)
    (generic_param_stack : list (list string))
    (impl : InterfaceImplRow) (result : get_interfaces_t)
    : res get_interfaces_t :=
  let type := Interface impl in
  let name := write_temp c w type in
  let info_is_default :=
    has_attribute impl "Windows.Foundation.Metadata" "DefaultAttribute" in
  let info_defaulted := negb base && (defaulted || info_is_default) in
  if already_captured result name info_defaulted then Ok result
  else
    let info_overridable :=
      overridable ||
      has_attribute impl "Windows.Foundation.Metadata" "OverridableAttribute" in
    '(info_type, info_stack, guard) <-
      interface_target w generic_param_stack type ;;
    let info_exclusive :=
      has_attribute info_type "Windows.Foundation.Metadata"
                    "ExclusiveToAttribute" in
    info_version <- get_version info_type ;;
    result' <- recurse guard result info_defaulted info_overridable base
                       info_stack (InterfaceImpl c info_type) ;;
    Ok (insert_or_assign result' name
          {| interface_info.type := info_type;
             interface_info.is_default := info_is_default;
             interface_info.defaulted := info_defaulted;
             interface_info.overridable := info_overridable;
             interface_info.base := base;
             interface_info.exclusive := info_exclusive;
             interface_info.fastabi := false;
             interface_info.version := info_version;
             interface_info.generic_param_stack := info_stack |}).

(** [fuel] bounds the depth of the nested calls; the C++ recursion has
    no bound and does not return on cyclic metadata. *)
Fixpoint get_interfaces_impl (fuel : nat) (w : writer)
    (result : get_interfaces_t) (defaulted overridable base : bool)
    (generic_param_stack : list (list string))
    (children : list InterfaceImplRow) {struct fuel}
    : res get_interfaces_t :=
  match fuel with
  | O => Err out_of_fuel
  | S fuel' =>
      for_each
        (visit (get_interfaces_impl fuel') w defaulted overridable base
               generic_param_stack)
        children result
  end.

(** *** Fast-ABI ordering *)

(** The comparator handed to [std::partial_sort]. *)
Definition fastabi_less (left_pair right_pair : string * interface_info.t)
    : res bool :=
  let left := snd left_pair in
  let right := snd right_pair in
  if negb (Bool.eqb (interface_info.base left) (interface_info.base right))
  then Ok (negb (interface_info.base left))
  else if negb (Bool.eqb (interface_info.is_default left)
                         (interface_info.is_default right))
  then Ok (interface_info.is_default left)
  else if negb (Bool.eqb (interface_info.overridable left)
                         (interface_info.overridable right))
  then Ok (negb (interface_info.overridable left))
  else if negb (Bool.eqb (interface_info.exclusive left)
                         (interface_info.exclusive right))
  then Ok (interface_info.exclusive left)
  else
    left_enabled <- is_always_enabled (interface_info.type left) ;;
    right_enabled <- is_always_enabled (interface_info.type right) ;;
    if negb (Bool.eqb left_enabled right_enabled) then Ok left_enabled
    else if negb (pair_eqb (interface_info.version left)
                           (interface_info.version right))
    then Ok (pair_ltb (interface_info.version left)
                      (interface_info.version right))
    else Ok (fst left_pair <? fst right_pair)%string.

Definition fastabi_candidate (entry : string * interface_info.t) : bool :=
  interface_info.exclusive (snd entry) &&
  negb (interface_info.base (snd entry)) &&
  negb (interface_info.overridable (snd entry)).

Definition set_fastabi (entry : string * interface_info.t)
    : string * interface_info.t :=
  let info := snd entry in
  (fst entry,
   {| interface_info.type := interface_info.type info;
      interface_info.is_default := interface_info.is_default info;
      interface_info.defaulted := interface_info.defaulted info;
      interface_info.overridable := interface_info.overridable info;
      interface_info.base := interface_info.base info;
      interface_info.exclusive := interface_info.exclusive info;
      interface_info.fastabi := true;
      interface_info.version := interface_info.version info;
      interface_info.generic_param_stack :=
        interface_info.generic_param_stack info |}).

(** The first half of [get_interfaces]: the type's own edges, then
    those of each base class. *)
Definition get_interfaces_walk (fuel : nat) (w : writer) (type : TypeDef)
    : res get_interfaces_t :=
  let w := {| abi_types := false;
              writer_generic_param_stack := writer_generic_param_stack w |} in
  result <- get_interfaces_impl fuel w [] false false false []
                                (InterfaceImpl c type) ;;
  bases <- get_bases fuel type ;;
  for_each
    (fun base result =>
       get_interfaces_impl fuel w result false false true []
                           (InterfaceImpl c base))
    bases result.

(** The second half: count, [std::partial_sort], [std::for_each_n]. *)
Definition fastabi_order (result : get_interfaces_t) : res get_interfaces_t :=
  let count := count_if fastabi_candidate result in
  sorted <- partial_sort fastabi_less count result ;;
  Ok (for_each_n count set_fastabi sorted).

Definition get_interfaces (fuel : nat) (w : writer) (type : TypeDef)
    : res get_interfaces_t :=
  result <- get_interfaces_walk fuel w type ;;
  if negb (has_fastabi type) then Ok result
  else fastabi_order result.

(** The loop of [get_fastabi_size], left at the first entry that is
    not fast-ABI. *)
Fixpoint add_fastabi_methods (interfaces : get_interfaces_t) (result : N)
    : N :=
  match interfaces with
  | [] => result
  | (name, info) :: rest =>
      if negb (interface_info.fastabi info) then result
      else add_fastabi_methods rest
             (size_t_add result
                (N.of_nat (List.length
                             (MethodList c (interface_info.type info)))))
  end.

Definition get_fastabi_size (fuel : nat) (w : writer) (type : TypeDef)
    : res N :=
  if negb (has_fastabi type) then Ok 0%N
  else
    bases <- get_bases fuel type ;;
    let result := size_t_add 6 (N.of_nat (List.length bases)) in
    interfaces <- get_interfaces fuel w type ;;
    Ok (add_fastabi_methods interfaces result).

(** *** Signature categories *)

(** Modelled from the spec: [type_name], declared outside these
    sources; it compares equal to a string when the string is the
    namespace-dotted name. *)
Definition type_name_eq (type_ref : TypeRef) (other : string) : bool :=
  (TypeRef_TypeNamespace type_ref ++ "." ++ TypeRef_TypeName type_ref
     =? other)%string.

(** The second component is what is stored through [signature_type]
    when the caller passes one. *)
Definition get_category (signature : TypeSig)
    : res (param_category.t * option TypeDef) :=
  if is_szarray signature then Ok (param_category.array_type, None)
  else
    match Type_ signature with
    | Type_ElementType type =>
        match type with
        | ElementType.String => Ok (param_category.string_type, None)
        | ElementType.Object => Ok (param_category.object_type, None)
        | _ => Ok (param_category.fundamental_type, None)
        end
    | Type_coded_index type =>
        resolved <-
          match type with
          | TypeDefOrRef_TypeDef type_def => Ok (Some type_def)
          | TypeDefOrRef_TypeRef type_ref =>
              if type_name_eq type_ref "System.Guid" then Ok None
              else type_def <- find_required_TypeRef c type_ref ;;
                   Ok (Some type_def)
          | TypeDefOrRef_TypeSpec _ => Err assertion_failed
          end ;;
        match resolved with
        | None => Ok (param_category.struct_type, None)
        | Some type_def =>
            match get_category_of_type c type_def with
            | category.interface_type
            | category.class_type
            | category.delegate_type =>
                Ok (param_category.object_type, Some type_def)
            | category.struct_type =>
                Ok (param_category.struct_type, Some type_def)
            | category.enum_type =>
                Ok (param_category.enum_type, Some type_def)
            end
        end
    | Type_GenericTypeInstSig _ => Ok (param_category.object_type, None)
    | Type_GenericTypeIndex _
    | Type_GenericMethodTypeIndex _ => Ok (param_category.generic_type, None)
    end.

End Helpers.

(* ================================================================== *)
(** ** A metadata reader over an explicit table

    A concrete [cache]: the TypeDef table is a list of rows, a handle is
    an index into it, and names are rendered as namespace-dotted names
    with the bound arguments between angle brackets. *)

Record TypeDefRow : Type := {
  row_TypeNamespace : string;
  row_TypeName : string;
  row_Extends : option coded_index;
  row_InterfaceImpl : list InterfaceImplRow;
  row_CustomAttribute : list CustomAttributeRow;
  row_MethodList : list MethodDef;
  row_category : category.t;
  row_enumerators : list (string * Z)
}.

Definition empty_row : TypeDefRow :=
  {| row_TypeNamespace := ""; row_TypeName := ""; row_Extends := None;
     row_InterfaceImpl := []; row_CustomAttribute := []; row_MethodList := [];
     row_category := category.class_type; row_enumerators := [] |}.

Section Table.

Variable table : list TypeDefRow.

Definition table_row (type : TypeDef) : TypeDefRow :=
  match type with TypeDef_row index => List.nth index table empty_row end.

Fixpoint table_lookup (rows : list TypeDefRow) (index : nat)
    (type_namespace type_name : string) : option TypeDef :=
  match rows with
  | [] => None
  | row :: rows' =>
      if (row_TypeNamespace row =? type_namespace)%string &&
         (row_TypeName row =? type_name)%string
      then Some (TypeDef_row index)
      else table_lookup rows' (S index) type_namespace type_name
  end.

Definition table_find_required_TypeRef (type_ref : TypeRef) : res TypeDef :=
  match table_lookup table 0 (TypeRef_TypeNamespace type_ref)
                     (TypeRef_TypeName type_ref) with
  | Some type => Ok type
  | None =>
      throw_invalid ["Type '"; TypeRef_TypeNamespace type_ref; ".";
                     TypeRef_TypeName type_ref; "' could not be found"]
  end.

Definition table_find_required (type : coded_index) : res TypeDef :=
  match type with
  | TypeDefOrRef_TypeDef type_def => Ok type_def
  | TypeDefOrRef_TypeRef type_ref => table_find_required_TypeRef type_ref
  | TypeDefOrRef_TypeSpec _ => Err assertion_failed
  end.

Definition table_namespace_and_name (type : coded_index) : string * string :=
  match type with
  | TypeDefOrRef_TypeDef type_def =>
      (row_TypeNamespace (table_row type_def),
       row_TypeName (table_row type_def))
  | TypeDefOrRef_TypeRef type_ref =>
      (TypeRef_TypeNamespace type_ref, TypeRef_TypeName type_ref)
  | TypeDefOrRef_TypeSpec _ => ("", "")
  end.

Definition table_equals_enumerator (value : EnumValue) (name : string)
    : bool :=
  match List.find (fun e => (fst e =? name)%string)
                  (row_enumerators (table_row (EnumValue_type value))) with
  | Some e => (snd e =? EnumValue_value value)%Z
  | None => false
  end.

Fixpoint render_index (w : writer) (type : coded_index) : string :=
  match type with
  | TypeDefOrRef_TypeSpec (Build_GenericTypeInstSig generic args) =>
      render_index w generic ++ "<" ++
      String.concat ", " (List.map (render_sig w) args) ++ ">"
  | _ => fst (table_namespace_and_name type) ++ "." ++
         snd (table_namespace_and_name type)
  end
with render_sig (w : writer) (signature : TypeSig) : string :=
  match signature with
  | Build_TypeSig _ (Type_ElementType ElementType.String) => "String"
  | Build_TypeSig _ (Type_ElementType ElementType.Object) => "Object"
  | Build_TypeSig _ (Type_ElementType _) => "Value"
  | Build_TypeSig _ (Type_coded_index type) => render_index w type
  | Build_TypeSig _ (Type_GenericTypeIndex index) =>
      List.nth index (List.last (writer_generic_param_stack w) []) "T"
  | Build_TypeSig _ (Type_GenericTypeInstSig
                       (Build_GenericTypeInstSig generic args)) =>
      render_index w generic ++ "<" ++
      String.concat ", " (List.map (render_sig w) args) ++ ">"
  | Build_TypeSig _ (Type_GenericMethodTypeIndex _) => "M"
  end.

Definition table_cache : cache :=
  {| TypeNamespace := fun type => row_TypeNamespace (table_row type);
     TypeName := fun type => row_TypeName (table_row type);
     Extends := fun type => row_Extends (table_row type);
     InterfaceImpl := fun type => row_InterfaceImpl (table_row type);
     CustomAttribute := fun type => row_CustomAttribute (table_row type);
     MethodList := fun type => row_MethodList (table_row type);
     get_category_of_type := fun type => row_category (table_row type);
     get_type_namespace_and_name := table_namespace_and_name;
     find_required_TypeRef := table_find_required_TypeRef;
     find_required := table_find_required;
     equals_enumerator := table_equals_enumerator;
     write_temp := render_index;
     write_temp_arg := render_sig |}.

End Table.

(** *** Sample metadata *)

Definition metadata_attribute (name : string) (args : list FixedArgSig)
    : CustomAttributeRow :=
  {| TypeNamespaceAndName := ("Windows.Foundation.Metadata", name);
     FixedArgs := args |}.

Definition type_ref (type_namespace name : string) : coded_index :=
  TypeDefOrRef_TypeRef
    {| TypeRef_TypeNamespace := type_namespace; TypeRef_TypeName := name |}.

Definition implements (attributes : list string) (type : coded_index)
    : InterfaceImplRow :=
  {| InterfaceImpl_CustomAttribute :=
       List.map (fun name => metadata_attribute name []) attributes;
     Interface := type |}.

Definition interface_row (type_namespace name : string)
    (attributes : list CustomAttributeRow) (requires : list InterfaceImplRow)
    (methods : list MethodDef) : TypeDefRow :=
  {| row_TypeNamespace := type_namespace; row_TypeName := name;
     row_Extends := None; row_InterfaceImpl := requires;
     row_CustomAttribute := attributes; row_MethodList := methods;
     row_category := category.interface_type; row_enumerators := [] |}.

Definition class_row (type_namespace name : string) (extends : coded_index)
    (attributes : list CustomAttributeRow) (impls : list InterfaceImplRow)
    : TypeDefRow :=
  {| row_TypeNamespace := type_namespace; row_TypeName := name;
     row_Extends := Some extends; row_InterfaceImpl := impls;
     row_CustomAttribute := attributes; row_MethodList := [];
     row_category := category.class_type; row_enumerators := [] |}.

Definition plain_method (name : string) (return_type : option TypeSig)
    : MethodDef :=
  {| SpecialName := false; Name := name;
     Signature := {| ReturnType := return_type; Params := [] |};
     MethodDef_CustomAttribute := [] |}.

(** [Widget] implements [IWidget] (default) and derives from [Control],
    which implements [IControl] (default); [Gadget] implements
    [IWidget] without marking it default. *)
Definition widget_table : list TypeDefRow :=
  [ class_row "App" "Widget" (type_ref "App" "Control") []
      [implements ["DefaultAttribute"] (type_ref "App" "IWidget")];
    class_row "App" "Control" (type_ref "System" "Object") []
      [implements ["DefaultAttribute"] (type_ref "App" "IControl")];
    interface_row "App" "IWidget" [] [] [];
    interface_row "App" "IControl" [] [] [];
    class_row "App" "Gadget" (type_ref "System" "Object") []
      [implements [] (type_ref "App" "IWidget")] ].

Definition Widget : TypeDef := TypeDef_row 0.
Definition IWidget : TypeDef := TypeDef_row 2.
Definition Gadget : TypeDef := TypeDef_row 4.

Definition default_settings : settings_type :=
  {| settings_fastabi := true; component_ignore_velocity := false |}.

Definition velocity_ignored : settings_type :=
  {| settings_fastabi := true; component_ignore_velocity := true |}.

Definition fresh_writer : writer :=
  {| abi_types := true; writer_generic_param_stack := [] |}.

Definition IAsyncAction_array : TypeSig :=
  Build_TypeSig true
    (Type_coded_index (type_ref "Windows.Foundation" "IAsyncAction")).

Definition missing_type : TypeSig :=
  Build_TypeSig false (Type_coded_index (type_ref "App" "Missing")).

(** The asynchronous return shapes as the specification words them: the
    return type itself is the non-generic action interface or one of
    the three generic interfaces (an array of them is another shape). *)
Definition is_async_return_shape (c : cache) (return_type : option TypeSig)
    : bool :=
  match return_type with
  | Some (Build_TypeSig false (Type_coded_index type)) =>
      (fst (get_type_namespace_and_name c type) =? "Windows.Foundation") &&
      (snd (get_type_namespace_and_name c type) =? "IAsyncAction")
  | Some (Build_TypeSig false (Type_GenericTypeInstSig type)) =>
      (fst (get_type_namespace_and_name c (GenericType type))
         =? "Windows.Foundation") &&
      ((snd (get_type_namespace_and_name c (GenericType type))
          =? "IAsyncOperation`1") ||
       (snd (get_type_namespace_and_name c (GenericType type))
          =? "IAsyncActionWithProgress`1") ||
       (snd (get_type_namespace_and_name c (GenericType type))
          =? "IAsyncOperationWithProgress`2"))
  | _ => false
  end.

(** *** The order behind the comparator *)

(** [is_always_enabled] as a flag, for types whose feature attribute
    can be read. *)
Definition always_enabled_flag (c : cache) (type : TypeDef) : bool :=
  match is_always_enabled c type with
  | Ok enabled => enabled
  | Err _ => false
  end.

(** What [fastabi_less] answers when it does not throw. *)
Definition fastabi_precedes (c : cache)
    (left_pair right_pair : string * interface_info.t) : bool :=
  let left := snd left_pair in
  let right := snd right_pair in
  if negb (Bool.eqb (interface_info.base left) (interface_info.base right))
  then negb (interface_info.base left)
  else if negb (Bool.eqb (interface_info.is_default left)
                         (interface_info.is_default right))
  then interface_info.is_default left
  else if negb (Bool.eqb (interface_info.overridable left)
                         (interface_info.overridable right))
  then negb (interface_info.overridable left)
  else if negb (Bool.eqb (interface_info.exclusive left)
                         (interface_info.exclusive right))
  then interface_info.exclusive left
  else if negb (Bool.eqb (always_enabled_flag c (interface_info.type left))
                         (always_enabled_flag c (interface_info.type right)))
  then always_enabled_flag c (interface_info.type left)
  else if negb (pair_eqb (interface_info.version left)
                         (interface_info.version right))
  then pair_ltb (interface_info.version left) (interface_info.version right)
  else (fst left_pair <? fst right_pair)%string.

(** The postcondition of a partial sort of the first [n] positions:
    each of them holds an element that none of the later ones
    precedes. *)
Fixpoint least_first {A : Type} (lt : A -> A -> bool) (n : nat) (l : list A)
    : Prop :=
  match n, l with
  | S n', m :: rest =>
      Forall (fun y => lt y m = false) rest /\ least_first lt n' rest
  | _, _ => True
  end.

(** The ordering as the specification words it: a stable sort of the
    first [prefix_count] positions only, those positions marked and the
    others left where they are. *)
Fixpoint stable_insert {A : Type} (lt : A -> A -> bool) (x : A) (l : list A)
    : list A :=
  match l with
  | [] => [x]
  | y :: l' => if lt y x then y :: stable_insert lt x l' else x :: y :: l'
  end.

Definition stable_sort {A : Type} (lt : A -> A -> bool) (l : list A) : list A :=
  List.fold_right (stable_insert lt) [] l.

Definition prefix_window_order (c : cache) (entries : get_interfaces_t)
    : get_interfaces_t :=
  let prefix_count := count_if fastabi_candidate entries in
  (List.map set_fastabi
     (stable_sort (fastabi_precedes c) (List.firstn prefix_count entries)) ++
   List.skipn prefix_count entries)%list.

(** The last two keys of the comparator: version, then name. *)
Definition version_name_lt (x y : (N * N) * string) : bool :=
  if negb (pair_eqb (fst x) (fst y)) then pair_ltb (fst x) (fst y)
  else (snd x <? snd y)%string.

(** The writer [get_interfaces] walks with: [abi_types] cleared. *)
Definition walk_writer (w : writer) : writer :=
  {| abi_types := false;
     writer_generic_param_stack := writer_generic_param_stack w |}.

(** An interface reference that names a definition directly or through
    a reference the cache resolves. *)
Definition resolves_to (c : cache) (type : coded_index) (type_def : TypeDef)
    : Prop :=
  type = TypeDefOrRef_TypeDef type_def \/
  exists type_ref,
    type = TypeDefOrRef_TypeRef type_ref /\
    find_required_TypeRef c type_ref = Ok type_def.

(** *** Sample fast-ABI classes *)

Definition exclusive_to (class_name : string) : CustomAttributeRow :=
  metadata_attribute "ExclusiveToAttribute"
    [FixedArg_ElemSig (Elem_SystemType class_name)].

Definition version_attribute (version : N) : CustomAttributeRow :=
  metadata_attribute "VersionAttribute" [FixedArg_ElemSig (Elem_uint32 version)].

(** [Button] lists [IStringable], which is not exclusive to it, before
    its default interface [IButton], which is. *)
Definition button_table : list TypeDefRow :=
  [ class_row "App" "Button" (type_ref "System" "Object")
      [metadata_attribute "FastAbiAttribute" []]
      [implements [] (type_ref "Windows.Foundation" "IStringable");
       implements ["DefaultAttribute"] (type_ref "App" "IButton")];
    interface_row "Windows.Foundation" "IStringable" [] []
      [plain_method "ToString"
         (Some (Build_TypeSig false (Type_ElementType ElementType.String)))];
    interface_row "App" "IButton" [exclusive_to "App.Button"] [] [] ].

Definition Button : TypeDef := TypeDef_row 0.

(** [Slider] has no base class and three interfaces exclusive to it, of
    versions 1.0, 1.2 and 1.1 in that order; the first may be marked
    default. *)
Definition slider_table (default_marked : bool)
    (methods_1_0 methods_1_2 methods_1_1 : list MethodDef) : list TypeDefRow :=
  [ class_row "App" "Slider" (type_ref "System" "Object")
      [metadata_attribute "FastAbiAttribute" []]
      [implements (if default_marked then ["DefaultAttribute"] else [])
                  (type_ref "App" "ISlider");
       implements [] (type_ref "App" "ISlider2");
       implements [] (type_ref "App" "ISlider3")];
    interface_row "App" "ISlider"
      [exclusive_to "App.Slider"; version_attribute 65536] [] methods_1_0;
    interface_row "App" "ISlider2"
      [exclusive_to "App.Slider"; version_attribute 65538] [] methods_1_2;
    interface_row "App" "ISlider3"
      [exclusive_to "App.Slider"; version_attribute 65537] [] methods_1_1 ].

Definition Slider : TypeDef := TypeDef_row 0.

(** The name, version and [fastabi] flag of an entry. *)
Definition entry_summary (entry : string * interface_info.t)
    : string * (N * N) * bool :=
  (fst entry, interface_info.version (snd entry),
   interface_info.fastabi (snd entry)).

(** *** Slot counting *)

(** The leading entries with [fastabi] set. *)
Fixpoint fastabi_prefix (interfaces : get_interfaces_t) : get_interfaces_t :=
  match interfaces with
  | [] => []
  | entry :: rest =>
      if interface_info.fastabi (snd entry) then entry :: fastabi_prefix rest
      else []
  end.

Definition method_count (c : cache) (entry : string * interface_info.t) : N :=
  N.of_nat (List.length (MethodList c (interface_info.type (snd entry)))).

Definition sum_N (l : list N) : N := List.fold_right N.add 0%N l.

(** *** Metadata on which the walk returns

    [rank] decreases along every interface implementation and along the
    base class: the graph is acyclic.  Every interface reference
    resolves, and the version attribute of its target can be read. *)
Definition well_founded_metadata (c : cache) (rank : TypeDef -> nat) : Prop :=
  (forall type impl w stack,
      In impl (InterfaceImpl c type) ->
      exists target stack' guard version,
        interface_target c w stack (Interface impl)
          = Ok (target, stack', guard) /\
        rank target < rank type /\
        get_version c target = Ok version) /\
  (forall type,
      get_base_class c type = Ok None \/
      exists base,
        get_base_class c type = Ok (Some base) /\ rank base < rank type).

(** A rank for [widget_table]: classes above their base class and above
    the interfaces. *)
Definition widget_rank (type : TypeDef) : nat :=
  match type with
  | TypeDef_row 0 => 2
  | TypeDef_row 1 => 1
  | TypeDef_row 4 => 1
  | _ => 0
  end.

(** [Bag] implements [IVector<String>], which requires
    [IIterable<T>]. *)
Definition generic_instance (type_namespace name : string)
    (args : list TypeSig) : coded_index :=
  TypeDefOrRef_TypeSpec
    (Build_GenericTypeInstSig (type_ref type_namespace name) args).

Definition bag_table : list TypeDefRow :=
  [ class_row "App" "Bag" (type_ref "System" "Object") []
      [implements ["DefaultAttribute"]
         (generic_instance "Windows.Foundation.Collections" "IVector`1"
            [Build_TypeSig false (Type_ElementType ElementType.String)])];
    interface_row "Windows.Foundation.Collections" "IVector`1" []
      [implements []
         (generic_instance "Windows.Foundation.Collections" "IIterable`1"
            [Build_TypeSig false (Type_GenericTypeIndex 0)])] [];
    interface_row "Windows.Foundation.Collections" "IIterable`1" [] [] [] ].

(* ================================================================== *)
(** ** The other helpers of [helpers.h] *)

(** [std::string_view::npos], [find(char)] and [substr(pos)]. *)
Definition npos : N := (size_t_modulus - 1)%N.

Fixpoint find_index (s : string) (ch : ascii) : option nat :=
  match s with
  | EmptyString => None
  | String a s' =>
      if Ascii.eqb a ch then Some 0
      else match find_index s' ch with
           | Some i => Some (S i)
           | None => None
           end
  end.

Definition string_find (s : string) (ch : ascii) : N :=
  match find_index s ch with
  | Some i => N.of_nat i
  | None => npos
  end.

Definition substr (s : string) (pos : N) : res string :=
  if (N.of_nat (String.length s) <? pos)%N then Err out_of_range
  else Ok (String.substring (N.to_nat pos)
                            (String.length s - N.to_nat pos) s).

Definition as_string_view (e : ElemSig) : option string :=
  match e with Elem_string_view v => Some v | _ => None end.

(** A row of the Param table. *)
Record ParamRow : Type := {
  Sequence : N;
  Param_Name : string
}.

(** [std::replace(first, last, old, new)] on a string. *)
Fixpoint string_replace (s : string) (old new : ascii) : string :=
  match s with
  | EmptyString => EmptyString
  | String a s' =>
      String (if Ascii.eqb a old then new else a) (string_replace s' old new)
  end.

(** [struct separator]: the state is [first]; a call returns the new
    state and what it writes. *)
Definition separator_call (first : bool) : bool * string :=
  if first then (false, "") else (false, ", ").

Fixpoint separator_calls (n : nat) (first : bool) : bool * string :=
  match n with
  | O => (first, "")
  | S n' =>
      let '(first', written) := separator_call first in
      let '(last, written') := separator_calls n' first' in
      (last, written ++ written')
  end.

Section OtherHelpers.

Variable c : cache.
Variable settings : settings_type.

(** Accessors of the reader and settings that only these helpers use:
    the Param table and the range of rows of a method, the lookup of a
    type by its full name, the rendering of a definition, and the
    component settings. *)
Variable Param_row : nat -> ParamRow.
Variable ParamList : MethodDef -> nat * nat.
Variable find_required_name : string -> res TypeDef.
Variable write_temp_TypeDef : writer -> TypeDef -> string.
Variable component_name : string.
Variable component_prefix : bool.

(** *** Accessor kinds and names *)

Definition get_abi_name (method : MethodDef) : res string :=
  match get_attribute c method "Windows.Foundation.Metadata"
                      "OverloadAttribute" with
  | Some overload => get_attribute_value as_string_view overload 0
  | None => Ok (Name method)
  end.

Definition get_name (method : MethodDef) : res string :=
  let name := Name method in
  if SpecialName method
  then substr name (size_t_add (string_find name "_"%char) 1)
  else Ok name.

Definition is_remove_overload (method : MethodDef) : bool :=
  SpecialName method && starts_with (Name method) "remove_".

Definition is_add_overload (method : MethodDef) : bool :=
  SpecialName method && starts_with (Name method) "add_".

Definition is_get_overload (method : MethodDef) : bool :=
  SpecialName method && starts_with (Name method) "get_".

Definition is_noexcept (method : MethodDef) : bool :=
  is_remove_overload method ||
  has_attribute c method "Windows.Foundation.Metadata" "NoExceptionAttribute".

(** *** The rows of a method signature

    The constructor of [method_signature]: [m_return] is the first row
    of the method when the signature returns a value, the method has a
    row and that row has sequence 0; [m_params] pairs the rows that
    follow, one per parameter of the signature, with the parameter
    signatures.  A row is its index in the Param table. *)
Definition method_signature_return (method : MethodDef) : option nat :=
  let '(first, second) := ParamList method in
  match ReturnType (Signature method) with
  | Some _ =>
      if negb (Nat.eqb first second) &&
         (Sequence (Param_row first) =? 0)%N
      then Some first
      else None
  | None => None
  end.

Definition method_signature_params (method : MethodDef)
    : list (nat * TypeSig) :=
  let first :=
    match method_signature_return method with
    | Some row => S row
    | None => fst (ParamList method)
    end in
  List.combine (List.seq first (List.length (Params (Signature method))))
               (Params (Signature method)).

Definition return_param_name (method : MethodDef) : string :=
  match method_signature_return method with
  | Some row => Param_Name (Param_row row)
  | None => "winrt_impl_result"
  end.

(** *** Objects, delegates, inherited interfaces *)

Definition is_object (signature : TypeSig) : bool :=
  match Type_ signature with
  | Type_ElementType ElementType.Object => true
  | _ => false
  end.

Definition get_delegate_method (type : TypeDef) : res MethodDef :=
  match List.find (fun method => (Name method =? "Invoke")%string)
                  (MethodList c type) with
  | Some method => Ok method
  | None => throw_invalid ["Delegate's Invoke method not found"]
  end.

(** Modelled from the spec: [type_name] of a coded index, declared
    outside these sources; as for a reference, it compares equal to a
    string when the string is the namespace-dotted name. *)
Definition coded_type_name_eq (type : coded_index) (other : string) : bool :=
  (fst (get_type_namespace_and_name c type) ++ "." ++
   snd (get_type_namespace_and_name c type) =? other)%string.

(** The loop of [implements_interface] over the type's own edges. *)
Definition implements_directly (type : TypeDef) (name : string) : bool :=
  List.existsb
    (fun impl =>
       match Interface impl with
       | TypeDefOrRef_TypeSpec _ => false
       | iface => coded_type_name_eq iface name
       end)
    (InterfaceImpl c type).

(** One unit of fuel per class on the way up. *)
Fixpoint implements_interface (fuel : nat) (type : TypeDef) (name : string)
    : res bool :=
  match fuel with
  | O => Err out_of_fuel
  | S fuel' =>
      if implements_directly type name then Ok true
      else
        base <- get_base_class c type ;;
        match base with
        | Some base => implements_interface fuel' base name
        | None => Ok false
        end
  end.

(** *** Fast-ABI tear-offs and the size over several classes *)

(** The loop of [has_fastabi_tearoffs]: the flag of the first entry
    that is not the default interface. *)
Fixpoint first_tearoff (interfaces : get_interfaces_t) : bool :=
  match interfaces with
  | [] => false
  | (name, info) :: rest =>
      if interface_info.is_default info then first_tearoff rest
      else interface_info.fastabi info
  end.

Definition has_fastabi_tearoffs (fuel : nat) (w : writer) (type : TypeDef)
    : res bool :=
  interfaces <- get_interfaces c settings fuel w type ;;
  Ok (first_tearoff interfaces).

(** [get_fastabi_size(w, classes)]. *)
Definition get_fastabi_size_of_classes (fuel : nat) (w : writer)
    (classes : list TypeDef) : res N :=
  for_each
    (fun type result =>
       size <- get_fastabi_size c settings fuel w type ;;
       Ok (N.max result size))
    classes 0%N.

(** *** Component file names *)

Definition get_component_filename (type : TypeDef) : string :=
  let result := TypeNamespace c type ++ "." ++ TypeName c type in
  if negb (component_name =? "")%string && starts_with result component_name
  then
    let result :=
      String.substring (String.length component_name)
                       (String.length result - String.length component_name)
                       result in
    if starts_with result "."
    then String.substring 1 (String.length result - 1) result
    else result
  else result.

Definition get_generated_component_filename (type : TypeDef) : string :=
  let result := get_component_filename type in
  if negb component_prefix then string_replace result "."%char "/"%char
  else result.

End OtherHelpers.

(** The chain [get_bases] follows: each class is the base class of the
    one before, and the last has none. *)
Fixpoint base_chain (c : cache) (type : TypeDef) (bases : list TypeDef)
    : Prop :=
  match bases with
  | [] => get_base_class c type = Ok None
  | base :: rest =>
      get_base_class c type = Ok (Some base) /\ base_chain c base rest
  end.

(** *** Factories *)

Module factory_info.
Record t : Type := {
  type : option TypeDef;
  activatable : bool;
  statics : bool;
  composable : bool;
  visible : bool
}.
End factory_info.

(** [std::map<std::string, V>]: the pairs in ascending key order, one
    per key; [map_assign] is [m[key] = value]. *)
Fixpoint map_assign {V : Type} (m : list (string * V)) (key : string)
    (value : V) : list (string * V) :=
  match m with
  | [] => [(key, value)]
  | (k, v) :: m' =>
      if (k =? key)%string then (key, value) :: m'
      else if (key <? k)%string then (key, value) :: (k, v) :: m'
      else (k, v) :: map_assign m' key value
  end.

Fixpoint map_find {V : Type} (m : list (string * V)) (key : string)
    : option V :=
  match m with
  | [] => None
  | (k, v) :: m' => if (k =? key)%string then Some v else map_find m' key
  end.

(** A loop over a container that returns [true] at the first element
    whose test holds, and [false] after the last; the test may throw. *)
Fixpoint any_of {A : Type} (test : A -> res bool) (range : list A) : res bool :=
  match range with
  | [] => Ok false
  | a :: range' =>
      found <- test a ;;
      if found : bool then Ok true else any_of test range'
  end.

Section Factories.

Variable c : cache.
Variable find_required_name : string -> res TypeDef.
Variable write_temp_TypeDef : writer -> TypeDef -> string.

(** The lambda [get_system_type]: the type named by the first
    [SystemType] argument, or a null definition. *)
Fixpoint get_system_type (args : list FixedArgSig) : res (option TypeDef) :=
  match args with
  | [] => Ok None
  | FixedArg_vector _ :: _ => Err bad_variant_access
  | FixedArg_ElemSig (Elem_SystemType name) :: _ =>
      type <- find_required_name name ;; Ok (Some type)
  | FixedArg_ElemSig _ :: args' => get_system_type args'
  end.

(** The inner loop for a composable factory: the first enum argument
    decides [visible].  (The enum value is an [int32_t] in the code; the
    embedding's [EnumValue] holds the number only.) *)
Fixpoint get_visible (args : list FixedArgSig) : res bool :=
  match args with
  | [] => Ok false
  | FixedArg_vector _ :: _ => Err bad_variant_access
  | FixedArg_ElemSig (Elem_EnumValue visibility) :: _ =>
      Ok (EnumValue_value visibility =? 2)%Z
  | FixedArg_ElemSig _ :: args' => get_visible args'
  end.

(** The body of the loop of [get_factories] for one attribute: [None]
    for an attribute the loop passes over. *)
Definition factory_of_attribute (attribute : CustomAttributeRow)
    : res (option factory_info.t) :=
  let attribute_name := TypeNamespaceAndName attribute in
  if negb (fst attribute_name =? "Windows.Foundation.Metadata")%string
  then Ok None
  else
    let signature := FixedArgs attribute in
    if (snd attribute_name =? "ActivatableAttribute")%string then
      type <- get_system_type signature ;;
      Ok (Some {| factory_info.type := type;
                  factory_info.activatable := true;
                  factory_info.statics := false;
                  factory_info.composable := false;
                  factory_info.visible := false |})
    else if (snd attribute_name =? "StaticAttribute")%string then
      type <- get_system_type signature ;;
      Ok (Some {| factory_info.type := type;
                  factory_info.activatable := false;
                  factory_info.statics := true;
                  factory_info.composable := false;
                  factory_info.visible := false |})
    else if (snd attribute_name =? "ComposableAttribute")%string then
      type <- get_system_type signature ;;
      visible <- get_visible signature ;;
      Ok (Some {| factory_info.type := type;
                  factory_info.activatable := false;
                  factory_info.statics := false;
                  factory_info.composable := true;
                  factory_info.visible := visible |})
    else Ok None.

Definition factory_name (w : writer) (info : factory_info.t) : string :=
  match factory_info.type info with
  | Some type => write_temp_TypeDef w type
  | None => ""
  end.

Definition get_factories_step (w : writer) (attribute : CustomAttributeRow)
    (result : list (string * factory_info.t))
    : res (list (string * factory_info.t)) :=
  info <- factory_of_attribute attribute ;;
  match info with
  | Some info => Ok (map_assign result (factory_name w info) info)
  | None => Ok result
  end.

Definition get_factories (w : writer) (type : TypeDef)
    : res (list (string * factory_info.t)) :=
  for_each (get_factories_step w) (CustomAttribute c type) [].

(** [MethodList()] of a factory type; a null definition has no row to
    read. *)
Definition factory_has_methods (factory : factory_info.t) : res bool :=
  match factory_info.type factory with
  | Some type => Ok (negb (Nat.eqb (List.length (MethodList c type)) 0))
  | None => Err assertion_failed
  end.

Definition has_factory_members (w : writer) (type : TypeDef) : res bool :=
  factories <- get_factories w type ;;
  any_of (fun entry =>
            match factory_info.type (snd entry) with
            | None => Ok true
            | Some _ => factory_has_methods (snd entry)
            end)
         factories.

Definition is_composable (w : writer) (type : TypeDef) : res bool :=
  factories <- get_factories w type ;;
  any_of (fun entry => Ok (factory_info.composable (snd entry))) factories.

Definition has_composable_constructors (w : writer) (type : TypeDef)
    : res bool :=
  factories <- get_factories w type ;;
  any_of (fun entry =>
            if factory_info.composable (snd entry)
            then factory_has_methods (snd entry)
            else Ok false)
         factories.

End Factories.

(** *** Sample methods *)

Definition accessor_method (name : string) (return_type : option TypeSig)
    (params : list TypeSig) : MethodDef :=
  {| SpecialName := true; Name := name;
     Signature := {| ReturnType := return_type; Params := params |};
     MethodDef_CustomAttribute := [] |}.

Definition Int32_sig : TypeSig :=
  Build_TypeSig false (Type_ElementType ElementType.I4).

(** A Param table in which rows 3 to 5 belong to one method: its
    return row and two parameters. *)
Definition sample_Param_row (row : nat) : ParamRow :=
  match row with
  | 3 => {| Sequence := 0; Param_Name := "result" |}
  | 4 => {| Sequence := 1; Param_Name := "left" |}
  | 5 => {| Sequence := 2; Param_Name := "right" |}
  | _ => {| Sequence := 1; Param_Name := "other" |}
  end.

Definition sample_ParamList (method : MethodDef) : nat * nat := (3, 6).

(** The attributes [get_version] stops at. *)
Definition is_version_attribute (attribute : CustomAttributeRow) : bool :=
  (fst (TypeNamespaceAndName attribute) =? "Windows.Foundation.Metadata") &&
  ((snd (TypeNamespaceAndName attribute) =? "ContractVersionAttribute") ||
   (snd (TypeNamespaceAndName attribute) =? "VersionAttribute")).

(** A class deriving from [Control] of [widget_table] twice removed,
    for the base-class helpers. *)
Definition versioned_table : list TypeDefRow :=
  [ interface_row "App" "IPlain" [] [] [];
    interface_row "App" "IContract"
      [metadata_attribute "GuidAttribute" [];
       metadata_attribute "ContractVersionAttribute"
         [FixedArg_ElemSig (Elem_SystemType "App.Contract");
          FixedArg_ElemSig (Elem_uint32 196613)];
       version_attribute 65536] [] [] ].

(** The key order of a [std::map]: every key is less than the keys
    after it. *)
Fixpoint ascending (keys : list string) : Prop :=
  match keys with
  | [] => True
  | key :: rest =>
      Forall (fun later => (key <? later)%string = true) rest /\
      ascending rest
  end.

(** The kind of a factory: exactly one of the three flags. *)
Definition one_factory_kind (info : factory_info.t) : bool :=
  match factory_info.activatable info, factory_info.statics info,
        factory_info.composable info with
  | true, false, false | false, true, false | false, false, true => true
  | _, _, _ => false
  end.

(** The lookup of a definition by its full name in a table. *)
Fixpoint table_lookup_name (rows : list TypeDefRow) (index : nat)
    (name : string) : option TypeDef :=
  match rows with
  | [] => None
  | row :: rows' =>
      if (row_TypeNamespace row ++ "." ++ row_TypeName row =? name)%string
      then Some (TypeDef_row index)
      else table_lookup_name rows' (S index) name
  end.

Definition table_find_required_name (table : list TypeDefRow) (name : string)
    : res TypeDef :=
  match table_lookup_name table 0 name with
  | Some type => Ok type
  | None => throw_invalid ["Type '"; name; "' could not be found"]
  end.

Definition render_TypeDef (table : list TypeDefRow) (w : writer)
    (type : TypeDef) : string :=
  render_index table w (TypeDefOrRef_TypeDef type).

(** [Thing] is activatable without a factory interface, has its
    statics on [IThingStatics], and is composable, publicly, through
    [IThingFactory]; a second activatable attribute names no interface
    either. *)
Definition thing_table : list TypeDefRow :=
  [ class_row "App" "Thing" (type_ref "System" "Object")
      [metadata_attribute "ActivatableAttribute"
         [FixedArg_ElemSig (Elem_uint32 65536)];
       metadata_attribute "StaticAttribute"
         [FixedArg_ElemSig (Elem_SystemType "App.IThingStatics");
          FixedArg_ElemSig (Elem_uint32 65536)];
       metadata_attribute "ComposableAttribute"
         [FixedArg_ElemSig (Elem_SystemType "App.IThingFactory");
          FixedArg_ElemSig
            (Elem_EnumValue {| EnumValue_type := TypeDef_row 3;
                               EnumValue_value := 2 |});
          FixedArg_ElemSig (Elem_uint32 65536)];
       metadata_attribute "ActivatableAttribute"
         [FixedArg_ElemSig (Elem_uint32 131072)]]
      [];
    interface_row "App" "IThingStatics" [] []
      [plain_method "Create" None];
    interface_row "App" "IThingFactory" [] []
      [plain_method "CreateInstance" None] ].

Definition Thing : TypeDef := TypeDef_row 0.

(** What an entry records about its interface: [exclusive] and
    [version] are read off the interface's definition, and [defaulted]
    goes with [is_default] outside a base class and is never set
    inside one. *)
Definition entry_consistent (c : cache) (info : interface_info.t) : Prop :=
  interface_info.exclusive info =
    has_attribute c (interface_info.type info) "Windows.Foundation.Metadata"
                  "ExclusiveToAttribute" /\
  get_version c (interface_info.type info) = Ok (interface_info.version info) /\
  (interface_info.base info = true -> interface_info.defaulted info = false) /\
  (interface_info.is_default info = true ->
   interface_info.base info = false ->
   interface_info.defaulted info = true).

(** An entry with every flag clear, for the lookups. *)
Definition plain_entry (type : TypeDef) : interface_info.t :=
  {| interface_info.type := type;
     interface_info.is_default := false;
     interface_info.defaulted := false;
     interface_info.overridable := false;
     interface_info.base := false;
     interface_info.exclusive := false;
     interface_info.fastabi := false;
     interface_info.version := (0%N, 0%N);
     interface_info.generic_param_stack := [] |}.

(** *** Scenarios for the defaulted flag and the slot count *)

(** [Panel] implements [IPanel] (default) and then [IScroll], and
    [IScroll] requires [IPanel]: the walk reaches [IPanel] a second
    time, through an edge that is not default. *)
Definition panel_table : list TypeDefRow :=
  [ class_row "App" "Panel" (type_ref "System" "Object") []
      [implements ["DefaultAttribute"] (type_ref "App" "IPanel");
       implements [] (type_ref "App" "IScroll")];
    interface_row "App" "IPanel" [] [] [];
    interface_row "App" "IScroll" []
      [implements [] (type_ref "App" "IPanel")] [] ].

Definition Panel : TypeDef := TypeDef_row 0.
Definition IScroll : TypeDef := TypeDef_row 2.

(** [Gizmo] implements [IGizmo], which requires [IPart]; no edge of the
    table is marked default. *)
Definition gizmo_table : list TypeDefRow :=
  [ class_row "App" "Gizmo" (type_ref "System" "Object") []
      [implements [] (type_ref "App" "IGizmo")];
    interface_row "App" "IGizmo" []
      [implements [] (type_ref "App" "IPart")] [];
    interface_row "App" "IPart" [] [] [] ].

Definition Gizmo : TypeDef := TypeDef_row 0.

(** An edge to an interface that is exclusive, requires nothing, has
    the given version and feature state, and is not overridable. *)
Definition exclusive_leaf (c : cache) (impl : InterfaceImplRow)
    (iface : TypeDef) (version : N * N) (enabled : bool) : Prop :=
  resolves_to c (Interface impl) iface /\
  InterfaceImpl c iface = [] /\
  get_version c iface = Ok version /\
  has_attribute c iface "Windows.Foundation.Metadata" "ExclusiveToAttribute"
    = true /\
  has_attribute c impl "Windows.Foundation.Metadata" "OverridableAttribute"
    = false /\
  is_always_enabled c iface = Ok enabled.

(** The entry the walk stores for such an edge of the type itself. *)
Definition exclusive_leaf_entry (name : string) (iface : TypeDef)
    (is_default : bool) (version : N * N) : string * interface_info.t :=
  (name,
   {| interface_info.type := iface;
      interface_info.is_default := is_default;
      interface_info.defaulted := is_default;
      interface_info.overridable := false;
      interface_info.base := false;
      interface_info.exclusive := true;
      interface_info.fastabi := false;
      interface_info.version := version;
      interface_info.generic_param_stack := [] |}).

(** Entries marked default before the others, each group in the order
    given. *)
Definition default_first (entries : get_interfaces_t) : get_interfaces_t :=
  (List.filter (fun entry => interface_info.is_default (snd entry)) entries ++
   List.filter (fun entry => negb (interface_info.is_default (snd entry)))
               entries)%list.

(** [Slider] again, with the default marker on the interface of
    version 1.2. *)
Definition slider_default_1_2_table : list TypeDefRow :=
  [ class_row "App" "Slider" (type_ref "System" "Object")
      [metadata_attribute "FastAbiAttribute" []]
      [implements [] (type_ref "App" "ISlider");
       implements ["DefaultAttribute"] (type_ref "App" "ISlider2");
       implements [] (type_ref "App" "ISlider3")];
    interface_row "App" "ISlider"
      [exclusive_to "App.Slider"; version_attribute 65536] [] [];
    interface_row "App" "ISlider2"
      [exclusive_to "App.Slider"; version_attribute 65538] [] [];
    interface_row "App" "ISlider3"
      [exclusive_to "App.Slider"; version_attribute 65537] [] [] ].

(** [Dial] has fast-ABI layout, one exclusive interface with two
    methods, and the base class [Knob], which has an interface of its
    own. *)
Definition dial_table : list TypeDefRow :=
  [ class_row "App" "Dial" (type_ref "App" "Knob")
      [metadata_attribute "FastAbiAttribute" []]
      [implements ["DefaultAttribute"] (type_ref "App" "IDial")];
    class_row "App" "Knob" (type_ref "System" "Object") []
      [implements ["DefaultAttribute"] (type_ref "App" "IKnob")];
    interface_row "App" "IDial" [exclusive_to "App.Dial"] []
      [plain_method "Turn" None; plain_method "Reset" None];
    interface_row "App" "IKnob" [] [] [plain_method "Press" None] ].

Definition Dial : TypeDef := TypeDef_row 0.

(* ================================================================== *)
(** * Properties *)

(** ** The error monad *)

Lemma bind_Ok {A B : Type} (m : res A) (k : A -> res B) (b : B) :
  bind m k = Ok b -> exists a, m = Ok a /\ k a = Ok b.
Proof.
  destruct m as [a | e]; simpl; intros H; [eauto | discriminate].
Qed.

Ltac bind_inv H :=
  let a := fresh "a" in
  let Ha := fresh "Ha" in
  apply bind_Ok in H; destruct H as (a & Ha & H).

(** ** Method classification *)

Section MethodClassification.

Variable c : cache.

Lemma is_put_overload_spec (method : MethodDef) :
  is_put_overload method = true <->
  SpecialName method = true /\ String.prefix "put_" (Name method) = true.
Proof.
  unfold is_put_overload, starts_with. apply andb_true_iff.
Qed.

(** C6 (as amended).  A setter accessor is asynchronous whatever it
    returns.  For any other method, [is_async] holds exactly when
    there is a return type whose type, array marker aside, is
    [Windows.Foundation.IAsyncAction] or an instantiation of
    [IAsyncOperation`1], [IAsyncActionWithProgress`1] or
    [IAsyncOperationWithProgress`2] of that namespace; the array
    marker of the return signature is never read. *)
Theorem is_async_classification (method : MethodDef) :
  let self := Build_method_signature_of method in
  (SpecialName method = true -> String.prefix "put_" (Name method) = true ->
   is_async c self = true) /\
  (is_put_overload method = false ->
   (ReturnType (Signature method) = None -> is_async c self = false) /\
   (forall array type,
       ReturnType (Signature method) =
         Some (Build_TypeSig array (Type_coded_index type)) ->
       (is_async c self = true <->
        get_type_namespace_and_name c type =
          ("Windows.Foundation", "IAsyncAction"))) /\
   (forall array type,
       ReturnType (Signature method) =
         Some (Build_TypeSig array (Type_GenericTypeInstSig type)) ->
       (is_async c self = true <->
        exists name,
          get_type_namespace_and_name c (GenericType type) =
            ("Windows.Foundation", name) /\
          (name = "IAsyncOperation`1" \/
           name = "IAsyncActionWithProgress`1" \/
           name = "IAsyncOperationWithProgress`2"))) /\
   (forall array value,
       ReturnType (Signature method) = Some (Build_TypeSig array value) ->
       (forall type, value <> Type_coded_index type) ->
       (forall type, value <> Type_GenericTypeInstSig type) ->
       is_async c self = false)).
Proof.
  intros self. unfold self, is_async, Build_method_signature_of. simpl.
  split.
  { intros Hspecial Hprefix.
    now rewrite (proj2 (is_put_overload_spec method) (conj Hspecial Hprefix)). }
  intros ->.
  repeat split.
  - intros ->. reflexivity.
  - rewrite H. simpl.
    destruct (get_type_namespace_and_name c type) as [ns name].
    rewrite andb_true_iff, !String.eqb_eq. intros [-> ->]. reflexivity.
  - rewrite H. simpl. intros E. rewrite E.
    rewrite !String.eqb_refl. reflexivity.
  - rewrite H. simpl.
    destruct (get_type_namespace_and_name c (GenericType type)) as [ns name].
    destruct (String.eqb_spec ns "Windows.Foundation") as [-> | N];
      [ | discriminate ].
    rewrite !orb_true_iff, !String.eqb_eq. intros E.
    exists name. split; [reflexivity | tauto].
  - rewrite H. simpl. intros (name & E & Hname). rewrite E.
    rewrite String.eqb_refl, !orb_true_iff, !String.eqb_eq. tauto.
  - intros array value -> Hindex Hinst. simpl.
    destruct value; try reflexivity.
    + exfalso. eapply Hindex. reflexivity.
    + exfalso. eapply Hinst. reflexivity.
Qed.

End MethodClassification.

Lemma is_async_classification_witness :
  is_async (table_cache widget_table)
    (Build_method_signature_of
       (plain_method "Run"
          (Some (Build_TypeSig false
                   (Type_coded_index
                      (type_ref "Windows.Foundation" "IAsyncAction"))))))
  = true.
Proof.
  pose proof (is_async_classification (table_cache widget_table)
                (plain_method "Run"
                   (Some (Build_TypeSig false
                            (Type_coded_index
                               (type_ref "Windows.Foundation" "IAsyncAction"))))))
    as H.
  simpl in H. destruct H as [_ H].
  destruct (H eq_refl) as (_ & Hindex & _).
  apply (Hindex false (type_ref "Windows.Foundation" "IAsyncAction") eq_refl).
  reflexivity.
Defined.

(** C6, as stated, fails: a method that is no setter and returns an
    array of [IAsyncAction] is classified asynchronous, although its
    return type is none of the four recognised shapes. *)
Lemma is_async_array_return :
  let method := plain_method "PendingActions" (Some IAsyncAction_array) in
  is_put_overload method = false /\
  is_async_return_shape (table_cache widget_table)
    (ReturnType (Signature method)) = false /\
  is_async (table_cache widget_table) (Build_method_signature_of method) = true.
Proof.
  repeat split.
Qed.

(** ** Feature gates *)

(** C10.  A type without a feature attribute is not always-disabled and
    is always-enabled; with the ignore-velocity setting on,
    [is_always_disabled] answers [false] whatever the attributes are. *)
Theorem feature_gate_defaults (c : cache) (settings : settings_type)
    (type : TypeDef) :
  (has_attribute c type "Windows.Foundation.Metadata" "FeatureAttribute"
     = false ->
   is_always_disabled c settings type = Ok false /\
   is_always_enabled c type = Ok true) /\
  (component_ignore_velocity settings = true ->
   is_always_disabled c settings type = Ok false).
Proof.
  unfold is_always_disabled, is_always_enabled, has_attribute.
  split.
  - destruct (get_attribute c type _ _); [discriminate | ].
    intros _. destruct (component_ignore_velocity settings); split; reflexivity.
  - intros ->. reflexivity.
Qed.

Lemma feature_gate_defaults_witness :
  (is_always_disabled (table_cache widget_table) default_settings Widget
     = Ok false /\
   is_always_enabled (table_cache widget_table) Widget = Ok true) /\
  is_always_disabled (table_cache widget_table) velocity_ignored Widget
    = Ok false.
Proof.
  split.
  - apply (proj1 (feature_gate_defaults (table_cache widget_table)
                    default_settings Widget)).
    reflexivity.
  - apply (proj2 (feature_gate_defaults (table_cache widget_table)
                    velocity_ignored Widget)).
    reflexivity.
Defined.

(** ** Default interface *)

Lemma find_none_iff {A : Type} (p : A -> bool) (l : list A) :
  List.find p l = None <-> forall x, In x l -> p x = false.
Proof.
  induction l as [ | a l IH]; simpl.
  - split; [intros _ x [] | reflexivity].
  - destruct (p a) eqn:E.
    + split; [discriminate | ].
      intros H. rewrite (H a) in E; [discriminate | now left].
    + rewrite IH. split.
      * intros H x [<- | Hx]; auto.
      * intros H x Hx. apply H. now right.
Qed.

(** C7.  A type with at least one interface implementation, none of
    them marked default, makes [get_default_interface] throw, and the
    message carries the namespace-dotted name of the type; a type
    without interface implementations yields the null index. *)
Theorem default_interface_missing (c : cache) (type : TypeDef) :
  (InterfaceImpl c type <> [] ->
   (forall impl, In impl (InterfaceImpl c type) ->
      has_attribute c impl "Windows.Foundation.Metadata" "DefaultAttribute"
        = false) ->
   get_default_interface c type =
     Err (invalid_argument
            ("Type '" ++ TypeNamespace c type ++ "." ++ TypeName c type ++
             "' does not have a default interface"))) /\
  (InterfaceImpl c type = [] -> get_default_interface c type = Ok None).
Proof.
  unfold get_default_interface. split.
  - intros Hne Hnone. apply find_none_iff in Hnone. rewrite Hnone.
    destruct (InterfaceImpl c type) as [ | impl impls]; [congruence | ].
    reflexivity.
  - intros ->. reflexivity.
Qed.

Lemma default_interface_missing_witness :
  get_default_interface (table_cache widget_table) Gadget =
    Err (invalid_argument "Type 'App.Gadget' does not have a default interface")
  /\ get_default_interface (table_cache widget_table) IWidget = Ok None.
Proof.
  split.
  - apply (proj1 (default_interface_missing (table_cache widget_table) Gadget)).
    + discriminate.
    + intros impl [<- | []]. reflexivity.
  - apply (proj2 (default_interface_missing (table_cache widget_table) IWidget)).
    reflexivity.
Defined.

(** ** Signature categories *)

(** C9 (as amended).  [get_category] applies the rules in order and
    returns a category for every signature, except that a type
    reference other than [System.Guid] must resolve: when the cache
    lookup throws, so does [get_category] (and a reference through a
    TypeSpec row is not a case the code handles). *)
Theorem get_category_rules (c : cache) (signature : TypeSig) :
  (is_szarray signature = true ->
   get_category c signature = Ok (param_category.array_type, None)) /\
  (is_szarray signature = false ->
   (Type_ signature = Type_ElementType ElementType.String ->
    get_category c signature = Ok (param_category.string_type, None)) /\
   (Type_ signature = Type_ElementType ElementType.Object ->
    get_category c signature = Ok (param_category.object_type, None)) /\
   (forall type, Type_ signature = Type_ElementType type ->
      type <> ElementType.String -> type <> ElementType.Object ->
      get_category c signature = Ok (param_category.fundamental_type, None)) /\
   (forall type_ref,
      Type_ signature = Type_coded_index (TypeDefOrRef_TypeRef type_ref) ->
      type_name_eq type_ref "System.Guid" = true ->
      get_category c signature = Ok (param_category.struct_type, None)) /\
   (forall type type_def,
      Type_ signature = Type_coded_index type ->
      type = TypeDefOrRef_TypeDef type_def \/
      (exists type_ref,
          type = TypeDefOrRef_TypeRef type_ref /\
          type_name_eq type_ref "System.Guid" = false /\
          find_required_TypeRef c type_ref = Ok type_def) ->
      get_category c signature =
        Ok (match get_category_of_type c type_def with
            | category.interface_type
            | category.class_type
            | category.delegate_type => param_category.object_type
            | category.struct_type => param_category.struct_type
            | category.enum_type => param_category.enum_type
            end, Some type_def)) /\
   (forall type_ref e,
      Type_ signature = Type_coded_index (TypeDefOrRef_TypeRef type_ref) ->
      type_name_eq type_ref "System.Guid" = false ->
      find_required_TypeRef c type_ref = Err e ->
      get_category c signature = Err e) /\
   (forall type, Type_ signature = Type_GenericTypeInstSig type ->
      get_category c signature = Ok (param_category.object_type, None)) /\
   (forall index,
      Type_ signature = Type_GenericTypeIndex index \/
      Type_ signature = Type_GenericMethodTypeIndex index ->
      get_category c signature = Ok (param_category.generic_type, None))).
Proof.
  unfold get_category. split; [intros ->; reflexivity | intros ->].
  repeat split.
  - intros ->. reflexivity.
  - intros ->. reflexivity.
  - intros type -> HS HO. destruct type; congruence.
  - intros type_ref -> ->. reflexivity.
  - intros type type_def -> [-> | (type_ref & -> & -> & ->)]; simpl;
      destruct (get_category_of_type c type_def); reflexivity.
  - intros type_ref e -> -> ->. reflexivity.
  - intros type ->. reflexivity.
  - intros index [-> | ->]; reflexivity.
Qed.

Lemma get_category_rules_witness :
  get_category (table_cache widget_table)
    (Build_TypeSig false (Type_coded_index (type_ref "App" "IWidget")))
  = Ok (param_category.object_type, Some IWidget).
Proof.
  pose proof (get_category_rules (table_cache widget_table)
                (Build_TypeSig false
                   (Type_coded_index (type_ref "App" "IWidget")))) as H.
  destruct H as [_ H]. destruct (H eq_refl) as (_ & _ & _ & _ & Hdef & _).
  apply (Hdef (type_ref "App" "IWidget") IWidget eq_refl).
  right. eexists. repeat split.
Defined.

(** C9, as stated, fails: a reference to a type that the cache does not
    hold is a signature the reader can produce, and [get_category]
    throws on it. *)
Lemma get_category_unresolved_reference :
  get_category (table_cache widget_table) missing_type =
    Err (invalid_argument "Type 'App.Missing' could not be found").
Proof.
  reflexivity.
Qed.

(** ** Partial sort *)

Section PartialSort.

Context {A : Type}.
Variable comp : A -> A -> res bool.
Variable lt : A -> A -> bool.

Hypothesis comp_lt : forall a b r, comp a b = Ok r -> r = lt a b.
Hypothesis lt_irrefl : forall a, lt a a = false.
Hypothesis lt_trans :
  forall a b d, lt a b = true -> lt b d = true -> lt a d = true.
Hypothesis lt_negtrans :
  forall a b d, lt a b = false -> lt b d = false -> lt a d = false.

Lemma lt_asym (a b : A) : lt a b = true -> lt b a = false.
Proof.
  intros Hab. destruct (lt b a) eqn:Hba; [ | reflexivity].
  rewrite <- (lt_irrefl a). symmetry. eapply lt_trans; eassumption.
Qed.

Lemma select_min_Permutation (l : list A) :
  forall x m rest,
    select_min comp x l = Ok (m, rest) -> Permutation (x :: l) (m :: rest).
Proof.
  induction l as [ | y l IH]; simpl; intros x m rest H.
  - injection H as <- <-. apply Permutation_refl.
  - bind_inv H. destruct a as [m' rest'].
    bind_inv H. destruct a; injection H as <- <-.
    + apply IH in Ha.
      eapply perm_trans; [apply perm_skip, Ha | apply perm_swap].
    + apply Permutation_refl.
Qed.

Lemma select_min_least (l : list A) :
  forall x m rest,
    select_min comp x l = Ok (m, rest) ->
    Forall (fun y => lt y m = false) (x :: l).
Proof.
  induction l as [ | y l IH]; simpl; intros x m rest H.
  - injection H as <- <-. constructor; [apply lt_irrefl | constructor].
  - bind_inv H. destruct a as [m' rest'].
    bind_inv H. apply comp_lt in Ha0. pose proof (IH _ _ _ Ha) as Hleast.
    destruct a; injection H as <- <-.
    + constructor; [ | exact Hleast].
      apply lt_asym. now symmetry.
    + constructor; [apply lt_irrefl | ].
      eapply Forall_impl; [ | exact Hleast].
      intros z Hz. eapply lt_negtrans; [exact Hz | now symmetry].
Qed.

Lemma partial_sort_Permutation (n : nat) :
  forall l l', partial_sort comp n l = Ok l' -> Permutation l l'.
Proof.
  induction n as [ | n IH]; intros l l' H; simpl in H.
  - injection H as <-. apply Permutation_refl.
  - destruct l as [ | x l].
    + injection H as <-. apply Permutation_refl.
    + bind_inv H. destruct a as [m rest].
      bind_inv H. injection H as <-.
      apply select_min_Permutation in Ha. apply IH in Ha0.
      eapply perm_trans; [exact Ha | now apply perm_skip].
Qed.

Lemma partial_sort_least_first (n : nat) :
  forall l l', partial_sort comp n l = Ok l' -> least_first lt n l'.
Proof.
  induction n as [ | n IH]; intros l l' H; simpl in H.
  - exact I.
  - destruct l as [ | x l].
    + injection H as <-. exact I.
    + bind_inv H. destruct a as [m rest].
      bind_inv H. injection H as <-. simpl. split.
      * pose proof Ha as Hleast. apply select_min_least in Hleast.
        pose proof Ha as Hperm. apply select_min_Permutation in Hperm.
        apply partial_sort_Permutation in Ha0.
        eapply Permutation_Forall in Hleast; [ | exact Hperm].
        inversion Hleast; subst.
        eapply Permutation_Forall; eassumption.
      * eapply IH. eassumption.
Qed.

(** The sort returns whenever the comparator does. *)
Lemma select_min_returns (l : list A) :
  forall x,
    (forall a b, In a (x :: l) -> In b (x :: l) -> exists r, comp a b = Ok r) ->
    exists m rest, select_min comp x l = Ok (m, rest).
Proof.
  induction l as [ | y l IH]; simpl; intros x Hcomp.
  - eauto.
  - destruct (IH y) as (m & rest & E).
    { intros a b Ha Hb. apply Hcomp; simpl in *; tauto. }
    rewrite E. simpl.
    pose proof E as Hperm. apply select_min_Permutation in Hperm.
    destruct (Hcomp m x) as [r Hr].
    { right. change (In m (y :: l)).
      eapply Permutation_in; [apply Permutation_sym, Hperm | now left]. }
    { now left. }
    rewrite Hr. simpl. destruct r; eauto.
Qed.

Lemma partial_sort_returns (n : nat) :
  forall l,
    (forall a b, In a l -> In b l -> exists r, comp a b = Ok r) ->
    exists l', partial_sort comp n l = Ok l'.
Proof.
  induction n as [ | n IH]; intros l Hcomp; simpl.
  - eauto.
  - destruct l as [ | x l]; [eauto | ].
    destruct (select_min_returns Hcomp) as (m & rest & E).
    rewrite E. simpl.
    pose proof E as Hperm. apply select_min_Permutation in Hperm.
    destruct (IH rest) as [l' E'].
    { intros a b Ha Hb.
      apply Hcomp; eapply Permutation_in;
        try (apply Permutation_sym, Hperm); now right. }
    rewrite E'. simpl. eauto.
Qed.

End PartialSort.

(** ** The comparator is a strict order *)

Lemma pair_eqb_spec (l r : N * N) : reflect (l = r) (pair_eqb l r).
Proof.
  destruct l as [a b], r as [a' b']. unfold pair_eqb. simpl.
  destruct (N.eqb_spec a a') as [-> | Ha]; simpl.
  - destruct (N.eqb_spec b b') as [-> | Hb]; constructor; congruence.
  - constructor. congruence.
Qed.

Lemma pair_ltb_lt (l r : N * N) :
  pair_ltb l r = true <->
  (fst l < fst r \/ (fst l = fst r /\ snd l < snd r))%N.
Proof.
  unfold pair_ltb.
  rewrite orb_true_iff, andb_true_iff, negb_true_iff, N.ltb_ge, !N.ltb_lt.
  lia.
Qed.

Lemma pair_ltb_ge (l r : N * N) :
  pair_ltb l r = false <->
  (fst r < fst l \/ (fst l = fst r /\ snd r <= snd l))%N.
Proof.
  rewrite <- not_true_iff_false, pair_ltb_lt. lia.
Qed.

Lemma string_ltb_irrefl (s : string) : (s <? s)%string = false.
Proof.
  unfold String.ltb.
  replace (String.compare s s) with Eq; [reflexivity | ].
  symmetry. now apply String_as_OT.cmp_eq.
Qed.

Lemma string_ltb_lt (s t : string) :
  (s <? t)%string = true <-> String_as_OT.lt s t.
Proof.
  unfold String.ltb. rewrite <- String_as_OT.cmp_lt.
  unfold String_as_OT.cmp. destruct (String.compare s t); split; congruence.
Qed.

Lemma string_ltb_trans (s t u : string) :
  (s <? t)%string = true -> (t <? u)%string = true -> (s <? u)%string = true.
Proof.
  rewrite !string_ltb_lt. apply String_as_OT.lt_trans.
Qed.

Lemma string_ltb_total (s t : string) :
  (s <? t)%string = false -> s <> t -> (t <? s)%string = true.
Proof.
  unfold String.ltb. rewrite (String.compare_antisym t s).
  destruct (String.compare s t) eqn:E; simpl; try congruence.
  apply String.compare_eq_iff in E. congruence.
Qed.

Lemma string_ltb_negtrans (s t u : string) :
  (s <? t)%string = false -> (t <? u)%string = false -> (s <? u)%string = false.
Proof.
  intros Hst Htu. destruct (s <? u)%string eqn:Hsu; [ | reflexivity].
  destruct (String.string_dec s t) as [-> | Nst]; [congruence | ].
  destruct (String.string_dec t u) as [-> | Ntu]; [congruence | ].
  pose proof (string_ltb_total Hst Nst) as Hts.
  pose proof (string_ltb_total Htu Ntu) as Hut.
  pose proof (string_ltb_trans _ _ _ Hut Hts) as Hus.
  pose proof (string_ltb_trans _ _ _ Hsu Hus) as Hss.
  rewrite string_ltb_irrefl in Hss. discriminate.
Qed.

Section VersionThenName.

Lemma version_name_lt_irrefl x : version_name_lt x x = false.
Proof.
  unfold version_name_lt. destruct (pair_eqb_spec (fst x) (fst x)); [ | congruence].
  apply string_ltb_irrefl.
Qed.

Lemma version_name_lt_trans x y z :
  version_name_lt x y = true -> version_name_lt y z = true -> version_name_lt x z = true.
Proof.
  unfold version_name_lt. destruct x as [[a b] nx], y as [[a' b'] ny], z as [[a'' b''] nz].
  simpl.
  destruct (pair_eqb_spec (a, b) (a', b')) as [E1 | N1];
    destruct (pair_eqb_spec (a', b') (a'', b'')) as [E2 | N2];
    destruct (pair_eqb_spec (a, b) (a'', b'')) as [E3 | N3];
    simpl; rewrite ?pair_ltb_lt; simpl;
    try (injection E1 as -> ->); try (injection E2 as -> ->);
    try (injection E3 as -> ->); try congruence; try lia;
    try apply string_ltb_trans.
  all: intros; exfalso; apply N3; f_equal; lia.
Qed.

Lemma version_name_lt_negtrans x y z :
  version_name_lt x y = false -> version_name_lt y z = false -> version_name_lt x z = false.
Proof.
  unfold version_name_lt. destruct x as [[a b] nx], y as [[a' b'] ny], z as [[a'' b''] nz].
  simpl.
  destruct (pair_eqb_spec (a, b) (a', b')) as [E1 | N1];
    destruct (pair_eqb_spec (a', b') (a'', b'')) as [E2 | N2];
    destruct (pair_eqb_spec (a, b) (a'', b'')) as [E3 | N3];
    simpl; rewrite ?pair_ltb_ge; simpl;
    try (injection E1 as -> ->); try (injection E2 as -> ->);
    try (injection E3 as -> ->); try congruence; try lia;
    try apply string_ltb_negtrans.
  all: intros; exfalso;
    first [ apply N1; f_equal; lia | apply N2; f_equal; lia
          | apply N3; f_equal; lia ].
Qed.

Lemma version_name_lt_total x y :
  version_name_lt x y = false -> snd x <> snd y -> version_name_lt y x = true.
Proof.
  unfold version_name_lt. destruct x as [[a b] nx], y as [[a' b'] ny]. simpl.
  destruct (pair_eqb_spec (a, b) (a', b')) as [E1 | N1];
    destruct (pair_eqb_spec (a', b') (a, b)) as [E2 | N2];
    simpl; try congruence.
  - apply string_ltb_total.
  - rewrite pair_ltb_ge, pair_ltb_lt. simpl. intros H _.
    assert (a <> a' \/ b <> b') by (destruct (N.eq_dec a a'); [right | left]; congruence).
    lia.
Qed.

End VersionThenName.

Ltac split_key a b d :=
  destruct a, b, d; simpl; try (intros; congruence).

Section ComparatorOrder.

Variable c : cache.

Lemma fastabi_precedes_irrefl x : fastabi_precedes c x x = false.
Proof.
  unfold fastabi_precedes. rewrite !Bool.eqb_reflx. simpl.
  apply (version_name_lt_irrefl (interface_info.version (snd x), fst x)).
Qed.

Lemma fastabi_precedes_trans x y z :
  fastabi_precedes c x y = true -> fastabi_precedes c y z = true ->
  fastabi_precedes c x z = true.
Proof.
  destruct x as [nx [tx ix dx ox bx ex fx vx gx]],
           y as [ny [ty iy dy oy by_ ey fy vy gy]],
           z as [nz [tz iz dz oz bz ez fz vz gz]].
  unfold fastabi_precedes; simpl.
  set (nx' := always_enabled_flag c tx); set (ny' := always_enabled_flag c ty);
    set (nz' := always_enabled_flag c tz); clearbody nx' ny' nz'.
  split_key bx by_ bz; split_key ix iy iz; split_key ox oy oz;
    split_key ex ey ez; split_key nx' ny' nz';
    apply (version_name_lt_trans (vx, nx) (vy, ny) (vz, nz)).
Qed.

Lemma fastabi_precedes_negtrans x y z :
  fastabi_precedes c x y = false -> fastabi_precedes c y z = false ->
  fastabi_precedes c x z = false.
Proof.
  destruct x as [nx [tx ix dx ox bx ex fx vx gx]],
           y as [ny [ty iy dy oy by_ ey fy vy gy]],
           z as [nz [tz iz dz oz bz ez fz vz gz]].
  unfold fastabi_precedes; simpl.
  set (nx' := always_enabled_flag c tx); set (ny' := always_enabled_flag c ty);
    set (nz' := always_enabled_flag c tz); clearbody nx' ny' nz'.
  split_key bx by_ bz; split_key ix iy iz; split_key ox oy oz;
    split_key ex ey ez; split_key nx' ny' nz';
    apply (version_name_lt_negtrans (vx, nx) (vy, ny) (vz, nz)).
Qed.

Lemma fastabi_precedes_total x y :
  fastabi_precedes c x y = false -> fst x <> fst y ->
  fastabi_precedes c y x = true.
Proof.
  destruct x as [nx [tx ix dx ox bx ex fx vx gx]],
           y as [ny [ty iy dy oy by_ ey fy vy gy]].
  unfold fastabi_precedes; simpl.
  set (nx' := always_enabled_flag c tx); set (ny' := always_enabled_flag c ty);
    clearbody nx' ny'.
  destruct bx, by_; simpl; try (intros; congruence);
    destruct ix, iy; simpl; try (intros; congruence);
    destruct ox, oy; simpl; try (intros; congruence);
    destruct ex, ey; simpl; try (intros; congruence);
    destruct nx', ny'; simpl; try (intros; congruence);
    apply (version_name_lt_total (vx, nx) (vy, ny)).
Qed.

(** When the comparator returns, it returns [fastabi_precedes]. *)
Lemma fastabi_less_precedes x y r :
  fastabi_less c x y = Ok r -> r = fastabi_precedes c x y.
Proof.
  unfold fastabi_less, fastabi_precedes, always_enabled_flag.
  repeat match goal with
         | |- context [if ?b then _ else _] =>
             destruct b; [intros [= <-]; reflexivity | ]
         end.
  destruct (is_always_enabled c (interface_info.type (snd x))) as [en | e];
    [simpl | discriminate].
  destruct (is_always_enabled c (interface_info.type (snd y))) as [en' | e];
    [simpl | discriminate].
  repeat match goal with
         | |- context [if ?b then _ else _] =>
             destruct b; [intros [= <-]; reflexivity | ]
         end.
  intros [= <-]. reflexivity.
Qed.

Lemma fastabi_less_returns x y :
  (exists b, is_always_enabled c (interface_info.type (snd x)) = Ok b) ->
  (exists b, is_always_enabled c (interface_info.type (snd y)) = Ok b) ->
  exists r, fastabi_less c x y = Ok r.
Proof.
  intros [b Hx] [b' Hy]. unfold fastabi_less. rewrite Hx, Hy. simpl.
  repeat match goal with
         | |- context [if ?b then _ else _] => destruct b; [eauto | ]
         end.
  eauto.
Qed.

End ComparatorOrder.

(** ** The result vector *)

Section ResultVector.

Implicit Types (interfaces : get_interfaces_t) (name : string)
               (info : interface_info.t).

Lemma find_None interfaces name :
  find interfaces name = None <-> ~ In name (List.map fst interfaces).
Proof.
  induction interfaces as [ | [k v] l IH]; simpl.
  - tauto.
  - destruct (String.eqb_spec k name) as [-> | Hne].
    + split; [discriminate | tauto].
    + rewrite IH. tauto.
Qed.

Lemma find_app interfaces interfaces' name :
  find (interfaces ++ interfaces')%list name =
    match find interfaces name with
    | Some info => Some info
    | None => find interfaces' name
    end.
Proof.
  induction interfaces as [ | [k v] l IH]; simpl; [reflexivity | ].
  destruct (k =? name)%string; [reflexivity | exact IH].
Qed.

Lemma find_In interfaces name info :
  find interfaces name = Some info -> In (name, info) interfaces.
Proof.
  induction interfaces as [ | [k v] l IH]; simpl; [discriminate | ].
  destruct (String.eqb_spec k name) as [-> | Hne].
  - intros [= ->]. now left.
  - intros H. right. now apply IH.
Qed.

Lemma keys_assign interfaces name info :
  List.map fst (assign interfaces name info) = List.map fst interfaces.
Proof.
  induction interfaces as [ | [k v] l IH]; simpl; [reflexivity | ].
  destruct (k =? name)%string; simpl; [reflexivity | now rewrite IH].
Qed.

Lemma find_assign_same interfaces name info info' :
  find interfaces name = Some info' ->
  find (assign interfaces name info) name = Some info.
Proof.
  induction interfaces as [ | [k v] l IH]; simpl; [discriminate | ].
  destruct (String.eqb_spec k name) as [-> | Hne]; simpl.
  - now rewrite String.eqb_refl.
  - destruct (String.eqb_spec k name); [congruence | exact IH].
Qed.

Lemma find_assign_other interfaces name name' info :
  name' <> name ->
  find (assign interfaces name info) name' = find interfaces name'.
Proof.
  intros Hne. induction interfaces as [ | [k v] l IH]; simpl; [reflexivity | ].
  destruct (String.eqb_spec k name) as [-> | Hk]; simpl.
  - destruct (String.eqb_spec name name'); [congruence | reflexivity].
  - now rewrite IH.
Qed.

Lemma In_assign interfaces name info entry :
  In entry (assign interfaces name info) ->
  In entry interfaces \/ entry = (name, info).
Proof.
  induction interfaces as [ | [k v] l IH]; simpl; [tauto | ].
  destruct (String.eqb_spec k name) as [-> | Hk]; simpl.
  - intros [<- | H]; auto.
  - intros [<- | H]; auto. destruct (IH H); auto.
Qed.

Lemma assign_app interfaces interfaces' name info :
  find interfaces name = None ->
  assign (interfaces ++ interfaces')%list name info =
    (interfaces ++ assign interfaces' name info)%list.
Proof.
  induction interfaces as [ | [k v] l IH]; simpl; [reflexivity | ].
  destruct (k =? name)%string; [discriminate | ].
  intros H. now rewrite IH.
Qed.

(** After [insert_or_assign] the name maps to the new entry, and no
    other name is affected. *)
Lemma find_insert_or_assign_same interfaces name info :
  find (insert_or_assign interfaces name info) name = Some info.
Proof.
  unfold insert_or_assign. destruct (find interfaces name) eqn:E.
  - eapply find_assign_same. eassumption.
  - rewrite find_app, E. simpl. now rewrite String.eqb_refl.
Qed.

Lemma find_insert_or_assign_other interfaces name name' info :
  name' <> name ->
  find (insert_or_assign interfaces name info) name' = find interfaces name'.
Proof.
  intros Hne. unfold insert_or_assign. destruct (find interfaces name) eqn:E.
  - now apply find_assign_other.
  - rewrite find_app. destruct (find interfaces name'); [reflexivity | ].
    simpl. destruct (String.eqb_spec name name'); [congruence | reflexivity].
Qed.

Lemma keys_insert_or_assign interfaces name info :
  List.map fst (insert_or_assign interfaces name info) =
    match find interfaces name with
    | Some _ => List.map fst interfaces
    | None => (List.map fst interfaces ++ [name])%list
    end.
Proof.
  unfold insert_or_assign. destruct (find interfaces name).
  - apply keys_assign.
  - now rewrite List.map_app.
Qed.

Lemma In_insert_or_assign interfaces name info entry :
  In entry (insert_or_assign interfaces name info) ->
  In entry interfaces \/ entry = (name, info).
Proof.
  unfold insert_or_assign. destruct (find interfaces name).
  - apply In_assign.
  - rewrite List.in_app_iff. simpl. intuition.
Qed.

Lemma NoDup_insert_or_assign interfaces name info :
  NoDup (List.map fst interfaces) ->
  NoDup (List.map fst (insert_or_assign interfaces name info)).
Proof.
  intros Hnd. rewrite keys_insert_or_assign.
  destruct (find interfaces name) eqn:E; [exact Hnd | ].
  apply find_None in E.
  apply (Permutation_NoDup (l := name :: List.map fst interfaces)).
  - apply Permutation_cons_append.
  - now constructor.
Qed.

Lemma insert_or_assign_app interfaces interfaces' name info :
  find interfaces name = None ->
  insert_or_assign (interfaces ++ interfaces')%list name info =
    (interfaces ++ insert_or_assign interfaces' name info)%list.
Proof.
  intros Hnone. unfold insert_or_assign. rewrite find_app, Hnone.
  destruct (find interfaces' name).
  - now apply assign_app.
  - now rewrite List.app_assoc.
Qed.

End ResultVector.

(** ** Loops *)

Lemma for_each_invariant {A S : Type} (P : S -> S -> Prop)
    (body : A -> S -> res S) (range : list A) :
  (forall s, P s s) ->
  (forall s1 s2 s3, P s1 s2 -> P s2 s3 -> P s1 s3) ->
  (forall a s s', In a range -> body a s = Ok s' -> P s s') ->
  forall s s', for_each body range s = Ok s' -> P s s'.
Proof.
  intros Hrefl Htrans. induction range as [ | a range IH]; simpl; intros Hbody s s' H.
  - injection H as <-. apply Hrefl.
  - bind_inv H. eapply Htrans.
    + eapply Hbody; [now left | eassumption].
    + eapply IH; [ | eassumption].
      intros a' t t' Ha' Hb. apply (Hbody a' t t'); [now right | exact Hb].
Qed.

(** ** The interface closure *)

Section Closure.

Variable c : cache.

(** What one iteration of the loop does: it either leaves the result
    alone, or resolves the target, walks below it and then stores the
    entry. *)
Lemma visit_inv recurse w defaulted overridable base stack impl result result' :
  visit c recurse w defaulted overridable base stack impl result = Ok result' ->
  let name := write_temp c w (Interface impl) in
  let info_defaulted :=
    negb base && (defaulted || has_attribute c impl "Windows.Foundation.Metadata"
                                "DefaultAttribute") in
  (already_captured result name info_defaulted = true /\ result' = result) \/
  (already_captured result name info_defaulted = false /\
   exists info_type info_stack guard result1 info,
     interface_target c w stack (Interface impl)
       = Ok (info_type, info_stack, guard) /\
     recurse guard result info_defaulted
             (overridable || has_attribute c impl "Windows.Foundation.Metadata"
                                "OverridableAttribute") base
             info_stack (InterfaceImpl c info_type) = Ok result1 /\
     result' = insert_or_assign result1 name info /\
     interface_info.type info = info_type /\
     interface_info.is_default info = has_attribute c impl "Windows.Foundation.Metadata"
                                "DefaultAttribute" /\
     interface_info.defaulted info = info_defaulted /\
     interface_info.overridable info
       = (overridable || has_attribute c impl "Windows.Foundation.Metadata"
                                "OverridableAttribute") /\
     interface_info.base info = base /\
     interface_info.fastabi info = false).
Proof.
  intros H. cbv zeta. unfold visit in H.
  destruct (already_captured result _ _) eqn:Hcap.
  - left. injection H as <-. auto.
  - right. split; [reflexivity | ].
    bind_inv H. destruct a as [[info_type info_stack] guard].
    bind_inv H. bind_inv H. injection H as <-.
    do 5 eexists. repeat split; try eassumption; reflexivity.
Qed.

(** An induction principle for properties relating the result before
    and after a call. *)
Lemma get_interfaces_impl_invariant
    (P : bool -> get_interfaces_t -> get_interfaces_t -> Prop) :
  (forall base r, P base r r) ->
  (forall base r1 r2 r3, P base r1 r2 -> P base r2 r3 -> P base r1 r3) ->
  (forall base r r1 name info,
      already_captured r name (interface_info.defaulted info) = false ->
      interface_info.base info = base ->
      (interface_info.defaulted info = true -> base = false) ->
      interface_info.fastabi info = false ->
      P base r r1 -> P base r (insert_or_assign r1 name info)) ->
  forall fuel w result defaulted overridable base stack children result',
    get_interfaces_impl c fuel w result defaulted overridable base stack
                        children = Ok result' ->
    P base result result'.
Proof.
  intros Hrefl Htrans Hstep.
  induction fuel as [ | fuel IH]; simpl; [discriminate | ].
  intros w result defaulted overridable base stack children result' H.
  revert result result' H.
  apply for_each_invariant; [apply Hrefl | apply Htrans | ].
  intros impl r r' _ Hvisit. apply visit_inv in Hvisit.
  destruct Hvisit as [[_ ->] | (Hcap & info_type & info_stack & guard & r1 &
                                 info & _ & Hrec & -> & _ & _ & Hd & _ & Hb & Hf)].
  - apply Hrefl.
  - apply Hstep; try assumption.
    + now rewrite Hd.
    + rewrite Hd. destruct base; [discriminate | reflexivity].
    + eapply IH. eassumption.
Qed.

(** Keys stay distinct. *)
Lemma get_interfaces_impl_NoDup fuel w result defaulted overridable base
    stack children result' :
  get_interfaces_impl c fuel w result defaulted overridable base stack
                      children = Ok result' ->
  NoDup (List.map fst result) -> NoDup (List.map fst result').
Proof.
  apply (get_interfaces_impl_invariant
           (fun _ r r' => NoDup (List.map fst r) -> NoDup (List.map fst r'))).
  - auto.
  - auto.
  - intros _ r r1 name info _ _ _ _ H Hr.
    apply NoDup_insert_or_assign. auto.
Qed.

(** An entry that is defaulted when a call starts is still there,
    unchanged, when the call returns. *)
Lemma get_interfaces_impl_keeps_defaulted fuel w result defaulted overridable
    base stack children result' :
  get_interfaces_impl c fuel w result defaulted overridable base stack
                      children = Ok result' ->
  forall name info,
    find result name = Some info ->
    interface_info.defaulted info = true ->
    find result' name = Some info.
Proof.
  apply (get_interfaces_impl_invariant
           (fun _ r r' =>
              forall name info,
                find r name = Some info ->
                interface_info.defaulted info = true ->
                find r' name = Some info)).
  - auto.
  - intros _ r1 r2 r3 H12 H23 name info Hfind Hd. eauto.
  - intros _ r r1 name info Hcap _ _ _ H name' info' Hfind Hd.
    destruct (String.string_dec name' name) as [-> | Hne].
    + unfold already_captured in Hcap. rewrite Hfind, Hd in Hcap. discriminate.
    + rewrite find_insert_or_assign_other by assumption. auto.
Qed.

(** Every entry has [fastabi] clear after the walk. *)
Lemma get_interfaces_impl_fastabi fuel w result defaulted overridable base
    stack children result' :
  get_interfaces_impl c fuel w result defaulted overridable base stack
                      children = Ok result' ->
  Forall (fun entry => interface_info.fastabi (snd entry) = false) result ->
  Forall (fun entry => interface_info.fastabi (snd entry) = false) result'.
Proof.
  apply (get_interfaces_impl_invariant
           (fun _ r r' =>
              Forall (fun entry => interface_info.fastabi (snd entry) = false) r ->
              Forall (fun entry => interface_info.fastabi (snd entry) = false) r')).
  - auto.
  - auto.
  - intros _ r r1 name info _ _ _ Hf H Hr.
    rewrite Forall_forall. intros entry Hin.
    apply In_insert_or_assign in Hin. destruct Hin as [Hin | ->].
    + specialize (H Hr). rewrite Forall_forall in H. auto.
    + exact Hf.
Qed.

(** Every entry a call leaves behind was there before or carries the
    call's [base] flag, and is defaulted only outside a base walk. *)
Lemma get_interfaces_impl_base_flag fuel w result defaulted overridable base
    stack children result' :
  get_interfaces_impl c fuel w result defaulted overridable base stack
                      children = Ok result' ->
  forall entry, In entry result' ->
    In entry result \/
    (interface_info.base (snd entry) = base /\
     (interface_info.defaulted (snd entry) = true -> base = false)).
Proof.
  apply (get_interfaces_impl_invariant
           (fun base r r' =>
              forall entry, In entry r' ->
                In entry r \/
                (interface_info.base (snd entry) = base /\
                 (interface_info.defaulted (snd entry) = true -> base = false)))).
  - auto.
  - intros b r1 r2 r3 H12 H23 entry Hin.
    destruct (H23 entry Hin) as [Hin2 | Hnew]; auto.
  - intros b r r1 name info _ Hb Hd _ H entry Hin.
    apply In_insert_or_assign in Hin. destruct Hin as [Hin | ->]; auto.
Qed.

(** A walk with [base] set only appends. *)
Lemma get_interfaces_impl_appends_when_base fuel w result defaulted
    overridable base stack children result' :
  get_interfaces_impl c fuel w result defaulted overridable base stack
                      children = Ok result' ->
  base = true ->
  exists inherited,
    result' = (result ++ inherited)%list /\
    Forall (fun entry => interface_info.base (snd entry) = true /\
                         interface_info.defaulted (snd entry) = false)
           inherited.
Proof.
  apply (get_interfaces_impl_invariant
           (fun base r r' =>
              base = true ->
              exists inherited,
                r' = (r ++ inherited)%list /\
                Forall (fun entry =>
                          interface_info.base (snd entry) = true /\
                          interface_info.defaulted (snd entry) = false)
                       inherited)).
  - intros _ r _. exists []. split; [now rewrite List.app_nil_r | constructor].
  - intros b r1 r2 r3 H12 H23 Hb.
    destruct (H12 Hb) as (i1 & -> & F1). destruct (H23 Hb) as (i2 & -> & F2).
    exists (i1 ++ i2)%list. split; [now rewrite List.app_assoc | ].
    apply Forall_app. auto.
  - intros b r r1 name info Hcap Hbase Hd _ H12 Hb.
    destruct (H12 Hb) as (i1 & -> & F1).
    assert (Hnd : interface_info.defaulted info = false).
    { destruct (interface_info.defaulted info); [ | reflexivity].
      rewrite (Hd eq_refl) in Hb. discriminate. }
    assert (Hnone : find r name = None).
    { unfold already_captured in Hcap. rewrite Hnd in Hcap.
      destruct (find r name); [ | reflexivity].
      rewrite orb_true_r in Hcap. discriminate. }
    exists (insert_or_assign i1 name info). split.
    + now apply insert_or_assign_app.
    + rewrite Forall_forall in *. intros entry Hin.
      apply In_insert_or_assign in Hin. destruct Hin as [Hin | ->]; auto.
      simpl. split; congruence.
Qed.

End Closure.

(** ** The whole walk and the ordering *)

Section Resolution.

Variable c : cache.
Variable settings : settings_type.

Lemma get_interfaces_walk_inv fuel w type result :
  get_interfaces_walk c fuel w type = Ok result ->
  exists own bases,
    get_interfaces_impl c fuel (walk_writer w) [] false false false []
                        (InterfaceImpl c type) = Ok own /\
    get_bases c fuel type = Ok bases /\
    for_each
      (fun base result =>
         get_interfaces_impl c fuel (walk_writer w) result false false true []
                             (InterfaceImpl c base))
      bases own = Ok result.
Proof.
  unfold get_interfaces_walk. intros H.
  bind_inv H. bind_inv H. eauto.
Qed.

Lemma get_interfaces_walk_NoDup fuel w type result :
  get_interfaces_walk c fuel w type = Ok result ->
  NoDup (List.map fst result).
Proof.
  intros H. apply get_interfaces_walk_inv in H.
  destruct H as (own & bases & Hown & _ & Hbases).
  apply get_interfaces_impl_NoDup in Hown; [ | constructor].
  revert Hbases Hown.
  apply (for_each_invariant
           (fun r r' => NoDup (List.map fst r) -> NoDup (List.map fst r')));
    auto.
  intros base r r' _. apply get_interfaces_impl_NoDup.
Qed.

Lemma get_interfaces_walk_fastabi fuel w type result :
  get_interfaces_walk c fuel w type = Ok result ->
  Forall (fun entry => interface_info.fastabi (snd entry) = false) result.
Proof.
  intros H. apply get_interfaces_walk_inv in H.
  destruct H as (own & bases & Hown & _ & Hbases).
  apply get_interfaces_impl_fastabi in Hown; [ | constructor].
  revert Hbases Hown.
  apply (for_each_invariant
           (fun r r' =>
              Forall (fun entry => interface_info.fastabi (snd entry) = false) r ->
              Forall (fun entry => interface_info.fastabi (snd entry) = false) r'));
    auto.
  intros base r r' _. apply get_interfaces_impl_fastabi.
Qed.

Lemma keys_for_each_n n (l : get_interfaces_t) :
  List.map fst (for_each_n n set_fastabi l) = List.map fst l.
Proof.
  revert l. induction n as [ | n IH]; intros [ | x l]; simpl; try reflexivity.
  now rewrite IH.
Qed.

Lemma fastabi_order_inv result ordered :
  fastabi_order c result = Ok ordered ->
  exists sorted,
    partial_sort (fastabi_less c) (count_if fastabi_candidate result) result
      = Ok sorted /\
    ordered = for_each_n (count_if fastabi_candidate result) set_fastabi sorted.
Proof.
  unfold fastabi_order. intros H. bind_inv H. injection H as <-. eauto.
Qed.

Lemma partial_sort_fastabi_Permutation n result sorted :
  partial_sort (fastabi_less c) n result = Ok sorted ->
  Permutation result sorted.
Proof.
  apply partial_sort_Permutation.
Qed.

(** C8.  The names in the result of [get_interfaces] are pairwise
    distinct: [insert_or_assign] looks the name up first, writes over
    the entry found, and appends only a name that is not there yet. *)
Theorem resolved_names_distinct :
  (forall interfaces name info,
      (forall existing,
          find interfaces name = Some existing ->
          insert_or_assign interfaces name info = assign interfaces name info /\
          List.map fst (insert_or_assign interfaces name info)
            = List.map fst interfaces) /\
      (find interfaces name = None ->
       insert_or_assign interfaces name info
         = (interfaces ++ [(name, info)])%list)) /\
  (forall fuel w type result,
      get_interfaces c settings fuel w type = Ok result ->
      NoDup (List.map fst result)).
Proof.
  split.
  - intros interfaces name info. split.
    + intros existing Hfind. split.
      * unfold insert_or_assign. now rewrite Hfind.
      * rewrite keys_insert_or_assign. now rewrite Hfind.
    + intros Hfind. unfold insert_or_assign. now rewrite Hfind.
  - intros fuel w type result H. unfold get_interfaces in H.
    bind_inv H. apply get_interfaces_walk_NoDup in Ha.
    destruct (negb (has_fastabi c settings type)).
    + now injection H as <-.
    + apply fastabi_order_inv in H. destruct H as (sorted & Hsort & ->).
      rewrite keys_for_each_n.
      apply partial_sort_fastabi_Permutation in Hsort.
      eapply Permutation_NoDup; [ | exact Ha].
      now apply Permutation_map.
Qed.

End Resolution.

Lemma resolved_names_distinct_witness :
  exists result,
    get_interfaces (table_cache widget_table) default_settings 2 fresh_writer
                   Widget = Ok result /\
    List.map fst result = ["App.IWidget"; "App.IControl"] /\
    NoDup (List.map fst result).
Proof.
  eexists. split; [reflexivity | ]. split; [reflexivity | ].
  apply (proj2 (resolved_names_distinct (table_cache widget_table)
                  default_settings) 2 fresh_writer Widget).
  reflexivity.
Defined.

(** ** Merging rediscovered interfaces *)

Section Merge.

Variable c : cache.

(** C2.  An iteration that finds the name already in the result, with
    the entry found defaulted or the new discovery not defaulted,
    returns the result as it is without making the nested call; when
    the entry found is not defaulted and the new discovery is, the
    entry is computed again and written over, defaulted.  Hence an
    entry that is defaulted when a call of [get_interfaces_impl]
    starts is the same entry when the call returns. *)
Theorem merge_rule :
  (forall recurse w defaulted overridable base stack impl result found,
      let name := write_temp c w (Interface impl) in
      let info_defaulted :=
        negb base &&
        (defaulted ||
         has_attribute c impl "Windows.Foundation.Metadata" "DefaultAttribute") in
      find result name = Some found ->
      interface_info.defaulted found = true \/ info_defaulted = false ->
      visit c recurse w defaulted overridable base stack impl result
        = Ok result) /\
  (forall recurse w defaulted overridable base stack impl result found result',
      let name := write_temp c w (Interface impl) in
      let info_defaulted :=
        negb base &&
        (defaulted ||
         has_attribute c impl "Windows.Foundation.Metadata" "DefaultAttribute") in
      find result name = Some found ->
      interface_info.defaulted found = false ->
      info_defaulted = true ->
      visit c recurse w defaulted overridable base stack impl result
        = Ok result' ->
      exists info_type info_stack guard result1 info,
        interface_target c w stack (Interface impl)
          = Ok (info_type, info_stack, guard) /\
        recurse guard result true
                (overridable ||
                 has_attribute c impl "Windows.Foundation.Metadata"
                               "OverridableAttribute")
                base info_stack (InterfaceImpl c info_type) = Ok result1 /\
        result' = insert_or_assign result1 name info /\
        find result' name = Some info /\
        interface_info.defaulted info = true) /\
  (forall fuel w result defaulted overridable base stack children result',
      get_interfaces_impl c fuel w result defaulted overridable base stack
                          children = Ok result' ->
      forall name info,
        find result name = Some info ->
        interface_info.defaulted info = true ->
        find result' name = Some info).
Proof.
  split; [ | split].
  - intros recurse w defaulted overridable base stack impl result found
           name info_defaulted Hfind Hskip.
    unfold visit. fold name. fold info_defaulted.
    unfold already_captured. rewrite Hfind.
    destruct Hskip as [-> | ->]; simpl; [reflexivity | ].
    now rewrite orb_true_r.
  - intros recurse w defaulted overridable base stack impl result found result'
           name info_defaulted Hfind Hfound Hnew Hvisit.
    apply visit_inv in Hvisit. fold name in Hvisit. fold info_defaulted in Hvisit.
    destruct Hvisit as [[Hcap _] | (_ & info_type & info_stack & guard & r1 &
                                    info & Ht & Hrec & -> & _ & _ & Hd & _)].
    + unfold already_captured in Hcap. rewrite Hfind, Hfound, Hnew in Hcap.
      discriminate.
    + exists info_type, info_stack, guard, r1, info.
      rewrite Hnew in Hrec, Hd.
      repeat split; try assumption.
      apply find_insert_or_assign_same.
  - apply get_interfaces_impl_keeps_defaulted.
Qed.

End Merge.

Lemma merge_rule_witness :
  let result :=
    [("App.IWidget",
      {| interface_info.type := IWidget;
         interface_info.is_default := true;
         interface_info.defaulted := true;
         interface_info.overridable := false;
         interface_info.base := false;
         interface_info.exclusive := false;
         interface_info.fastabi := false;
         interface_info.version := (0%N, 0%N);
         interface_info.generic_param_stack := [] |})] in
  get_interfaces_impl (table_cache widget_table) 2 fresh_writer result
    false false false []
    (InterfaceImpl (table_cache widget_table) Gadget) = Ok result /\
  exists info,
    find result "App.IWidget" = Some info /\
    interface_info.defaulted info = true.
Proof.
  intros result. split; [reflexivity | ].
  eexists. split.
  - apply (proj2 (proj2 (merge_rule (table_cache widget_table)))
             2 fresh_writer result false false false []
             (InterfaceImpl (table_cache widget_table) Gadget) result
             eq_refl "App.IWidget" _ eq_refl eq_refl).
  - reflexivity.
Defined.

(** ** Own interfaces before inherited ones *)

Section OwnBeforeBase.

Variable c : cache.

Lemma base_walks_append fuel w bases :
  forall result result',
    for_each
      (fun base result =>
         get_interfaces_impl c fuel w result false false true []
                             (InterfaceImpl c base))
      bases result = Ok result' ->
    exists inherited,
      result' = (result ++ inherited)%list /\
      Forall (fun entry => interface_info.base (snd entry) = true /\
                           interface_info.defaulted (snd entry) = false)
             inherited.
Proof.
  apply for_each_invariant.
  - intros r. exists []. split; [now rewrite List.app_nil_r | constructor].
  - intros r1 r2 r3 (i1 & -> & F1) (i2 & -> & F2).
    exists (i1 ++ i2)%list. split; [now rewrite List.app_assoc | ].
    apply Forall_app. auto.
  - intros base r r' _ H.
    eapply get_interfaces_impl_appends_when_base; [exact H | reflexivity].
Qed.

(** The whole walk is the walk over the type's own edges followed by
    what the base classes append. *)
Lemma get_interfaces_walk_split fuel w type result :
  get_interfaces_walk c fuel w type = Ok result ->
  exists own inherited,
    get_interfaces_impl c fuel (walk_writer w) [] false false false []
                        (InterfaceImpl c type) = Ok own /\
    result = (own ++ inherited)%list /\
    Forall (fun entry => interface_info.base (snd entry) = false) own /\
    Forall (fun entry => interface_info.base (snd entry) = true /\
                         interface_info.defaulted (snd entry) = false)
           inherited /\
    (forall name info,
        find own name = Some info -> find result name = Some info).
Proof.
  intros H. apply get_interfaces_walk_inv in H.
  destruct H as (own & bases & Hown & _ & Hbases).
  apply base_walks_append in Hbases. destruct Hbases as (inherited & -> & F).
  exists own, inherited. repeat split; try assumption.
  - rewrite Forall_forall. intros entry Hin.
    destruct (@get_interfaces_impl_base_flag c _ _ _ _ _ _ _ _ _ Hown
                                             entry Hin) as [[] | [Hb _]].
    exact Hb.
  - intros name info Hfind. rewrite find_app, Hfind. reflexivity.
Qed.

(** C5.  A walk made with [base] set leaves every entry that is
    already in the result where it is and as it is: it only appends
    entries, all of them flagged [base] and not defaulted.  So the
    result of the whole walk is the result of the walk over the
    type's own edges (none of them flagged [base]) followed by what
    the base classes add, and every name found after the own walk is
    found with the same entry at the end. *)
Theorem base_walk_keeps_own_entries :
  (forall fuel w result defaulted overridable stack children result',
      get_interfaces_impl c fuel w result defaulted overridable true stack
                          children = Ok result' ->
      exists inherited,
        result' = (result ++ inherited)%list /\
        Forall (fun entry => interface_info.base (snd entry) = true /\
                             interface_info.defaulted (snd entry) = false)
               inherited) /\
  (forall fuel w type result,
      get_interfaces_walk c fuel w type = Ok result ->
      exists own inherited,
        get_interfaces_impl c fuel (walk_writer w) [] false false false []
                            (InterfaceImpl c type) = Ok own /\
        result = (own ++ inherited)%list /\
        Forall (fun entry => interface_info.base (snd entry) = false) own /\
        Forall (fun entry => interface_info.base (snd entry) = true /\
                             interface_info.defaulted (snd entry) = false)
               inherited /\
        (forall name info,
            find own name = Some info -> find result name = Some info)).
Proof.
  split.
  - intros fuel w result defaulted overridable stack children result' H.
    eapply get_interfaces_impl_appends_when_base; [exact H | reflexivity].
  - intros fuel w type result. apply get_interfaces_walk_split.
Qed.

End OwnBeforeBase.

Lemma base_walk_keeps_own_entries_witness :
  exists own inherited,
    get_interfaces_impl (table_cache widget_table) 2 (walk_writer fresh_writer)
      [] false false false []
      (InterfaceImpl (table_cache widget_table) Widget) = Ok own /\
    get_interfaces_walk (table_cache widget_table) 2 fresh_writer Widget
      = Ok (own ++ inherited)%list /\
    List.map fst own = ["App.IWidget"] /\
    List.map fst inherited = ["App.IControl"].
Proof.
  destruct (proj2 (base_walk_keeps_own_entries (table_cache widget_table))
              2 fresh_writer Widget _ eq_refl)
    as (own & inherited & Hown & Hsplit & _).
  exists own, inherited.
  assert (Eown : own = firstn 1 (own ++ inherited)%list).
  { injection Hown as <-. reflexivity. }
  rewrite <- Hsplit in Eown. simpl in Eown.
  split; [exact Hown | ]. split; [now rewrite <- Hsplit | ].
  split; [now rewrite Eown | ].
  apply (f_equal (List.map fst)) in Hsplit.
  rewrite List.map_app, Eown in Hsplit. simpl in Hsplit.
  now injection Hsplit as <-.
Defined.

(** ** The defaulted flag *)

Section Defaulted.

Variable c : cache.

Lemma get_interfaces_impl_S fuel w r defaulted overridable base stack children :
  get_interfaces_impl c (S fuel) w r defaulted overridable base stack children =
    for_each (visit c (get_interfaces_impl c fuel) w defaulted overridable
                    base stack) children r.
Proof. reflexivity. Qed.

(** An edge marked default that a call outside the base walk goes
    over has a defaulted entry when the call returns. *)
Lemma default_edge_defaulted fuel w result defaulted overridable stack
    children result' impl :
  get_interfaces_impl c fuel w result defaulted overridable false stack
                      children = Ok result' ->
  In impl children ->
  has_attribute c impl "Windows.Foundation.Metadata" "DefaultAttribute" = true ->
  exists info,
    find result' (write_temp c w (Interface impl)) = Some info /\
    interface_info.defaulted info = true.
Proof.
  destruct fuel as [ | fuel]; simpl; [discriminate | ].
  revert result. induction children as [ | a rest IH]; intros result H Hin Hdef.
  - destruct Hin.
  - simpl in H. bind_inv H. destruct Hin as [-> | Hin].
    + assert (Hnow : exists info,
                 find a0 (write_temp c w (Interface impl)) = Some info /\
                 interface_info.defaulted info = true).
      { apply visit_inv in Ha. rewrite Hdef, orb_true_r in Ha. simpl in Ha.
        destruct Ha as [[Hcap ->] | (_ & info_type & info_stack & guard & r1 &
                                     info & _ & _ & -> & _ & _ & Hd & _)].
        - unfold already_captured in Hcap.
          destruct (find result _) as [found | ]; [ | discriminate].
          exists found. split; [reflexivity | ].
          now rewrite orb_false_r in Hcap.
        - exists info. split; [apply find_insert_or_assign_same | exact Hd]. }
      destruct Hnow as (info & Hfind & Hd). exists info. split; [ | exact Hd].
      eapply (@get_interfaces_impl_keeps_defaulted c (S fuel)); simpl; eassumption.
    + eapply IH; eassumption.
Qed.

Lemma interface_target_resolves w stack type type_def :
  resolves_to c type type_def ->
  interface_target c w stack type = Ok (type_def, stack, w).
Proof.
  intros [-> | (r & -> & H)]; simpl; [reflexivity | now rewrite H].
Qed.

(** The iteration for an interface that is new to the result and
    requires nothing. *)
Lemma leaf_visit recurse w defaulted overridable base stack impl result
    type_def version :
  find result (write_temp c w (Interface impl)) = None ->
  resolves_to c (Interface impl) type_def ->
  get_version c type_def = Ok version ->
  recurse w result
          (negb base &&
           (defaulted ||
            has_attribute c impl "Windows.Foundation.Metadata"
                          "DefaultAttribute"))
          (overridable ||
           has_attribute c impl "Windows.Foundation.Metadata"
                         "OverridableAttribute")
          base stack (InterfaceImpl c type_def) = Ok result ->
  visit c recurse w defaulted overridable base stack impl result =
    Ok (result ++
        [(write_temp c w (Interface impl),
          {| interface_info.type := type_def;
             interface_info.is_default :=
               has_attribute c impl "Windows.Foundation.Metadata"
                             "DefaultAttribute";
             interface_info.defaulted :=
               negb base &&
               (defaulted ||
                has_attribute c impl "Windows.Foundation.Metadata"
                              "DefaultAttribute");
             interface_info.overridable :=
               overridable ||
               has_attribute c impl "Windows.Foundation.Metadata"
                             "OverridableAttribute";
             interface_info.base := base;
             interface_info.exclusive :=
               has_attribute c type_def "Windows.Foundation.Metadata"
                             "ExclusiveToAttribute";
             interface_info.fastabi := false;
             interface_info.version := version;
             interface_info.generic_param_stack := stack |})])%list.
Proof.
  intros Hfind Hres Hver Hrec. unfold visit, already_captured.
  rewrite Hfind. rewrite (@interface_target_resolves w stack _ _ Hres). simpl.
  rewrite Hver. simpl. rewrite Hrec. simpl.
  unfold insert_or_assign. rewrite Hfind. reflexivity.
Qed.

(** Ordering an own entry followed by an inherited one: the order
    stays, and the own entry is marked when it is a candidate. *)
Lemma fastabi_order_own_then_inherited own_entry inherited_entry :
  interface_info.base (snd own_entry) = false ->
  interface_info.base (snd inherited_entry) = true ->
  fastabi_order c [own_entry; inherited_entry] =
    Ok (if fastabi_candidate own_entry
        then [set_fastabi own_entry; inherited_entry]
        else [own_entry; inherited_entry]).
Proof.
  intros Hown Hinherited.
  assert (Hno : fastabi_candidate inherited_entry = false).
  { unfold fastabi_candidate. rewrite Hinherited. simpl.
    now rewrite andb_false_r. }
  assert (Hless : fastabi_less c inherited_entry own_entry = Ok false).
  { unfold fastabi_less. now rewrite Hown, Hinherited. }
  unfold fastabi_order, count_if. simpl. rewrite Hno.
  destruct (fastabi_candidate own_entry); simpl; [ | reflexivity].
  now rewrite Hless.
Qed.

(** Without an edge marked default nothing becomes defaulted: a call
    entered with [defaulted] clear leaves no defaulted entry that was
    not there. *)
Lemma get_interfaces_impl_no_default fuel :
  (forall type impl,
      In impl (InterfaceImpl c type) ->
      has_attribute c impl "Windows.Foundation.Metadata" "DefaultAttribute"
        = false) ->
  forall w result overridable base stack children result',
    (forall impl,
        In impl children ->
        has_attribute c impl "Windows.Foundation.Metadata" "DefaultAttribute"
          = false) ->
    Forall (fun entry => interface_info.defaulted (snd entry) = false) result ->
    get_interfaces_impl c fuel w result false overridable base stack children
      = Ok result' ->
    Forall (fun entry => interface_info.defaulted (snd entry) = false) result'.
Proof.
  intros Hplain. induction fuel as [ | fuel IH];
    intros w result overridable base stack children; [discriminate | ].
  rewrite get_interfaces_impl_S. revert result.
  induction children as [ | impl rest IHrest];
    intros result result' Hchildren Hresult H; simpl in H.
  - now injection H as <-.
  - bind_inv H.
    apply (IHrest a); [intros i Hi; apply Hchildren; now right | | exact H].
    apply visit_inv in Ha.
    rewrite (Hchildren impl (or_introl eq_refl)), andb_false_r in Ha.
    destruct Ha as [[_ ->] | (_ & info_type & info_stack & guard & r1 &
                              info & _ & Hrec & -> & _ & _ & Hd & _)];
      [exact Hresult | ].
    apply IH in Hrec; [ | intros i; apply Hplain | exact Hresult].
    rewrite Forall_forall in *. intros entry Hin.
    apply In_insert_or_assign in Hin. destruct Hin as [Hin | ->]; auto.
Qed.

(** C3 (as amended).  For every edge walked, let [f] be
    [!base && (defaulted || is_default)], with [defaulted] and [base]
    the arguments of the call and [is_default] the edge's own
    attribute.  Once the edge has been walked the name has an entry
    whose [defaulted] flag is that of the entry found before (clear
    if there was none) or [f]: an edge that finds a defaulted entry,
    or an entry while [f] is clear, leaves the result as it is, and
    any other edge hands [f] down to the nested call and stores an
    entry with [defaulted] equal to [f]; a call walks its edges in
    order, each in this way.  [get_interfaces] walks the
    type's own edges with [defaulted] and [base] clear and appends
    what the base classes add, so an own edge marked default ends
    with a defaulted entry that is not flagged [base], and metadata
    without any edge marked default gives no defaulted entry.  For
    [Widget], whose only edge is the default [IWidget] and whose base
    class [Control] has the default [IControl] as its only edge, the
    walk yields exactly these two entries: [IWidget] defaulted and
    not [base], [IControl] not defaulted and [base]; and so does
    [get_interfaces], whatever the settings. *)
Theorem defaulted_flag :
  (forall recurse w defaulted overridable base stack impl result result',
      let name := write_temp c w (Interface impl) in
      let info_defaulted :=
        negb base &&
        (defaulted ||
         has_attribute c impl "Windows.Foundation.Metadata" "DefaultAttribute") in
      let found_defaulted :=
        match find result name with
        | Some found => interface_info.defaulted found
        | None => false
        end in
      visit c recurse w defaulted overridable base stack impl result
        = Ok result' ->
      (exists info,
          find result' name = Some info /\
          interface_info.defaulted info = found_defaulted || info_defaulted) /\
      (already_captured result name info_defaulted = true ->
       result' = result) /\
      (already_captured result name info_defaulted = false ->
       exists info_type info_stack guard result1 info,
         interface_target c w stack (Interface impl)
           = Ok (info_type, info_stack, guard) /\
         recurse guard result info_defaulted
                 (overridable ||
                  has_attribute c impl "Windows.Foundation.Metadata"
                                "OverridableAttribute")
                 base info_stack (InterfaceImpl c info_type) = Ok result1 /\
         result' = insert_or_assign result1 name info /\
         interface_info.defaulted info = info_defaulted /\
         interface_info.is_default info =
           has_attribute c impl "Windows.Foundation.Metadata"
                         "DefaultAttribute" /\
         interface_info.base info = base)) /\
  (forall fuel w result defaulted overridable base stack children,
      get_interfaces_impl c (S fuel) w result defaulted overridable base stack
                          children =
        for_each (visit c (get_interfaces_impl c fuel) w defaulted overridable
                        base stack) children result) /\
  (forall fuel w type result,
      get_interfaces_walk c fuel w type = Ok result ->
      (exists own inherited,
          get_interfaces_impl c fuel (walk_writer w) [] false false false []
                              (InterfaceImpl c type) = Ok own /\
          result = (own ++ inherited)%list /\
          Forall (fun entry => interface_info.base (snd entry) = false) own /\
          Forall (fun entry => interface_info.base (snd entry) = true /\
                               interface_info.defaulted (snd entry) = false)
                 inherited) /\
      (forall impl,
          In impl (InterfaceImpl c type) ->
          has_attribute c impl "Windows.Foundation.Metadata" "DefaultAttribute"
            = true ->
          exists info,
            find result (write_temp c (walk_writer w) (Interface impl))
              = Some info /\
            interface_info.defaulted info = true /\
            interface_info.base info = false) /\
      ((forall any impl,
           In impl (InterfaceImpl c any) ->
           has_attribute c impl "Windows.Foundation.Metadata"
                         "DefaultAttribute" = false) ->
       Forall (fun entry => interface_info.defaulted (snd entry) = false)
              result)) /\
  (forall fuel w Widget Control IWidget IControl impl_w impl_c
          version_w version_c,
      InterfaceImpl c Widget = [impl_w] ->
      has_attribute c impl_w "Windows.Foundation.Metadata" "DefaultAttribute"
        = true ->
      resolves_to c (Interface impl_w) IWidget ->
      InterfaceImpl c IWidget = [] ->
      get_version c IWidget = Ok version_w ->
      get_base_class c Widget = Ok (Some Control) ->
      get_base_class c Control = Ok None ->
      InterfaceImpl c Control = [impl_c] ->
      has_attribute c impl_c "Windows.Foundation.Metadata" "DefaultAttribute"
        = true ->
      resolves_to c (Interface impl_c) IControl ->
      InterfaceImpl c IControl = [] ->
      get_version c IControl = Ok version_c ->
      write_temp c (walk_writer w) (Interface impl_w) <>
        write_temp c (walk_writer w) (Interface impl_c) ->
      exists info_w info_c,
        get_interfaces_walk c (S (S fuel)) w Widget =
          Ok [(write_temp c (walk_writer w) (Interface impl_w), info_w);
              (write_temp c (walk_writer w) (Interface impl_c), info_c)] /\
        interface_info.type info_w = IWidget /\
        interface_info.defaulted info_w = true /\
        interface_info.base info_w = false /\
        interface_info.type info_c = IControl /\
        interface_info.defaulted info_c = false /\
        interface_info.base info_c = true /\
        forall settings,
        exists result,
          get_interfaces c settings (S (S fuel)) w Widget = Ok result /\
          List.map fst result =
            [write_temp c (walk_writer w) (Interface impl_w);
             write_temp c (walk_writer w) (Interface impl_c)] /\
          List.map (fun entry => interface_info.defaulted (snd entry)) result
            = [true; false] /\
          List.map (fun entry => interface_info.base (snd entry)) result
            = [false; true]).
Proof.
  split; [ | split; [reflexivity | split]].
  - intros recurse w defaulted overridable base stack impl result result'
           name info_defaulted found_defaulted Hvisit.
    apply visit_inv in Hvisit. fold name in Hvisit. fold info_defaulted in Hvisit.
    destruct Hvisit as [[Hcap ->] | (Hcap & info_type & info_stack & guard &
                                     r1 & info & Htarget & Hrec & -> & _ & Hi &
                                     Hd & _ & Hb & _)].
    + split; [ | split; [reflexivity | congruence]].
      subst found_defaulted. unfold already_captured in Hcap.
      destruct (find result name) as [found | ]; [ | discriminate].
      exists found. split; [reflexivity | ].
      destruct (interface_info.defaulted found); [reflexivity | ].
      simpl in Hcap. now destruct info_defaulted.
    + split; [ | split; [congruence | ]].
      * exists info. split; [apply find_insert_or_assign_same | ].
        rewrite Hd. subst found_defaulted. unfold already_captured in Hcap.
        destruct (find result name) as [found | ]; [ | reflexivity].
        now destruct (interface_info.defaulted found).
      * intros _. exists info_type, info_stack, guard, r1, info. auto 10.
  - intros fuel w type result H.
    destruct (@get_interfaces_walk_split c fuel w type result H)
      as (own & inherited & Hown & Hsplit & Fown & Finherited & Hkeep).
    split; [ | split].
    + exists own, inherited. auto.
    + intros impl Hin Hdef. subst result.
      destruct (@default_edge_defaulted _ _ _ _ _ _ _ _ impl Hown Hin Hdef)
        as (info & Hfind & Hd).
      exists info. repeat split; auto.
      apply find_In in Hfind. rewrite Forall_forall in Fown.
      apply (Fown _ Hfind).
    + intros Hplain. subst result. apply Forall_app. split.
      * eapply (@get_interfaces_impl_no_default fuel Hplain);
          [ | constructor | exact Hown].
        intros impl. apply Hplain.
      * eapply Forall_impl; [ | exact Finherited]. now intros entry [_ Hd].
  - intros fuel w Widget Control IWidget IControl impl_w impl_c vw vc
           HiW HdW HrW HiIW HvW HbW HbC HiC HdC HrC HiIC HvC Hne.
    unfold get_interfaces. unfold get_interfaces_walk. fold (walk_writer w).
    rewrite HiW, (get_interfaces_impl_S (S fuel)).
    cbn [for_each bind].
    rewrite (@leaf_visit _ _ _ _ _ _ _ [] IWidget vw eq_refl HrW HvW)
      by (rewrite HiIW; reflexivity).
    cbn [bind app]. unfold get_bases. rewrite HbW. cbn [bind get_bases_loop].
    rewrite HbC. cbn [bind get_bases_loop app for_each]. rewrite HiC.
    rewrite (get_interfaces_impl_S (S fuel)).
    cbn [for_each bind].
    rewrite (@leaf_visit _ _ _ _ _ _ _ _ IControl vc);
      [ | | assumption | assumption | ].
    + cbn [bind app]. do 2 eexists. split; [reflexivity | ].
      rewrite HdW. simpl. repeat split.
      intros settings. destruct (has_fastabi c settings Widget); simpl.
      * rewrite fastabi_order_own_then_inherited by reflexivity.
        eexists. split; [reflexivity | ].
        match goal with
        | |- context [if ?b then _ else _] => destruct b
        end; repeat split.
      * eexists. split; [reflexivity | ]. repeat split.
    + simpl.
      destruct (String.eqb_spec
                  (write_temp c (walk_writer w) (Interface impl_w))
                  (write_temp c (walk_writer w) (Interface impl_c)));
        congruence.
    + rewrite HiIC. reflexivity.
Qed.

End Defaulted.

Lemma defaulted_flag_witness :
  (exists info_w info_c,
      get_interfaces_walk (table_cache widget_table) 2 fresh_writer Widget =
        Ok [("App.IWidget", info_w); ("App.IControl", info_c)] /\
      interface_info.type info_w = IWidget /\
      interface_info.defaulted info_w = true /\
      interface_info.base info_w = false /\
      interface_info.type info_c = TypeDef_row 3 /\
      interface_info.defaulted info_c = false /\
      interface_info.base info_c = true /\
      forall settings,
      exists result,
        get_interfaces (table_cache widget_table) settings 2 fresh_writer Widget
          = Ok result /\
        List.map fst result = ["App.IWidget"; "App.IControl"] /\
        List.map (fun entry => interface_info.defaulted (snd entry)) result
          = [true; false] /\
        List.map (fun entry => interface_info.base (snd entry)) result
          = [false; true]) /\
  (exists result,
      get_interfaces_walk (table_cache gizmo_table) 3 fresh_writer Gizmo
        = Ok result /\
      List.map fst result = ["App.IPart"; "App.IGizmo"] /\
      Forall (fun entry => interface_info.defaulted (snd entry) = false)
             result).
Proof.
  split.
  - apply (proj2 (proj2 (proj2 (defaulted_flag (table_cache widget_table))))
             0 fresh_writer Widget (TypeDef_row 1) IWidget (TypeDef_row 3)
             (implements ["DefaultAttribute"] (type_ref "App" "IWidget"))
             (implements ["DefaultAttribute"] (type_ref "App" "IControl"))
             (0%N, 0%N) (0%N, 0%N)).
    + reflexivity.
    + reflexivity.
    + right. eexists. split; reflexivity.
    + reflexivity.
    + reflexivity.
    + reflexivity.
    + reflexivity.
    + reflexivity.
    + reflexivity.
    + right. eexists. split; reflexivity.
    + reflexivity.
    + reflexivity.
    + discriminate.
  - eexists. split; [reflexivity | ]. split; [reflexivity | ].
    apply (proj2 (proj2 (proj1 (proj2 (proj2 (defaulted_flag
                                                (table_cache gizmo_table))))
                           3 fresh_writer Gizmo _ eq_refl))).
    intros [[ | [ | [ | [ | index]]]]] impl; simpl;
      try (intros [<- | []]; reflexivity); intros [].
Defined.

(** C3, as stated, fails.  [Panel] implements the default [IPanel]
    and then [IScroll], which requires [IPanel].  The walk of
    [Panel] reaches the edge from [IScroll] to [IPanel] in the call
    nested under the edge to [IScroll], with [defaulted] and [base]
    clear; the edge is not marked default, so
    [!base && (defaulted || is_default)] is false for it.  The
    iteration leaves the result as it is, and the entry of [IPanel]
    is defaulted, then and in the result of the walk. *)
Lemma defaulted_flag_skipped_edge :
  let c := table_cache panel_table in
  let w := walk_writer fresh_writer in
  let to_IPanel := implements ["DefaultAttribute"] (type_ref "App" "IPanel") in
  let to_IScroll := implements [] (type_ref "App" "IScroll") in
  let edge := implements [] (type_ref "App" "IPanel") in
  exists before entry result,
    InterfaceImpl c Panel = [to_IPanel; to_IScroll] /\
    InterfaceImpl c IScroll = [edge] /\
    get_interfaces_impl c 3 w [] false false false [] [to_IPanel]
      = Ok before /\
    interface_target c w [] (Interface to_IScroll) = Ok (IScroll, [], w) /\
    already_captured before (write_temp c w (Interface to_IScroll)) false
      = false /\
    get_interfaces_impl c 2 w before false false false []
                        (InterfaceImpl c IScroll)
      = visit c (get_interfaces_impl c 1) w false false false [] edge before /\
    visit c (get_interfaces_impl c 1) w false false false [] edge before
      = Ok before /\
    negb false &&
    (false ||
     has_attribute c edge "Windows.Foundation.Metadata" "DefaultAttribute")
      = false /\
    find before (write_temp c w (Interface edge)) = Some entry /\
    interface_info.defaulted entry = true /\
    get_interfaces_walk c 3 fresh_writer Panel = Ok result /\
    find result (write_temp c w (Interface edge)) = Some entry.
Proof.
  do 3 eexists. repeat split.
Qed.

(** ** Fast-ABI ordering *)

Lemma least_first_nth_error {A : Type} (lt : A -> A -> bool) (n : nat) :
  forall (l : list A) i j x y,
    least_first lt n l -> i < n -> i < j ->
    nth_error l i = Some x -> nth_error l j = Some y ->
    lt y x = false.
Proof.
  induction n as [ | n IH]; intros l i j x y Hl Hi Hij Hx Hy; [lia | ].
  destruct l as [ | m rest]; [destruct i; discriminate | ].
  destruct Hl as [Hleast Hrest].
  destruct j as [ | j]; [lia | ]. simpl in Hy.
  destruct i as [ | i]; simpl in Hx.
  - injection Hx as <-. rewrite Forall_forall in Hleast.
    apply Hleast. eapply nth_error_In. eassumption.
  - apply (IH rest i j x y Hrest); [lia | lia | assumption | assumption].
Qed.

Lemma nth_error_for_each_n {A : Type} (f : A -> A) (n : nat) :
  forall (l : list A) i x,
    nth_error (for_each_n n f l) i = Some x ->
    (i < n /\ exists x0, nth_error l i = Some x0 /\ x = f x0) \/
    (n <= i /\ nth_error l i = Some x).
Proof.
  induction n as [ | n IH]; intros l i x H.
  - right. split; [lia | ]. destruct l; exact H.
  - destruct l as [ | a l]; [destruct i; discriminate | ].
    destruct i as [ | i]; simpl in H.
    + injection H as <-. left. split; [lia | ]. exists a. auto.
    + destruct (IH l i x H) as [[Hi Hx] | [Hi Hx]]; [left | right]; split;
        try lia; assumption.
Qed.

(** The contract of a partial sort fixes the window: two arrangements
    of the same elements that both put least elements first agree on
    the first [n] positions, when no two distinct elements are
    equivalent in the order. *)
Lemma least_first_window_unique {A : Type} (lt : A -> A -> bool) (n : nat) :
  forall l1 l2,
    Permutation l1 l2 ->
    (forall a b, In a l1 -> In b l1 ->
                 lt a b = false -> lt b a = false -> a = b) ->
    least_first lt n l1 -> least_first lt n l2 ->
    List.firstn n l1 = List.firstn n l2.
Proof.
  induction n as [ | n IH]; intros l1 l2 Hperm Hanti H1 H2; [reflexivity | ].
  destruct l1 as [ | a r1], l2 as [ | b r2]; simpl.
  - reflexivity.
  - apply Permutation_nil in Hperm. discriminate.
  - apply Permutation_sym, Permutation_nil in Hperm. discriminate.
  - destruct H1 as [Ha H1], H2 as [Hb H2]. rewrite Forall_forall in Ha, Hb.
    assert (Hba : In b (a :: r1))
      by (eapply Permutation_in; [apply Permutation_sym, Hperm | now left]).
    assert (Hab : In a (b :: r2))
      by (eapply Permutation_in; [exact Hperm | now left]).
    assert (E : a = b).
    { destruct Hba as [E | Hba]; [exact E | ].
      destruct Hab as [E | Hab]; [now symmetry | ].
      apply Hanti; [now left | now right | auto | auto]. }
    subst b. f_equal. apply IH; try assumption.
    + eapply Permutation_cons_inv. exact Hperm.
    + intros x y Hx Hy. apply Hanti; now right.
Qed.

Lemma NoDup_keys_eq (l : get_interfaces_t) (a b : string * interface_info.t) :
  NoDup (List.map fst l) -> In a l -> In b l -> fst a = fst b -> a = b.
Proof.
  induction l as [ | x l IH]; simpl; intros Hnd Ha Hb E; [destruct Ha | ].
  inversion Hnd as [ | k ks Hnotin Hnd']; subst.
  destruct Ha as [-> | Ha], Hb as [-> | Hb].
  - reflexivity.
  - exfalso. apply Hnotin. rewrite E. now apply List.in_map.
  - exfalso. apply Hnotin. rewrite <- E. now apply List.in_map.
  - now apply IH.
Qed.

Section FastAbiOrder.

Variable c : cache.
Variable settings : settings_type.

(** C1 (as amended).  For a type with fast-ABI layout, [get_interfaces]
    returns the entries the walk found, rearranged: with
    [count] the number of exclusive, non-base, non-overridable
    entries, the first [count] positions hold the [count] entries
    that come first among all entries in the comparator's order (not
    base, default, not overridable, exclusive, always-enabled, lower
    version, lower name), in ascending order, so each of them
    strictly precedes every entry after it.  Exactly the entries at
    those positions have [fastabi] set.  The window is the same for
    every arrangement that meets the contract of [std::partial_sort];
    the order of the entries after it is not fixed by that contract. *)
Theorem fastabi_partial_order fuel w type entries :
  has_fastabi c settings type = true ->
  get_interfaces_walk c fuel w type = Ok entries ->
  (forall entry, In entry entries ->
     exists enabled,
       is_always_enabled c (interface_info.type (snd entry)) = Ok enabled) ->
  let count := count_if fastabi_candidate entries in
  exists sorted,
    get_interfaces c settings fuel w type
      = Ok (for_each_n count set_fastabi sorted) /\
    Permutation entries sorted /\
    (forall i j x y,
        i < count -> i < j ->
        nth_error sorted i = Some x -> nth_error sorted j = Some y ->
        fastabi_precedes c x y = true) /\
    (forall i x,
        nth_error (for_each_n count set_fastabi sorted) i = Some x ->
        interface_info.fastabi (snd x) = (i <? count)%nat) /\
    (forall other,
        Permutation entries other ->
        least_first (fastabi_precedes c) count other ->
        List.firstn count other = List.firstn count sorted).
Proof.
  intros Hfast Hwalk Henabled count.
  destruct (@partial_sort_returns _ (fastabi_less c) count entries)
    as [sorted Hsorted].
  { intros a b Ha Hb. apply fastabi_less_returns; auto. }
  assert (Hperm : Permutation entries sorted)
    by (eapply partial_sort_Permutation; eassumption).
  assert (Hleast : least_first (fastabi_precedes c) count sorted).
  { apply (@partial_sort_least_first _ (fastabi_less c) (fastabi_precedes c)
             (@fastabi_less_precedes c) (@fastabi_precedes_irrefl c)
             (@fastabi_precedes_trans c) (@fastabi_precedes_negtrans c)
             count entries sorted Hsorted). }
  assert (Hnd : NoDup (List.map fst sorted)).
  { eapply Permutation_NoDup; [apply Permutation_map, Hperm | ].
    eapply get_interfaces_walk_NoDup. eassumption. }
  exists sorted. split; [ | split; [exact Hperm | split; [ | split]]].
  - unfold get_interfaces. rewrite Hwalk. simpl. rewrite Hfast. simpl.
    unfold fastabi_order. fold count. rewrite Hsorted. reflexivity.
  - intros i j x y Hi Hij Hx Hy.
    apply fastabi_precedes_total.
    + apply (@least_first_nth_error _ (fastabi_precedes c) count sorted i j);
        assumption.
    + intros Hname.
      assert (i = j); [ | lia].
      eapply (proj1 (NoDup_nth_error (List.map fst sorted))); [exact Hnd | | ].
      * rewrite List.length_map. apply nth_error_Some. congruence.
      * rewrite (map_nth_error fst _ _ Hx), (map_nth_error fst _ _ Hy).
        congruence.
  - intros i x Hx.
    assert (Hclear : Forall (fun entry =>
                               interface_info.fastabi (snd entry) = false)
                            sorted).
    { eapply Permutation_Forall; [exact Hperm | ].
      eapply get_interfaces_walk_fastabi. eassumption. }
    rewrite Forall_forall in Hclear.
    apply nth_error_for_each_n in Hx.
    destruct Hx as [[Hi (x0 & _ & ->)] | [Hi Hx]].
    + simpl. symmetry. now apply Nat.ltb_lt.
    + rewrite (Hclear x (nth_error_In _ _ Hx)). symmetry. now apply Nat.ltb_ge.
  - intros other Hother Hleast'.
    apply (@least_first_window_unique _ (fastabi_precedes c) count other sorted);
      try assumption.
    + eapply perm_trans; [apply Permutation_sym, Hother | exact Hperm].
    + intros a b Ha Hb Hab Hba.
      apply (@NoDup_keys_eq other); try assumption.
      * eapply Permutation_NoDup; [ | exact Hnd].
        apply Permutation_map.
        eapply perm_trans; [apply Permutation_sym, Hperm | exact Hother].
      * destruct (String.string_dec (fst a) (fst b)) as [E | Hne]; [exact E | ].
        rewrite (fastabi_precedes_total c _ _ Hab Hne) in Hba. discriminate.
Qed.

End FastAbiOrder.

Lemma fastabi_partial_order_witness :
  exists sorted,
    get_interfaces (table_cache button_table) default_settings 2 fresh_writer
                   Button = Ok (for_each_n 1 set_fastabi sorted) /\
    List.map fst sorted = ["App.IButton"; "Windows.Foundation.IStringable"].
Proof.
  destruct (@fastabi_partial_order (table_cache button_table) default_settings
              2 fresh_writer Button _ eq_refl eq_refl)
    as (sorted & Hget & _).
  - intros entry [<- | [<- | []]]; eexists; reflexivity.
  - exists sorted. split; [exact Hget | ].
    apply (f_equal (fun r => match r with
                             | Ok l => List.map fst l
                             | Err _ => []
                             end)) in Hget.
    rewrite keys_for_each_n in Hget. now rewrite <- Hget.
Defined.

(** C1, as stated, fails.  [Button] has one exclusive, non-base,
    non-overridable entry, found second.  Sorting only the first
    position would leave the discovery order and mark [IStringable];
    the code moves [IButton] to the front and marks it, and
    [IStringable], outside the window, is no longer where it was
    found. *)
Lemma fastabi_order_is_not_a_prefix_sort :
  exists entries result,
    get_interfaces_walk (table_cache button_table) 2 fresh_writer Button
      = Ok entries /\
    get_interfaces (table_cache button_table) default_settings 2 fresh_writer
                   Button = Ok result /\
    count_if fastabi_candidate entries = 1 /\
    List.map entry_summary entries =
      [("Windows.Foundation.IStringable", (0%N, 0%N), false);
       ("App.IButton", (0%N, 0%N), false)] /\
    List.map entry_summary (prefix_window_order (table_cache button_table) entries) =
      [("Windows.Foundation.IStringable", (0%N, 0%N), true);
       ("App.IButton", (0%N, 0%N), false)] /\
    List.map entry_summary result =
      [("App.IButton", (0%N, 0%N), true);
       ("Windows.Foundation.IStringable", (0%N, 0%N), false)] /\
    result <> prefix_window_order (table_cache button_table) entries.
Proof.
  do 2 eexists. split; [reflexivity | ]. split; [reflexivity | ].
  repeat split. discriminate.
Qed.

(** ** The loop of the slot count *)

Lemma add_fastabi_methods_sum (c : cache) (interfaces : get_interfaces_t) :
  forall r,
    add_fastabi_methods c interfaces (r mod size_t_modulus)%N =
      ((r + sum_N (List.map (method_count c) (fastabi_prefix interfaces)))
         mod size_t_modulus)%N.
Proof.
  induction interfaces as [ | [name info] rest IH]; intros r; simpl.
  - now rewrite N.add_0_r.
  - destruct (interface_info.fastabi info); simpl.
    + unfold size_t_add. rewrite N.Div0.add_mod_idemp_l, IH.
      unfold method_count at 2. simpl. now rewrite N.add_assoc.
    + now rewrite N.add_0_r.
Qed.

(** ** Fuel

    Fuel only bounds the depth of the recursion: a call that returns
    returns the same with more fuel, and on acyclic metadata whose
    references resolve there is enough of it. *)

Lemma for_each_monotone {A S : Type} (body body' : A -> S -> res S)
    (range : list A) :
  (forall a s s', body a s = Ok s' -> body' a s = Ok s') ->
  forall s s', for_each body range s = Ok s' -> for_each body' range s = Ok s'.
Proof.
  intros Hbody. induction range as [ | a range IH]; simpl; intros s s' H.
  - exact H.
  - bind_inv H. rewrite (Hbody _ _ _ Ha). simpl. now apply IH.
Qed.

Lemma for_each_returns {A S : Type} (body : A -> S -> res S) (range : list A) :
  (forall a s, In a range -> exists s', body a s = Ok s') ->
  forall s, exists s', for_each body range s = Ok s'.
Proof.
  induction range as [ | a range IH]; simpl; intros Hbody s.
  - eauto.
  - destruct (Hbody a s) as [s1 H1]; [now left | ].
    rewrite H1. simpl. apply IH. intros a' t Ha'. apply Hbody. now right.
Qed.

Section Fuel.

Variable c : cache.

Lemma visit_monotone recurse recurse' w defaulted overridable base stack impl
    result result' :
  (forall w r d o b s children r',
      recurse w r d o b s children = Ok r' ->
      recurse' w r d o b s children = Ok r') ->
  visit c recurse w defaulted overridable base stack impl result = Ok result' ->
  visit c recurse' w defaulted overridable base stack impl result = Ok result'.
Proof.
  intros Hrec. unfold visit.
  destruct (already_captured result _ _); [auto | ].
  intros H. bind_inv H. rewrite Ha. simpl.
  destruct a as [[info_type info_stack] guard].
  bind_inv H. rewrite Ha0. simpl.
  bind_inv H. rewrite (Hrec _ _ _ _ _ _ _ _ Ha1). simpl. exact H.
Qed.

Lemma get_interfaces_impl_more_fuel fuel :
  forall w result defaulted overridable base stack children result',
    get_interfaces_impl c fuel w result defaulted overridable base stack
                        children = Ok result' ->
    get_interfaces_impl c (S fuel) w result defaulted overridable base stack
                        children = Ok result'.
Proof.
  induction fuel as [ | fuel IH]; [discriminate | ].
  intros w result defaulted overridable base stack children result'.
  rewrite !(get_interfaces_impl_S c).
  apply for_each_monotone. intros impl s s'.
  apply visit_monotone. exact IH.
Qed.

Lemma get_interfaces_impl_fuel_le fuel fuel' w result defaulted overridable
    base stack children result' :
  fuel <= fuel' ->
  get_interfaces_impl c fuel w result defaulted overridable base stack
                      children = Ok result' ->
  get_interfaces_impl c fuel' w result defaulted overridable base stack
                      children = Ok result'.
Proof.
  induction 1 as [ | fuel' _ IH]; [auto | ].
  intros H. apply get_interfaces_impl_more_fuel. auto.
Qed.

Variable rank : TypeDef -> nat.
Hypothesis metadata_ok : well_founded_metadata c rank.

Lemma get_interfaces_impl_returns (n : nat) :
  forall type,
    rank type <= n ->
    forall w result defaulted overridable base stack,
    exists result',
      get_interfaces_impl c (S n) w result defaulted overridable base stack
                          (InterfaceImpl c type) = Ok result'.
Proof.
  induction n as [ | n IH]; intros type Hrank w result defaulted overridable
                                   base stack;
    rewrite get_interfaces_impl_S; apply for_each_returns;
    intros impl r Himpl;
    destruct (proj1 metadata_ok type impl w stack Himpl)
      as (target & stack' & guard & version & Htarget & Hlt & Hversion).
  - lia.
  - unfold visit. destruct (already_captured r _ _); [eauto | ].
    rewrite Htarget. cbn [bind]. rewrite Hversion. cbn [bind].
    destruct (IH target ltac:(lia) guard r
                 (negb base &&
                  (defaulted ||
                   has_attribute c impl "Windows.Foundation.Metadata"
                                 "DefaultAttribute"))
                 (overridable ||
                  has_attribute c impl "Windows.Foundation.Metadata"
                                "OverridableAttribute")
                 base stack') as [r1 Hr1].
    rewrite Hr1. cbn [bind]. eauto.
Qed.

Lemma get_bases_loop_returns (n : nat) :
  forall base bases,
    (forall b, base = Some b -> rank b < n) ->
    exists bases',
      get_bases_loop c n base bases = Ok bases' /\
      (forall x, In x bases' -> In x bases \/ rank x < n).
Proof.
  induction n as [ | n IH]; intros base bases Hbase.
  - destruct base as [b | ]; [specialize (Hbase b eq_refl); lia | ].
    simpl. eauto.
  - destruct base as [b | ]; simpl; [ | eauto].
    specialize (Hbase b eq_refl).
    destruct (proj2 metadata_ok b) as [Hnone | (next & Hnext & Hlt)].
    + rewrite Hnone. cbn [bind].
      exists (bases ++ [b])%list. split; [now destruct n | ].
      intros x Hx. apply List.in_app_or in Hx.
      destruct Hx as [Hx | [<- | []]]; auto.
    + rewrite Hnext. cbn [bind].
      destruct (IH (Some next) (bases ++ [b])%list) as (bases' & E & F).
      { intros b' [= <-]. lia. }
      exists bases'. split; [exact E | ].
      intros x Hx. destruct (F x Hx) as [Hin | Hlt']; [ | right; lia].
      apply List.in_app_or in Hin. destruct Hin as [Hin | [<- | []]]; auto.
Qed.

(** On well-founded metadata the walk of [get_interfaces] returns,
    with fuel one above the rank of the type. *)
Lemma get_interfaces_walk_returns w type :
  exists result, get_interfaces_walk c (S (rank type)) w type = Ok result.
Proof.
  unfold get_interfaces_walk.
  destruct (@get_interfaces_impl_returns (rank type) type (le_n _)
              (walk_writer w) [] false false false []) as [own Hown].
  fold (walk_writer w). rewrite Hown. cbn [bind].
  assert (Hbases : exists bases,
             get_bases c (S (rank type)) type = Ok bases /\
             forall x, In x bases -> rank x <= rank type).
  { unfold get_bases.
    destruct (proj2 metadata_ok type) as [Hnone | (base & Hbase & Hlt)].
    - rewrite Hnone. simpl. exists []. split; [reflexivity | intros x []].
    - rewrite Hbase. cbn [bind].
      destruct (@get_bases_loop_returns (S (rank type)) (Some base) [])
        as (bases & E & F).
      { intros b [= <-]. lia. }
      exists bases. split; [exact E | ].
      intros x Hx. destruct (F x Hx) as [[] | Hlt']. lia. }
  destruct Hbases as (bases & Hbases & Hranks). rewrite Hbases. cbn [bind].
  apply for_each_returns. intros base r Hin.
  apply get_interfaces_impl_returns. auto.
Qed.

End Fuel.

Example widget_table_well_founded :
  well_founded_metadata (table_cache widget_table) widget_rank.
Proof.
  split.
  - intros [index] impl w stack Himpl.
    do 5 (destruct index as [ | index];
          [simpl in Himpl;
           repeat match goal with
                  | H : _ \/ _ |- _ => destruct H as [<- | H]
                  | H : False |- _ => destruct H
                  end;
           do 4 eexists; (split; [reflexivity | split; [simpl; lia | reflexivity]])
          | ]).
    simpl in Himpl. destruct index; destruct Himpl.
  - intros [index].
    do 5 (destruct index as [ | index];
          [first [left; reflexivity
                 | right; eexists; split; [reflexivity | simpl; lia]]
          | ]).
    left. destruct index; reflexivity.
Qed.

Example widget_walk_returns :
  exists result,
    get_interfaces_walk (table_cache widget_table) 3 fresh_writer Widget
      = Ok result.
Proof.
  exact (get_interfaces_walk_returns widget_table_well_founded fresh_writer
                                     Widget).
Qed.

(** A required interface is stored before the interface that requires
    it, and carries the argument names of every instantiation on the
    way to it. *)
Example bag_interfaces :
  get_interfaces (table_cache bag_table) default_settings 3 fresh_writer
                 (TypeDef_row 0) =
    Ok [("Windows.Foundation.Collections.IIterable`1<String>",
         {| interface_info.type := TypeDef_row 2;
            interface_info.is_default := false;
            interface_info.defaulted := true;
            interface_info.overridable := false;
            interface_info.base := false;
            interface_info.exclusive := false;
            interface_info.fastabi := false;
            interface_info.version := (0%N, 0%N);
            interface_info.generic_param_stack := [["String"]; ["String"]] |});
        ("Windows.Foundation.Collections.IVector`1<String>",
         {| interface_info.type := TypeDef_row 1;
            interface_info.is_default := true;
            interface_info.defaulted := true;
            interface_info.overridable := false;
            interface_info.base := false;
            interface_info.exclusive := false;
            interface_info.fastabi := false;
            interface_info.version := (0%N, 0%N);
            interface_info.generic_param_stack := [["String"]] |})].
Proof.
  reflexivity.
Qed.

(* ================================================================== *)
(** * Further properties of the helpers *)

(** ** Strings *)

Lemma prefix_split (p s : string) :
  String.prefix p s = true -> exists rest, s = p ++ rest.
Proof.
  revert s. induction p as [ | a p IH]; intros s H.
  - exists s. reflexivity.
  - destruct s as [ | b s]; simpl in H; [discriminate | ].
    destruct (ascii_dec a b) as [<- | ]; [ | discriminate].
    destruct (IH s H) as [rest ->]. exists rest. reflexivity.
Qed.

Lemma string_length_append (s t : string) :
  String.length (s ++ t) = String.length s + String.length t.
Proof.
  induction s as [ | a s IH]; simpl; [reflexivity | now rewrite IH].
Qed.

Lemma substring_all (s : string) : String.substring 0 (String.length s) s = s.
Proof.
  induction s as [ | a s IH]; simpl; [reflexivity | now rewrite IH].
Qed.

Lemma substring_skip (pre rest : string) :
  String.substring (String.length pre) (String.length rest) (pre ++ rest) = rest.
Proof.
  induction pre as [ | a pre IH]; simpl.
  - apply substring_all.
  - exact IH.
Qed.

Lemma find_index_append (pre rest : string) (ch : ascii) :
  find_index pre ch = None ->
  find_index (pre ++ String ch rest) ch = Some (String.length pre).
Proof.
  induction pre as [ | a pre IH]; simpl.
  - intros _. now rewrite Ascii.eqb_refl.
  - destruct (Ascii.eqb a ch); [discriminate | ].
    destruct (find_index pre ch); [discriminate | ].
    intros _. now rewrite IH.
Qed.

Lemma find_index_split (s : string) (ch : ascii) (i : nat) :
  find_index s ch = Some i ->
  exists pre rest,
    s = pre ++ String ch rest /\ find_index pre ch = None /\
    String.length pre = i.
Proof.
  revert i. induction s as [ | a s IH]; simpl; intros i H; [discriminate | ].
  destruct (Ascii.eqb_spec a ch) as [-> | Hne].
  - injection H as <-. exists "", s. auto.
  - destruct (find_index s ch) as [j | ]; [ | discriminate].
    injection H as <-.
    destruct (IH j eq_refl) as (pre & rest & -> & Hpre & <-).
    exists (String a pre), rest. simpl.
    destruct (Ascii.eqb_spec a ch); [contradiction | ].
    rewrite Hpre. auto.
Qed.

(** ** Accessor kinds *)

(** X1.  A method is at most one kind of accessor: no two of
    [is_get_overload], [is_put_overload], [is_add_overload] and
    [is_remove_overload] hold of the same method. *)
Theorem accessor_kinds_exclusive (method : MethodDef) :
  (is_get_overload method = true ->
   is_put_overload method = false /\ is_add_overload method = false /\
   is_remove_overload method = false) /\
  (is_put_overload method = true ->
   is_get_overload method = false /\ is_add_overload method = false /\
   is_remove_overload method = false) /\
  (is_add_overload method = true ->
   is_get_overload method = false /\ is_put_overload method = false /\
   is_remove_overload method = false) /\
  (is_remove_overload method = true ->
   is_get_overload method = false /\ is_put_overload method = false /\
   is_add_overload method = false).
Proof.
  unfold is_get_overload, is_put_overload, is_add_overload, is_remove_overload,
    starts_with.
  destruct (SpecialName method); simpl;
    (split; [ | split; [ | split]]); intros Hkind; try discriminate;
    apply prefix_split in Hkind; destruct Hkind as [rest Hrest];
    rewrite Hrest; simpl; auto.
Qed.

Lemma accessor_kinds_exclusive_witness :
  is_put_overload (accessor_method "get_Value" (Some Int32_sig) []) = false /\
  is_add_overload (accessor_method "get_Value" (Some Int32_sig) []) = false /\
  is_remove_overload (accessor_method "get_Value" (Some Int32_sig) []) = false.
Proof.
  apply (proj1 (accessor_kinds_exclusive
                  (accessor_method "get_Value" (Some Int32_sig) []))).
  reflexivity.
Defined.

(** ** The visible name of a method *)

Lemma size_t_add_npos_1 : size_t_add npos 1 = 0%N.
Proof. reflexivity. Qed.

Lemma get_name_after_underscore (method : MethodDef) (pre rest : string) :
  SpecialName method = true ->
  (N.of_nat (String.length (Name method)) < npos)%N ->
  Name method = pre ++ String "_"%char rest ->
  find_index pre "_"%char = None ->
  get_name method = Ok rest.
Proof.
  intros Hspecial Hsize Hname Hpre. unfold get_name. rewrite Hspecial.
  unfold string_find. rewrite Hname in *.
  rewrite (find_index_append pre rest "_"%char Hpre).
  rewrite string_length_append in *. simpl String.length in *.
  assert (Hpos : size_t_add (N.of_nat (String.length pre)) 1
                 = N.of_nat (S (String.length pre))).
  { unfold size_t_add. rewrite N.mod_small; [lia | ].
    unfold npos in Hsize. lia. }
  rewrite Hpos. unfold substr.
  rewrite string_length_append. simpl String.length.
  destruct (N.ltb_spec (N.of_nat (String.length pre + S (String.length rest)))
                       (N.of_nat (S (String.length pre)))) as [Hlt | _];
    [lia | ].
  rewrite Nat2N.id. f_equal.
  replace (String.length pre + S (String.length rest) - S (String.length pre))
    with (String.length rest) by lia.
  change (String.substring (String.length (String "_"%char pre))
            (String.length rest) (pre ++ String "_"%char rest) = rest).
  clear. induction pre as [ | a pre IH]; simpl.
  - apply substring_all.
  - exact IH.
Qed.

(** X2.  [get_name] never throws on a name of representable length.
    It returns the raw name of a method without the special-name
    marker; for a marked method it returns what follows the first
    underscore, so the name of a get, put, add or remove accessor
    without its prefix; and a marked name without any underscore is
    returned whole, because [npos + 1] wraps around to 0. *)
Theorem get_name_strips_accessor_prefix (method : MethodDef) :
  (SpecialName method = false -> get_name method = Ok (Name method)) /\
  (SpecialName method = true ->
   (N.of_nat (String.length (Name method)) < npos)%N ->
   (forall pre rest,
       Name method = pre ++ String "_"%char rest ->
       find_index pre "_"%char = None ->
       get_name method = Ok rest) /\
   (forall prefix,
       prefix = "get_" \/ prefix = "put_" \/ prefix = "add_" \/
       prefix = "remove_" ->
       starts_with (Name method) prefix = true ->
       exists rest,
         Name method = prefix ++ rest /\ get_name method = Ok rest) /\
   (find_index (Name method) "_"%char = None ->
    get_name method = Ok (Name method)) /\
   (exists name, get_name method = Ok name)).
Proof.
  split.
  - intros H. unfold get_name. now rewrite H.
  - intros Hspecial Hsize.
    assert (Hafter : forall pre rest,
               Name method = pre ++ String "_"%char rest ->
               find_index pre "_"%char = None ->
               get_name method = Ok rest).
    { intros pre rest. now apply get_name_after_underscore. }
    assert (Hnone : find_index (Name method) "_"%char = None ->
                    get_name method = Ok (Name method)).
    { intros H. unfold get_name, string_find. rewrite Hspecial, H.
      rewrite size_t_add_npos_1. unfold substr.
      destruct (N.ltb_spec (N.of_nat (String.length (Name method))) 0);
        [lia | ].
      change (N.to_nat 0) with 0. now rewrite Nat.sub_0_r, substring_all. }
    repeat split; try assumption.
    + intros prefix Hprefix Hstarts. unfold starts_with in Hstarts.
      apply prefix_split in Hstarts. destruct Hstarts as [rest Hrest].
      exists rest. split; [exact Hrest | ].
      destruct Hprefix as [-> | [-> | [-> | ->]]].
      * apply (Hafter "get" rest); [exact Hrest | reflexivity].
      * apply (Hafter "put" rest); [exact Hrest | reflexivity].
      * apply (Hafter "add" rest); [exact Hrest | reflexivity].
      * apply (Hafter "remove" rest); [exact Hrest | reflexivity].
    + destruct (find_index (Name method) "_"%char) as [i | ] eqn:E.
      * destruct (find_index_split _ _ E) as (pre & rest & Hname & Hpre & _).
        exists rest. now apply (Hafter pre rest).
      * eauto.
Qed.

Lemma get_name_strips_accessor_prefix_witness :
  get_name (accessor_method "remove_Changed" None [Int32_sig]) = Ok "Changed".
Proof.
  destruct (proj1 (proj2 (proj2 (get_name_strips_accessor_prefix
                     (accessor_method "remove_Changed" None [Int32_sig]))
                     eq_refl eq_refl))
              "remove_" (or_intror (or_intror (or_intror eq_refl))) eq_refl)
    as (rest & Hname & Hget).
  rewrite Hget. f_equal.
  simpl in Hname. now injection Hname as <-.
Defined.

(** ** The rows of a method signature *)

Lemma nth_error_combine_seq {A : Type} (l : list A) :
  forall start i row a,
    nth_error (List.combine (List.seq start (List.length l)) l) i
      = Some (row, a) ->
    row = start + i /\ nth_error l i = Some a.
Proof.
  induction l as [ | x l IH]; intros start i row a H; simpl in H.
  - destruct i; discriminate.
  - destruct i as [ | i]; simpl in H.
    + injection H as <- <-. split; [lia | reflexivity].
    + destruct (IH (S start) i row a H) as [-> Hnth]. split; [lia | exact Hnth].
Qed.

Lemma map_snd_combine_seq {A : Type} (l : list A) (start : nat) :
  List.map snd (List.combine (List.seq start (List.length l)) l) = l.
Proof.
  revert start. induction l as [ | x l IH]; intros start; simpl;
    [reflexivity | now rewrite IH].
Qed.

(** X3.  [method_signature] holds one entry per parameter of the
    signature, in order, the i-th paired with the i-th row after the
    return row (or the i-th row from the method's first row when there
    is no return row).  The return row is the method's first row, and is
    taken only for a non-void signature when that row has sequence 0;
    otherwise the return parameter is named [winrt_impl_result].  When
    the method has exactly one row per parameter besides the return
    row, every parameter row lies among the method's own rows. *)
Theorem method_signature_rows (Param_row : nat -> ParamRow)
    (ParamList : MethodDef -> nat * nat) (method : MethodDef) :
  let params := method_signature_params Param_row ParamList method in
  let m_return := method_signature_return Param_row ParamList method in
  let first := match m_return with
               | Some row => S row
               | None => fst (ParamList method)
               end in
  List.map snd params = Params (Signature method) /\
  (forall i row signature,
      nth_error params i = Some (row, signature) -> row = first + i) /\
  (forall row,
      m_return = Some row ->
      row = fst (ParamList method) /\ row <> snd (ParamList method) /\
      Sequence (Param_row row) = 0%N /\
      ReturnType (Signature method) <> None /\
      return_param_name Param_row ParamList method
        = Param_Name (Param_row row)) /\
  (m_return = None ->
   return_param_name Param_row ParamList method = "winrt_impl_result") /\
  (ReturnType (Signature method) = None -> m_return = None) /\
  (snd (ParamList method)
     = first + List.length (Params (Signature method)) ->
   forall row signature,
     In (row, signature) params ->
     fst (ParamList method) <= row < snd (ParamList method) /\
     m_return <> Some row).
Proof.
  intros params m_return first.
  assert (Hreturn : forall row,
             m_return = Some row ->
             row = fst (ParamList method) /\ row <> snd (ParamList method) /\
             Sequence (Param_row row) = 0%N /\
             ReturnType (Signature method) <> None).
  { unfold m_return, method_signature_return.
    destruct (ParamList method) as [b e]. simpl.
    destruct (ReturnType (Signature method)); [ | discriminate].
    destruct (Nat.eqb_spec b e); simpl; [discriminate | ].
    destruct (N.eqb_spec (Sequence (Param_row b)) 0); [ | discriminate].
    intros row [= <-]. repeat split; auto. discriminate. }
  assert (Hnth : forall i row signature,
             nth_error params i = Some (row, signature) -> row = first + i).
  { intros i row signature H. unfold params, method_signature_params in H.
    fold m_return in H. fold first in H.
    now apply nth_error_combine_seq in H. }
  split; [ | split; [exact Hnth | split; [ | split; [ | split]]]].
  - unfold params, method_signature_params. apply map_snd_combine_seq.
  - intros row Hrow. destruct (Hreturn row Hrow) as (H1 & H2 & H3 & H4).
    repeat split; auto.
    unfold return_param_name. fold m_return. now rewrite Hrow.
  - intros Hnone. unfold return_param_name. fold m_return. now rewrite Hnone.
  - intros Hvoid. unfold m_return, method_signature_return.
    destruct (ParamList method). now rewrite Hvoid.
  - intros Hcount row signature Hin.
    apply List.In_nth_error in Hin. destruct Hin as [i Hi].
    pose proof (Hnth i row signature Hi) as ->.
    assert (Hlt : i < List.length params)
      by (apply nth_error_Some; congruence).
    assert (Hlen : List.length params
                   = List.length (Params (Signature method))).
    { rewrite <- (List.length_map snd). unfold params, method_signature_params.
      now rewrite map_snd_combine_seq. }
    unfold first in *. destruct m_return as [r | ] eqn:E.
    + destruct (Hreturn r eq_refl) as (Hr & _). split; [lia | ].
      intros [= Hrow]. lia.
    + split; [lia | discriminate].
Qed.

Lemma method_signature_rows_witness :
  let method := accessor_method "Add" (Some Int32_sig) [Int32_sig; Int32_sig] in
  method_signature_params sample_Param_row sample_ParamList method
    = [(4, Int32_sig); (5, Int32_sig)] /\
  forall row signature,
    In (row, signature)
       (method_signature_params sample_Param_row sample_ParamList method) ->
    3 <= row < 6 /\
    method_signature_return sample_Param_row sample_ParamList method
      <> Some row.
Proof.
  intros method. split; [reflexivity | ].
  apply (proj2 (proj2 (proj2 (proj2 (proj2
           (method_signature_rows sample_Param_row sample_ParamList method)))))).
  reflexivity.
Defined.

(** ** The separator *)

(** X4.  Called once before each of n items, a fresh [separator]
    writes nothing the first time and [", "] every time after: n - 1
    separators in all, and none once for an empty sequence. *)
Theorem separator_writes_between (n : nat) :
  separator_calls (S n) true
    = (false, String.concat "" (List.repeat ", " n)) /\
  separator_calls n false
    = (false, String.concat "" (List.repeat ", " n)) /\
  separator_calls 0 true = (true, "").
Proof.
  assert (Hfalse : forall k,
             separator_calls k false
               = (false, String.concat "" (List.repeat ", " k))).
  { induction k as [ | k IH]; [reflexivity | ].
    simpl separator_calls. rewrite IH. f_equal.
    destruct k; reflexivity. }
  split; [ | split; [apply Hfalse | reflexivity]].
  simpl separator_calls. now rewrite Hfalse.
Qed.

(** ** Objects and delegates *)

(** X5.  [is_object] holds exactly of a signature whose type is the
    [Object] element type, array or not; [get_category] puts such a
    signature in the object category unless it is an array. *)
Theorem is_object_category (c : cache) (signature : TypeSig) :
  (is_object signature = true <->
   Type_ signature = Type_ElementType ElementType.Object) /\
  (is_object signature = true ->
   get_category c signature =
     Ok (if is_szarray signature then param_category.array_type
         else param_category.object_type, None)).
Proof.
  destruct signature as [array value]. unfold is_object, get_category. simpl.
  split.
  - destruct value as [[] | | | | ]; split; congruence.
  - destruct value as [[] | | | | ]; try discriminate.
    intros _. destruct array; reflexivity.
Qed.

Lemma is_object_category_witness :
  get_category (table_cache widget_table)
    (Build_TypeSig true (Type_ElementType ElementType.Object))
  = Ok (param_category.array_type, None).
Proof.
  apply (proj2 (is_object_category (table_cache widget_table)
                  (Build_TypeSig true (Type_ElementType ElementType.Object)))).
  reflexivity.
Defined.

(** X6.  [get_delegate_method] returns the first method of the type
    named [Invoke], and throws [Delegate's Invoke method not found]
    exactly when the type has no method of that name. *)
Theorem get_delegate_method_finds_Invoke (c : cache) (type : TypeDef) :
  (forall method,
      get_delegate_method c type = Ok method ->
      Name method = "Invoke" /\
      exists before after,
        MethodList c type = (before ++ method :: after)%list /\
        forall other, In other before -> Name other <> "Invoke") /\
  ((forall method, In method (MethodList c type) -> Name method <> "Invoke") <->
   get_delegate_method c type =
     Err (invalid_argument "Delegate's Invoke method not found")).
Proof.
  unfold get_delegate_method.
  induction (MethodList c type) as [ | m methods [IHok IHerr]]; simpl.
  - split; [discriminate | ]. split; [reflexivity | intros _ method []].
  - destruct (String.eqb_spec (Name m) "Invoke") as [E | Hne].
    + split.
      * intros method [= <-]. split; [exact E | ].
        exists [], methods. split; [reflexivity | intros other []].
      * split; [ | discriminate]. intros H. exfalso. apply (H m); auto.
    + split.
      * intros method H. destruct (IHok method H) as (Hn & before & after & -> & Hb).
        split; [exact Hn | ]. exists (m :: before), after.
        split; [reflexivity | ]. intros other [<- | Hin]; auto.
      * rewrite <- IHerr. split.
        -- intros H method Hin. apply H. now right.
        -- intros H method [<- | Hin]; auto.
Qed.

Lemma get_delegate_method_finds_Invoke_witness :
  get_delegate_method (table_cache button_table) (TypeDef_row 1) =
    Err (invalid_argument "Delegate's Invoke method not found").
Proof.
  apply (proj1 (proj2 (get_delegate_method_finds_Invoke
                         (table_cache button_table) (TypeDef_row 1)))).
  intros method [<- | []]. discriminate.
Defined.

(** ** Versions *)

Lemma HIWORD_div (v : N) : HIWORD v = ((v / 65536) mod 65536)%N.
Proof.
  unfold HIWORD. change 65535%N with (N.ones 16).
  now rewrite N.land_ones, N.shiftr_div_pow2.
Qed.

Lemma LOWORD_mod (v : N) : LOWORD v = (v mod 65536)%N.
Proof.
  unfold LOWORD. change 65535%N with (N.ones 16). now rewrite N.land_ones.
Qed.

Section Versions.

Variable c : cache.

Lemma get_version_from (attributes : list CustomAttributeRow) (type : TypeDef) :
  CustomAttribute c type = attributes ->
  get_version c type =
    match List.find is_version_attribute attributes with
    | None => Ok (0%N, 0%N)
    | Some attribute =>
        version <-
          get_attribute_value as_uint32 attribute
            (if (snd (TypeNamespaceAndName attribute)
                   =? "ContractVersionAttribute")%string
             then 1 else 0) ;;
        Ok (HIWORD version, LOWORD version)
    end.
Proof.
  intros <-. unfold get_version.
  induction (CustomAttribute c type) as [ | attribute rest IH].
  - reflexivity.
  - cbn [List.find]. unfold is_version_attribute at 1.
    destruct (fst (TypeNamespaceAndName attribute)
                =? "Windows.Foundation.Metadata")%string eqn:Ens;
      cbn [negb andb].
    + destruct (snd (TypeNamespaceAndName attribute)
                  =? "ContractVersionAttribute")%string eqn:Ecv;
        cbn [orb]; [now rewrite Ecv | ].
      destruct (snd (TypeNamespaceAndName attribute)
                  =? "VersionAttribute")%string eqn:Ev;
        [now rewrite Ecv | exact IH].
    + exact IH.
Qed.

(** X7.  [get_version] reads the first attribute of the metadata
    namespace that is a contract version (argument 1) or a version
    (argument 0) and splits its 32-bit value into major and minor:
    both are below 65536 and, for a value below 2^32,
    [major * 65536 + minor] is the value.  A type without such an
    attribute has version (0, 0). *)
Theorem get_version_words (type : TypeDef) :
  (forall major minor,
      get_version c type = Ok (major, minor) ->
      (major < 65536)%N /\ (minor < 65536)%N) /\
  (List.find is_version_attribute (CustomAttribute c type) = None ->
   get_version c type = Ok (0%N, 0%N)) /\
  (forall attribute version,
      List.find is_version_attribute (CustomAttribute c type)
        = Some attribute ->
      get_attribute_value as_uint32 attribute
        (if (snd (TypeNamespaceAndName attribute)
               =? "ContractVersionAttribute")%string
         then 1 else 0) = Ok version ->
      (version < 2 ^ 32)%N ->
      exists major minor,
        get_version c type = Ok (major, minor) /\
        (major * 65536 + minor = version)%N).
Proof.
  rewrite (@get_version_from (CustomAttribute c type) type eq_refl).
  split; [ | split].
  - intros major minor H.
    assert (Hwords : forall v, (HIWORD v < 65536)%N /\ (LOWORD v < 65536)%N).
    { intros v. rewrite HIWORD_div, LOWORD_mod.
      split; apply N.mod_upper_bound; discriminate. }
    destruct (List.find is_version_attribute (CustomAttribute c type)).
    + bind_inv H. injection H as <- <-. apply Hwords.
    + injection H as <- <-. split; reflexivity.
  - intros ->. reflexivity.
  - intros attribute version -> Hvalue Hsmall. rewrite Hvalue. simpl.
    do 2 eexists. split; [reflexivity | ].
    rewrite HIWORD_div, LOWORD_mod.
    rewrite N.mod_small.
    + rewrite N.mul_comm. symmetry. apply N.div_mod. discriminate.
    + apply N.Div0.div_lt_upper_bound. exact Hsmall.
Qed.

End Versions.

Lemma get_version_words_witness :
  exists major minor,
    get_version (table_cache versioned_table) (TypeDef_row 1)
      = Ok (major, minor) /\
    (major * 65536 + minor = 196613)%N.
Proof.
  apply (proj2 (proj2 (get_version_words (table_cache versioned_table)
                         (TypeDef_row 1)))
           (metadata_attribute "ContractVersionAttribute"
              [FixedArg_ElemSig (Elem_SystemType "App.Contract");
               FixedArg_ElemSig (Elem_uint32 196613)])).
  - reflexivity.
  - reflexivity.
  - reflexivity.
Defined.

(** ** Base classes *)

Section BaseClasses.

Variable c : cache.

Lemma get_bases_loop_chain (fuel : nat) :
  forall base bases result,
    get_bases_loop c fuel base bases = Ok result ->
    exists tail,
      result = (bases ++ tail)%list /\
      match base with
      | None => tail = []
      | Some b => exists rest, tail = b :: rest /\ base_chain c b rest
      end.
Proof.
  induction fuel as [ | fuel IH]; intros base bases result H;
    destruct base as [b | ]; simpl in H; try discriminate.
  - injection H as <-. exists []. now rewrite List.app_nil_r.
  - bind_inv H. destruct (IH _ _ _ H) as (tail & -> & Htail).
    exists (b :: tail). rewrite <- List.app_assoc. split; [reflexivity | ].
    exists tail. split; [reflexivity | ].
    destruct a as [next | ].
    + destruct Htail as (rest & -> & Hrest). simpl. auto.
    + subst tail. exact Ha.
  - injection H as <-. exists []. now rewrite List.app_nil_r.
Qed.

Lemma get_bases_loop_of_chain (bases : list TypeDef) :
  forall fuel b acc,
    base_chain c b bases ->
    List.length bases < fuel ->
    get_bases_loop c fuel (Some b) acc = Ok (acc ++ b :: bases)%list.
Proof.
  induction bases as [ | next rest IH]; intros fuel b acc Hchain Hfuel;
    (destruct fuel as [ | fuel]; [simpl in Hfuel; lia | ]); simpl in *.
  - rewrite Hchain. simpl. now destruct fuel.
  - destruct Hchain as [Hnext Hrest]. rewrite Hnext. simpl.
    rewrite (IH fuel next (acc ++ [b])%list Hrest) by lia.
    now rewrite <- List.app_assoc.
Qed.

(** X8.  [get_bases] returns exactly the chain of base classes: the
    first is the base class of the type, each next one the base class
    of the one before, and the last has no base class (or derives from
    [System.Object]).  Conversely such a chain is returned as soon as
    the fuel covers its length. *)
Theorem get_bases_is_the_base_chain (type : TypeDef) (bases : list TypeDef) :
  (forall fuel, get_bases c fuel type = Ok bases -> base_chain c type bases) /\
  (forall fuel,
      base_chain c type bases -> List.length bases <= fuel ->
      get_bases c fuel type = Ok bases).
Proof.
  split.
  - intros fuel H. unfold get_bases in H. bind_inv H.
    apply get_bases_loop_chain in H. destruct H as (tail & -> & Htail).
    destruct a as [b | ].
    + destruct Htail as (rest & -> & Hrest). simpl. auto.
    + subst tail. exact Ha.
  - intros fuel Hchain Hfuel. unfold get_bases.
    destruct bases as [ | b rest]; simpl in Hchain.
    + rewrite Hchain. simpl. now destruct fuel.
    + destruct Hchain as [Hb Hrest]. rewrite Hb. simpl.
      simpl in Hfuel.
      now rewrite (@get_bases_loop_of_chain rest fuel b [] Hrest) by lia.
Qed.

End BaseClasses.

Lemma get_bases_is_the_base_chain_witness :
  get_bases (table_cache widget_table) 1 Widget = Ok [TypeDef_row 1].
Proof.
  apply (proj2 (get_bases_is_the_base_chain (table_cache widget_table) Widget
                  [TypeDef_row 1])).
  - split; reflexivity.
  - simpl. lia.
Defined.

(** ** Fast-ABI slot count *)

Lemma get_bases_chain (c : cache) fuel type bases :
  get_bases c fuel type = Ok bases -> base_chain c type bases.
Proof.
  intros H. unfold get_bases in H. bind_inv H.
  apply get_bases_loop_chain in H. destruct H as (tail & -> & Htail).
  destruct a as [b | ].
  - destruct Htail as (rest & -> & Hrest). simpl. auto.
  - subst tail. exact Ha.
Qed.

Lemma base_chain_unique (c : cache) :
  forall bases type bases',
    base_chain c type bases -> base_chain c type bases' -> bases = bases'.
Proof.
  induction bases as [ | b rest IH]; intros type [ | b' rest']; simpl.
  - reflexivity.
  - intros H [H' _]. congruence.
  - intros [H _] H'. congruence.
  - intros [H Hrest] [H' Hrest'].
    assert (b' = b) by congruence. subst b'.
    f_equal. eapply IH; eassumption.
Qed.

Lemma get_interfaces_reads_bases (c : cache) settings fuel w type interfaces :
  get_interfaces c settings fuel w type = Ok interfaces ->
  exists bases, get_bases c fuel type = Ok bases.
Proof.
  unfold get_interfaces. intros H. bind_inv H.
  apply get_interfaces_walk_inv in Ha.
  destruct Ha as (own & bases & _ & Hbases & _). eauto.
Qed.

(** The scenario's walk and ordering, for any metadata of its shape. *)
Lemma three_exclusive_leaves (c : cache) settings fuel w type e_1_0 e_1_2 e_1_1
    I_1_0 I_1_2 I_1_1 enabled :
  has_fastabi c settings type = true ->
  get_base_class c type = Ok None ->
  InterfaceImpl c type = [e_1_0; e_1_2; e_1_1] ->
  exclusive_leaf c e_1_0 I_1_0 (1, 0)%N enabled ->
  exclusive_leaf c e_1_2 I_1_2 (1, 2)%N enabled ->
  exclusive_leaf c e_1_1 I_1_1 (1, 1)%N enabled ->
  write_temp c (walk_writer w) (Interface e_1_0) <>
    write_temp c (walk_writer w) (Interface e_1_2) ->
  write_temp c (walk_writer w) (Interface e_1_0) <>
    write_temp c (walk_writer w) (Interface e_1_1) ->
  write_temp c (walk_writer w) (Interface e_1_2) <>
    write_temp c (walk_writer w) (Interface e_1_1) ->
  get_interfaces c settings (S (S fuel)) w type =
    Ok (List.map set_fastabi
          (default_first
             [exclusive_leaf_entry
                (write_temp c (walk_writer w) (Interface e_1_0)) I_1_0
                (has_attribute c e_1_0 "Windows.Foundation.Metadata"
                               "DefaultAttribute") (1, 0)%N;
              exclusive_leaf_entry
                (write_temp c (walk_writer w) (Interface e_1_1)) I_1_1
                (has_attribute c e_1_1 "Windows.Foundation.Metadata"
                               "DefaultAttribute") (1, 1)%N;
              exclusive_leaf_entry
                (write_temp c (walk_writer w) (Interface e_1_2)) I_1_2
                (has_attribute c e_1_2 "Windows.Foundation.Metadata"
                               "DefaultAttribute") (1, 2)%N])).
Proof.
  intros Hfast Hbase Himpl (Hr1 & Hl1 & Hv1 & Hx1 & Ho1 & Hen1)
         (Hr2 & Hl2 & Hv2 & Hx2 & Ho2 & Hen2)
         (Hr3 & Hl3 & Hv3 & Hx3 & Ho3 & Hen3).
  set (n1 := write_temp c (walk_writer w) (Interface e_1_0)).
  set (n2 := write_temp c (walk_writer w) (Interface e_1_2)).
  set (n3 := write_temp c (walk_writer w) (Interface e_1_1)).
  set (d1 := has_attribute c e_1_0 "Windows.Foundation.Metadata"
                           "DefaultAttribute").
  set (d2 := has_attribute c e_1_2 "Windows.Foundation.Metadata"
                           "DefaultAttribute").
  set (d3 := has_attribute c e_1_1 "Windows.Foundation.Metadata"
                           "DefaultAttribute").
  intros H12 H13 H23.
  unfold get_interfaces, get_interfaces_walk. fold (walk_writer w).
  rewrite Himpl, (get_interfaces_impl_S c (S fuel)).
  cbn [for_each bind].
  rewrite (@leaf_visit c _ _ _ _ _ _ _ [] I_1_0 _ eq_refl Hr1 Hv1)
    by (rewrite Hl1; reflexivity).
  cbn [bind app].
  rewrite (@leaf_visit c _ _ _ _ _ _ _ _ I_1_2 (1, 2)%N);
    [ | | assumption | assumption | ].
  2:{ simpl. fold n1 n2. destruct (String.eqb_spec n1 n2); congruence. }
  2:{ rewrite Hl2; reflexivity. }
  cbn [bind app].
  rewrite (@leaf_visit c _ _ _ _ _ _ _ _ I_1_1 (1, 1)%N);
    [ | | assumption | assumption | ].
  2:{ simpl. fold n1 n2 n3. destruct (String.eqb_spec n1 n3); [congruence | ].
      destruct (String.eqb_spec n2 n3); congruence. }
  2:{ rewrite Hl3; reflexivity. }
  cbn [bind app]. unfold get_bases. rewrite Hbase.
  cbn [bind get_bases_loop for_each]. rewrite Hfast.
  cbn [negb]. rewrite Hx1, Hx2, Hx3, Ho1, Ho2, Ho3.
  fold n1 n2 n3 d1 d2 d3. cbn [negb andb orb].
  unfold fastabi_order, count_if, fastabi_candidate.
  cbn [List.filter snd fst interface_info.exclusive interface_info.base
       interface_info.overridable negb andb List.length].
  clearbody n1 n2 n3 d1 d2 d3.
  destruct d1, d2, d3, enabled;
    cbn [partial_sort select_min bind];
    repeat (unfold fastabi_less at 1;
            cbn [snd fst interface_info.type interface_info.base
                 interface_info.is_default interface_info.overridable
                 interface_info.exclusive interface_info.version
                 Bool.eqb negb];
            rewrite ?Hen1, ?Hen2, ?Hen3;
            cbn [bind Bool.eqb negb pair_eqb pair_ltb fst snd N.eqb N.ltb
                 N.compare Pos.eqb Pos.compare Pos.compare_cont andb orb
                 partial_sort select_min]);
    reflexivity.
Qed.

(** C4 (as amended).  For a type with fast-ABI layout the slot count
    is 6, plus the number of base classes (the length of the chain
    from the type's base class up to the class that has none), plus
    the method counts of the leading entries of [get_interfaces] that
    have [fastabi] set, up to the first entry that has not (as a
    [std::size_t], so exactly that sum whenever it is representable).
    For a class with no base class and three edges to exclusive,
    non-overridable interfaces of versions 1.0, 1.2 and 1.1 that
    require nothing and have the same feature state, all three
    entries are fast-ABI and the count is 6 + 0 + the methods of the
    three.  Their order is by version, 1.0, 1.1, 1.2, within the
    edges marked default and within the others, and the ones marked
    default come first: 1.0, 1.1, 1.2 when neither of the later
    versions is marked default, but 1.2, 1.0, 1.1 when only the edge
    to version 1.2 is. *)
Theorem fastabi_slot_count :
  (forall c settings fuel w type bases interfaces,
      has_fastabi c settings type = true ->
      base_chain c type bases ->
      get_interfaces c settings fuel w type = Ok interfaces ->
      let total :=
        (6 + N.of_nat (List.length bases) +
         sum_N (List.map (method_count c) (fastabi_prefix interfaces)))%N in
      get_bases c fuel type = Ok bases /\
      get_fastabi_size c settings fuel w type = Ok (total mod size_t_modulus)%N /\
      ((total < size_t_modulus)%N ->
       get_fastabi_size c settings fuel w type = Ok total)) /\
  (forall c settings fuel w type e_1_0 e_1_2 e_1_1 I_1_0 I_1_2 I_1_1 enabled,
      has_fastabi c settings type = true ->
      get_base_class c type = Ok None ->
      InterfaceImpl c type = [e_1_0; e_1_2; e_1_1] ->
      exclusive_leaf c e_1_0 I_1_0 (1, 0)%N enabled ->
      exclusive_leaf c e_1_2 I_1_2 (1, 2)%N enabled ->
      exclusive_leaf c e_1_1 I_1_1 (1, 1)%N enabled ->
      let name_1_0 := write_temp c (walk_writer w) (Interface e_1_0) in
      let name_1_2 := write_temp c (walk_writer w) (Interface e_1_2) in
      let name_1_1 := write_temp c (walk_writer w) (Interface e_1_1) in
      let default_1_0 :=
        has_attribute c e_1_0 "Windows.Foundation.Metadata"
                      "DefaultAttribute" in
      let default_1_2 :=
        has_attribute c e_1_2 "Windows.Foundation.Metadata"
                      "DefaultAttribute" in
      let default_1_1 :=
        has_attribute c e_1_1 "Windows.Foundation.Metadata"
                      "DefaultAttribute" in
      name_1_0 <> name_1_2 -> name_1_0 <> name_1_1 -> name_1_2 <> name_1_1 ->
      let interfaces :=
        List.map set_fastabi
          (default_first
             [exclusive_leaf_entry name_1_0 I_1_0 default_1_0 (1, 0)%N;
              exclusive_leaf_entry name_1_1 I_1_1 default_1_1 (1, 1)%N;
              exclusive_leaf_entry name_1_2 I_1_2 default_1_2 (1, 2)%N]) in
      let total :=
        (6 + 0 + (N.of_nat (List.length (MethodList c I_1_0)) +
                  N.of_nat (List.length (MethodList c I_1_1)) +
                  N.of_nat (List.length (MethodList c I_1_2))))%N in
      base_chain c type [] /\
      get_interfaces c settings (S (S fuel)) w type = Ok interfaces /\
      fastabi_prefix interfaces = interfaces /\
      List.length interfaces = 3 /\
      (default_1_2 = false -> default_1_1 = false ->
       List.map entry_summary interfaces =
         [(name_1_0, (1%N, 0%N), true);
          (name_1_1, (1%N, 1%N), true);
          (name_1_2, (1%N, 2%N), true)]) /\
      (default_1_0 = false -> default_1_2 = true -> default_1_1 = false ->
       List.map entry_summary interfaces =
         [(name_1_2, (1%N, 2%N), true);
          (name_1_0, (1%N, 0%N), true);
          (name_1_1, (1%N, 1%N), true)]) /\
      get_fastabi_size c settings (S (S fuel)) w type
        = Ok (total mod size_t_modulus)%N /\
      ((total < size_t_modulus)%N ->
       get_fastabi_size c settings (S (S fuel)) w type = Ok total)).
Proof.
  assert (General :
    forall c settings fuel w type bases interfaces,
      has_fastabi c settings type = true ->
      base_chain c type bases ->
      get_interfaces c settings fuel w type = Ok interfaces ->
      get_bases c fuel type = Ok bases /\
      get_fastabi_size c settings fuel w type =
        Ok ((6 + N.of_nat (List.length bases) +
             sum_N (List.map (method_count c) (fastabi_prefix interfaces)))
              mod size_t_modulus)%N).
  { intros c settings fuel w type bases interfaces Hfast Hchain Hget.
    destruct (@get_interfaces_reads_bases c settings fuel w type interfaces
                                          Hget) as [bases' Hbases].
    assert (bases' = bases).
    { eapply base_chain_unique; [ | exact Hchain].
      eapply get_bases_chain. exact Hbases. }
    subst bases'. split; [exact Hbases | ].
    unfold get_fastabi_size. rewrite Hfast, Hbases, Hget. simpl.
    unfold size_t_add at 1. now rewrite add_fastabi_methods_sum. }
  split.
  - intros c settings fuel w type bases interfaces Hfast Hchain Hget total.
    destruct (General _ _ _ _ _ _ _ Hfast Hchain Hget) as [Hbases H].
    fold total in H. split; [exact Hbases | ]. split; [exact H | ].
    intros Hsmall. now rewrite H, N.mod_small.
  - intros c settings fuel w type e1 e2 e3 I1 I2 I3 enabled Hfast Hbase Himpl
           L1 L2 L3 n1 n2 n3 d1 d2 d3 H12 H13 H23 interfaces total.
    assert (Hget : get_interfaces c settings (S (S fuel)) w type = Ok interfaces)
      by exact (@three_exclusive_leaves c settings fuel w type e1 e2 e3
                  I1 I2 I3 enabled Hfast Hbase Himpl L1 L2 L3 H12 H13 H23).
    assert (Hsize : get_fastabi_size c settings (S (S fuel)) w type
                    = Ok (total mod size_t_modulus)%N).
    { destruct (General c settings (S (S fuel)) w type [] interfaces Hfast Hbase
                        Hget) as [_ ->].
      do 2 f_equal. subst interfaces total. unfold default_first.
      clearbody d1 d2 d3.
      unfold sum_N, method_count.
      destruct d1, d2, d3;
        cbn [List.map List.filter app exclusive_leaf_entry snd fst
             interface_info.is_default interface_info.fastabi
             interface_info.type set_fastabi fastabi_prefix negb
             List.fold_right List.length];
        lia. }
    split; [exact Hbase | ]. split; [exact Hget | ].
    subst interfaces. unfold default_first. clearbody d1 d2 d3.
    split; [now destruct d1, d2, d3 | ].
    split; [now destruct d1, d2, d3 | ].
    split; [intros -> ->; now destruct d1 | ].
    split; [intros -> -> ->; reflexivity | ].
    split; [exact Hsize | ].
    intros Hsmall. now rewrite Hsize, N.mod_small.
Qed.

Lemma fastabi_slot_count_witness :
  get_fastabi_size
    (table_cache
       (slider_table true
          [plain_method "get_Value" None; plain_method "put_Value" None]
          [plain_method "Reset" None]
          [plain_method "get_Step" None; plain_method "put_Step" None;
           plain_method "Snap" None]))
    default_settings 2 fresh_writer Slider = Ok 12%N /\
  get_bases (table_cache dial_table) 2 Dial = Ok [TypeDef_row 1] /\
  get_fastabi_size (table_cache dial_table) default_settings 2 fresh_writer
                   Dial = Ok 9%N.
Proof.
  split.
  - refine (proj2 (proj2 (proj2 (proj2 (proj2 (proj2 (proj2
             (proj2 fastabi_slot_count
                (table_cache
                   (slider_table true
                      [plain_method "get_Value" None;
                       plain_method "put_Value" None]
                      [plain_method "Reset" None]
                      [plain_method "get_Step" None;
                       plain_method "put_Step" None;
                       plain_method "Snap" None]))
                default_settings 0 fresh_writer Slider
                (implements ["DefaultAttribute"] (type_ref "App" "ISlider"))
                (implements [] (type_ref "App" "ISlider2"))
                (implements [] (type_ref "App" "ISlider3"))
                (TypeDef_row 1) (TypeDef_row 2) (TypeDef_row 3) true
                eq_refl eq_refl eq_refl _ _ _ _ _ _))))))) _);
      first [ discriminate
            | reflexivity
            | split; [right; eexists; split; reflexivity | repeat split] ].
  - destruct (proj1 fastabi_slot_count (table_cache dial_table)
                default_settings 2 fresh_writer Dial [TypeDef_row 1] _
                eq_refl (conj eq_refl eq_refl) eq_refl)
      as (Hbases & _ & Hsize).
    split; [exact Hbases | ]. apply Hsize. reflexivity.
Defined.

(** C4, as stated, fails.  [Slider] here has no base class and three
    exclusive, non-overridable interfaces of versions 1.0, 1.2 and
    1.1; the edge to the one of version 1.2 is marked default.  All
    three entries are fast-ABI, but their order is 1.2, 1.0, 1.1: the
    comparator looks at the default marker before the version. *)
Lemma fastabi_default_before_version :
  let c := table_cache slider_default_1_2_table in
  exists entries interfaces,
    get_bases c 2 Slider = Ok [] /\
    get_interfaces_walk c 2 fresh_writer Slider = Ok entries /\
    List.map (fun entry =>
                (fst entry, interface_info.version (snd entry),
                 interface_info.exclusive (snd entry),
                 interface_info.overridable (snd entry),
                 interface_info.base (snd entry))) entries =
      [("App.ISlider", (1%N, 0%N), true, false, false);
       ("App.ISlider2", (1%N, 2%N), true, false, false);
       ("App.ISlider3", (1%N, 1%N), true, false, false)] /\
    get_interfaces c default_settings 2 fresh_writer Slider = Ok interfaces /\
    List.map entry_summary interfaces =
      [("App.ISlider2", (1%N, 2%N), true);
       ("App.ISlider", (1%N, 0%N), true);
       ("App.ISlider3", (1%N, 1%N), true)] /\
    List.map (fun entry => interface_info.version (snd entry)) interfaces <>
      [(1%N, 0%N); (1%N, 1%N); (1%N, 2%N)] /\
    get_fastabi_size c default_settings 2 fresh_writer Slider = Ok 6%N.
Proof.
  do 2 eexists. repeat split. discriminate.
Qed.

(** ** Inherited interfaces *)

Section ImplementsInterface.

Variable c : cache.

Lemma implements_interface_along_chain (bases : list TypeDef) (name : string) :
  forall fuel type,
    base_chain c type bases ->
    List.length bases <= fuel ->
    implements_interface c (S fuel) type name =
      Ok (List.existsb (fun t => implements_directly c t name) (type :: bases)).
Proof.
  induction bases as [ | base rest IH]; intros fuel type Hchain Hfuel;
    simpl in Hchain; cbn [implements_interface List.existsb].
  - destruct (implements_directly c type name); [reflexivity | ].
    now rewrite Hchain.
  - destruct Hchain as [Hbase Hrest].
    destruct (implements_directly c type name); [reflexivity | ].
    rewrite Hbase. cbn [bind orb].
    destruct fuel as [ | fuel]; [simpl in Hfuel; lia | ].
    apply IH; [exact Hrest | simpl in Hfuel; lia].
Qed.

(** X9.  [implements_interface] answers [true] as soon as the type
    itself has a non-generic interface of that name, without looking
    at the base class; an interface given as a generic instantiation
    never counts.  Along a chain of base classes the answer is whether
    the type or one of its base classes has the interface directly. *)
Theorem implements_interface_inherited (type : TypeDef) (name : string) :
  (forall fuel,
      implements_directly c type name = true ->
      implements_interface c (S fuel) type name = Ok true) /\
  ((forall impl, In impl (InterfaceImpl c type) ->
       exists signature, Interface impl = TypeDefOrRef_TypeSpec signature) ->
   implements_directly c type name = false) /\
  (forall fuel bases,
      base_chain c type bases ->
      List.length bases <= fuel ->
      implements_interface c (S fuel) type name =
        Ok (List.existsb (fun t => implements_directly c t name)
                         (type :: bases))).
Proof.
  split; [ | split].
  - intros fuel H. simpl. now rewrite H.
  - intros H. unfold implements_directly.
    induction (InterfaceImpl c type) as [ | impl impls IH]; [reflexivity | ].
    simpl. destruct (H impl (or_introl eq_refl)) as [signature ->]. simpl.
    apply IH. intros impl' Hin. apply H. now right.
  - intros fuel bases. apply implements_interface_along_chain.
Qed.

End ImplementsInterface.

Lemma implements_interface_inherited_witness :
  implements_interface (table_cache widget_table) 2 Widget "App.IControl"
    = Ok true /\
  implements_directly (table_cache widget_table) Widget "App.IControl" = false /\
  implements_directly (table_cache bag_table) (TypeDef_row 0)
    "Windows.Foundation.Collections.IVector`1" = false.
Proof.
  split; [ | split].
  - apply (proj2 (proj2 (implements_interface_inherited
                           (table_cache widget_table) Widget "App.IControl"))
             1 [TypeDef_row 1]).
    + split; reflexivity.
    + simpl. lia.
  - reflexivity.
  - apply (proj1 (proj2 (implements_interface_inherited
                           (table_cache bag_table) (TypeDef_row 0)
                           "Windows.Foundation.Collections.IVector`1"))).
    intros impl [<- | []]. eexists. reflexivity.
Defined.

(** ** More on the result vector *)

(** X10.  Looking a name up after [insert_or_assign] gives the entry
    just stored, every other name is found as before, and the vector
    grows by one entry exactly when the name was not there. *)
Theorem insert_or_assign_then_find (interfaces : get_interfaces_t)
    (name : string) (info : interface_info.t) :
  find (insert_or_assign interfaces name info) name = Some info /\
  (forall other,
      other <> name ->
      find (insert_or_assign interfaces name info) other
        = find interfaces other) /\
  List.length (insert_or_assign interfaces name info) =
    match find interfaces name with
    | Some _ => List.length interfaces
    | None => S (List.length interfaces)
    end.
Proof.
  split; [apply find_insert_or_assign_same | ].
  split; [intros other; apply find_insert_or_assign_other | ].
  rewrite <- !(List.length_map fst), keys_insert_or_assign.
  destruct (find interfaces name); [reflexivity | ].
  rewrite List.length_app. simpl. lia.
Qed.

Lemma insert_or_assign_then_find_witness :
  find (insert_or_assign [("App.IWidget", plain_entry (TypeDef_row 2))]
                         "App.IControl" (plain_entry (TypeDef_row 3)))
       "App.IWidget" = Some (plain_entry (TypeDef_row 2)).
Proof.
  rewrite (proj1 (proj2 (insert_or_assign_then_find
                           [("App.IWidget", plain_entry (TypeDef_row 2))]
                           "App.IControl" (plain_entry (TypeDef_row 3))))
             "App.IWidget").
  - reflexivity.
  - discriminate.
Defined.

Section ClosureKeys.

Variable c : cache.

Lemma get_interfaces_impl_keys fuel w result defaulted overridable base stack
    children result' :
  get_interfaces_impl c fuel w result defaulted overridable base stack children
    = Ok result' ->
  exists added,
    List.map fst result' = (List.map fst result ++ added)%list.
Proof.
  apply (@get_interfaces_impl_invariant c
           (fun _ r r' =>
              exists added, List.map fst r' = (List.map fst r ++ added)%list)).
  - intros _ r. exists []. now rewrite List.app_nil_r.
  - intros _ r1 r2 r3 [a1 H1] [a2 H2]. exists (a1 ++ a2)%list.
    now rewrite H2, H1, List.app_assoc.
  - intros _ r r1 name info _ _ _ _ [a1 H1].
    rewrite keys_insert_or_assign. destruct (find r1 name).
    + eauto.
    + exists (a1 ++ [name])%list. now rewrite H1, List.app_assoc.
Qed.

Lemma visit_as_call fuel w defaulted overridable base stack impl result :
  visit c (get_interfaces_impl c fuel) w defaulted overridable base stack impl
        result =
  get_interfaces_impl c (S fuel) w result defaulted overridable base stack
                      [impl].
Proof.
  rewrite get_interfaces_impl_S. simpl.
  destruct (visit c (get_interfaces_impl c fuel) w defaulted overridable base
                  stack impl result); reflexivity.
Qed.

Lemma get_interfaces_impl_covers fuel w defaulted overridable base stack
    children :
  forall result result',
    get_interfaces_impl c fuel w result defaulted overridable base stack
                        children = Ok result' ->
    forall impl,
      In impl children ->
      In (write_temp c w (Interface impl)) (List.map fst result').
Proof.
  destruct fuel as [ | fuel]; [discriminate | ].
  induction children as [ | a rest IH]; intros result result' H impl Hin;
    [destruct Hin | ].
  rewrite get_interfaces_impl_S in H. simpl in H. bind_inv H.
  rewrite <- get_interfaces_impl_S in H.
  destruct Hin as [-> | Hin]; [ | eapply IH; eassumption].
  apply get_interfaces_impl_keys in H. destruct H as [added ->].
  apply List.in_or_app. left.
  apply visit_inv in Ha.
  destruct Ha as [[Hcap ->] | (_ & info_type & info_stack & guard & r1 & info &
                               _ & _ & -> & _)].
  - unfold already_captured in Hcap.
    destruct (find result (write_temp c w (Interface impl))) eqn:E;
      [ | discriminate].
    apply find_In in E. apply (List.in_map fst) in E. exact E.
  - pose proof (find_insert_or_assign_same r1 (write_temp c w (Interface impl))
                  info) as E.
    apply find_In in E. apply (List.in_map fst) in E. exact E.
Qed.

(** X11.  A call of [get_interfaces_impl] never removes or reorders
    what is in the result: the names it returns are the names it was
    given, in the same order, followed by the new ones.  And it leaves
    no edge out: the name of every edge it is given is in the result
    it returns. *)
Theorem walk_keeps_order_and_covers_edges fuel w result defaulted overridable
    base stack children result' :
  get_interfaces_impl c fuel w result defaulted overridable base stack children
    = Ok result' ->
  (exists added,
      List.map fst result' = (List.map fst result ++ added)%list) /\
  (forall impl,
      In impl children ->
      In (write_temp c w (Interface impl)) (List.map fst result')).
Proof.
  intros H. split.
  - eapply get_interfaces_impl_keys. eassumption.
  - eapply get_interfaces_impl_covers. eassumption.
Qed.

End ClosureKeys.

Lemma walk_keeps_order_and_covers_edges_witness :
  exists result',
    get_interfaces_impl (table_cache bag_table) 3 fresh_writer [] false false
      false [] (InterfaceImpl (table_cache bag_table) (TypeDef_row 0))
    = Ok result' /\
    In "Windows.Foundation.Collections.IVector`1<String>"
       (List.map fst result').
Proof.
  eexists. split; [reflexivity | ].
  apply (proj2 (walk_keeps_order_and_covers_edges
                  (table_cache bag_table) 3 fresh_writer [] false false false []
                  (InterfaceImpl (table_cache bag_table) (TypeDef_row 0))
                  eq_refl)
           (implements ["DefaultAttribute"]
              (generic_instance "Windows.Foundation.Collections" "IVector`1"
                 [Build_TypeSig false (Type_ElementType ElementType.String)]))).
  left. reflexivity.
Defined.

(** ** The result of [get_interfaces] as a whole *)

Lemma In_for_each_n {A : Type} (f : A -> A) (n : nat) :
  forall (l : list A) x,
    In x l -> In x (for_each_n n f l) \/ In (f x) (for_each_n n f l).
Proof.
  induction n as [ | n IH]; intros l x Hin; [now left | ].
  destruct l as [ | a l]; [destruct Hin | ]. simpl.
  destruct Hin as [-> | Hin]; [right; now left | ].
  destruct (IH l x Hin); [left | right]; now right.
Qed.

Lemma count_if_le_length {A : Type} (p : A -> bool) (l : list A) :
  count_if p l <= List.length l.
Proof.
  unfold count_if. apply List.filter_length_le.
Qed.

Lemma count_if_for_each_n_set_fastabi (n : nat) :
  forall l : get_interfaces_t,
    Forall (fun entry => interface_info.fastabi (snd entry) = false) l ->
    n <= List.length l ->
    count_if (fun entry => interface_info.fastabi (snd entry))
             (for_each_n n set_fastabi l) = n /\
    List.length (fastabi_prefix (for_each_n n set_fastabi l)) = n.
Proof.
  unfold count_if.
  induction n as [ | n IH]; intros l Hclear Hlen.
  - clear Hlen. simpl. split.
    + induction Hclear as [ | x l Hx _ IHl]; simpl; [reflexivity | ].
      rewrite Hx. exact IHl.
    + destruct Hclear as [ | x l Hx _]; simpl; [reflexivity | ].
      now rewrite Hx.
  - destruct l as [ | x l]; simpl in Hlen; [lia | ].
    inversion Hclear as [ | x' l' Hx Hl]; subst. simpl.
    destruct (IH l) as [Hcount Hprefix]; [assumption | lia | ].
    now rewrite Hcount, Hprefix.
Qed.

Section WholeResult.

Variable c : cache.
Variable settings : settings_type.

Lemma get_interfaces_inv fuel w type result :
  get_interfaces c settings fuel w type = Ok result ->
  exists entries,
    get_interfaces_walk c fuel w type = Ok entries /\
    Forall (fun entry => interface_info.fastabi (snd entry) = false) entries /\
    ((has_fastabi c settings type = false /\ result = entries) \/
     (has_fastabi c settings type = true /\
      exists sorted,
        Permutation entries sorted /\
        result = for_each_n (count_if fastabi_candidate entries) set_fastabi
                            sorted)).
Proof.
  unfold get_interfaces. intros H. bind_inv H. exists a.
  split; [exact Ha | ].
  split; [eapply get_interfaces_walk_fastabi; eassumption | ].
  destruct (has_fastabi c settings type); simpl in H.
  - right. split; [reflexivity | ].
    apply fastabi_order_inv in H. destruct H as (sorted & Hsort & ->).
    exists sorted. split; [ | reflexivity].
    eapply partial_sort_Permutation. eassumption.
  - left. injection H as <-. auto.
Qed.

Lemma base_walks_cover fuel w bases :
  forall result result',
    for_each
      (fun base result =>
         get_interfaces_impl c fuel w result false false true []
                             (InterfaceImpl c base))
      bases result = Ok result' ->
    forall base impl,
      In base bases -> In impl (InterfaceImpl c base) ->
      In (write_temp c w (Interface impl)) (List.map fst result').
Proof.
  induction bases as [ | b rest IH]; intros result result' H base impl Hb Hi;
    [destruct Hb | ].
  simpl in H. bind_inv H. destruct Hb as [-> | Hb].
  - apply base_walks_append in H. destruct H as (inherited & -> & _).
    rewrite List.map_app. apply List.in_or_app. left.
    eapply get_interfaces_impl_covers; eassumption.
  - eapply IH; eassumption.
Qed.

(** X12.  The closure leaves no declared interface out: the result of
    [get_interfaces] has an entry under the rendered name of every
    interface implementation of the type itself and of each of its
    base classes. *)
Theorem closure_contains_declared_interfaces fuel w type result :
  get_interfaces c settings fuel w type = Ok result ->
  (forall impl,
      In impl (InterfaceImpl c type) ->
      In (write_temp c (walk_writer w) (Interface impl))
         (List.map fst result)) /\
  (forall bases base impl,
      get_bases c fuel type = Ok bases ->
      In base bases -> In impl (InterfaceImpl c base) ->
      In (write_temp c (walk_writer w) (Interface impl))
         (List.map fst result)).
Proof.
  intros H. apply get_interfaces_inv in H.
  destruct H as (entries & Hwalk & _ & Hresult).
  assert (Hkeys : Permutation (List.map fst entries) (List.map fst result)).
  { destruct Hresult as [[_ ->] | (_ & sorted & Hperm & ->)];
      [apply Permutation_refl | ].
    rewrite keys_for_each_n. now apply Permutation_map. }
  apply get_interfaces_walk_inv in Hwalk.
  destruct Hwalk as (own & bases & Hown & Hbases & Hfor).
  split.
  - intros impl Hin. eapply Permutation_in; [exact Hkeys | ].
    apply base_walks_append in Hfor. destruct Hfor as (inherited & -> & _).
    rewrite List.map_app. apply List.in_or_app. left.
    eapply get_interfaces_impl_covers; eassumption.
  - intros bases' base impl Hbases' Hb Hi.
    eapply Permutation_in; [exact Hkeys | ].
    assert (bases' = bases) by congruence. subst bases'.
    eapply base_walks_cover; eassumption.
Qed.

(** X13.  In the result of [get_interfaces] the entries marked
    [fastabi] come first: no marked entry follows an unmarked one.
    Their number is 0 for a type without fast-ABI layout and otherwise
    the number of exclusive, non-base, non-overridable entries, also
    when a marked entry is not itself one of those. *)
Theorem fastabi_entries_lead fuel w type result :
  get_interfaces c settings fuel w type = Ok result ->
  (forall i j x y,
      i < j ->
      nth_error result i = Some x -> nth_error result j = Some y ->
      interface_info.fastabi (snd y) = true ->
      interface_info.fastabi (snd x) = true) /\
  (exists entries,
      get_interfaces_walk c fuel w type = Ok entries /\
      count_if (fun entry => interface_info.fastabi (snd entry)) result =
        (if has_fastabi c settings type
         then count_if fastabi_candidate entries else 0) /\
      List.length (fastabi_prefix result) =
        count_if (fun entry => interface_info.fastabi (snd entry)) result).
Proof.
  intros H. apply get_interfaces_inv in H.
  destruct H as (entries & Hwalk & Hclear & Hresult).
  destruct Hresult as [[Hfast ->] | (Hfast & sorted & Hperm & ->)].
  - split.
    + intros i j x y _ _ Hy Hmarked. apply nth_error_In in Hy.
      rewrite Forall_forall in Hclear. rewrite (Hclear y Hy) in Hmarked.
      discriminate.
    + exists entries. split; [exact Hwalk | ]. rewrite Hfast.
      destruct (@count_if_for_each_n_set_fastabi 0 entries Hclear (Nat.le_0_l _))
        as [H1 H2].
      simpl in H1, H2. now rewrite H1, H2.
  - assert (Hsorted : Forall (fun entry =>
                                interface_info.fastabi (snd entry) = false)
                             sorted)
      by (eapply Permutation_Forall; eassumption).
    split.
    + intros i j x y Hij Hx Hy Hmarked.
      apply nth_error_for_each_n in Hx, Hy.
      destruct Hy as [[Hj _] | [Hj Hy]].
      * destruct Hx as [[_ (x0 & _ & ->)] | [Hi _]]; [reflexivity | lia].
      * apply nth_error_In in Hy. rewrite Forall_forall in Hsorted.
        rewrite (Hsorted y Hy) in Hmarked. discriminate.
    + exists entries. split; [exact Hwalk | ]. rewrite Hfast.
      destruct (@count_if_for_each_n_set_fastabi
                  (count_if fastabi_candidate entries) sorted Hsorted)
        as [H1 H2].
      { rewrite <- (Permutation_length Hperm). apply count_if_le_length. }
      now rewrite H1, H2.
Qed.

End WholeResult.

Lemma closure_contains_declared_interfaces_witness :
  exists result,
    get_interfaces (table_cache widget_table) default_settings 2 fresh_writer
                   Widget = Ok result /\
    In "App.IControl" (List.map fst result).
Proof.
  eexists. split; [reflexivity | ].
  apply (proj2 (closure_contains_declared_interfaces
                  (table_cache widget_table) default_settings 2 fresh_writer
                  Widget eq_refl)
           [TypeDef_row 1] (TypeDef_row 1)
           (implements ["DefaultAttribute"] (type_ref "App" "IControl"))).
  - reflexivity.
  - now left.
  - now left.
Defined.

Lemma fastabi_entries_lead_witness :
  exists result,
    get_interfaces (table_cache button_table) default_settings 2 fresh_writer
                   Button = Ok result /\
    List.length (fastabi_prefix result) = 1 /\
    count_if (fun entry => interface_info.fastabi (snd entry)) result = 1.
Proof.
  eexists. split; [reflexivity | ].
  destruct (proj2 (fastabi_entries_lead (table_cache button_table)
                     default_settings 2 fresh_writer Button eq_refl))
    as (entries & Hwalk & Hcount & Hprefix).
  injection Hwalk as <-. rewrite Hprefix. split; exact Hcount.
Defined.

(** ** Tear-offs and sizes *)

Lemma first_tearoff_true interfaces :
  first_tearoff interfaces = true ->
  exists entry,
    In entry interfaces /\
    interface_info.is_default (snd entry) = false /\
    interface_info.fastabi (snd entry) = true.
Proof.
  induction interfaces as [ | [name info] rest IH]; simpl; [discriminate | ].
  destruct (interface_info.is_default info) eqn:Hdefault; intros H.
  - destruct (IH H) as (entry & Hin & Hentry). exists entry. split;
      [now right | exact Hentry].
  - exists (name, info). split; [now left | now split].
Qed.

Lemma count_if_pos {A : Type} (p : A -> bool) (l : list A) :
  0 < count_if p l -> exists x, In x l /\ p x = true.
Proof.
  unfold count_if. intros H.
  destruct (List.filter p l) as [ | x rest] eqn:E; [simpl in H; lia | ].
  exists x. apply List.filter_In. rewrite E. now left.
Qed.

Section TearOffs.

Variable c : cache.
Variable settings : settings_type.

(** X14.  Fast-ABI is all or nothing for a type.  Without the layout
    (the setting is off or the type lacks [FastAbiAttribute])
    [get_interfaces] is the walk alone, no entry is marked,
    [has_fastabi_tearoffs] is false and [get_fastabi_size] is 0 without
    reading any metadata.  [has_fastabi_tearoffs] can be true only
    with the layout, and then the result has a marked entry that is
    not the default interface and the walk found an exclusive,
    non-base, non-overridable interface. *)
Theorem fastabi_all_or_nothing fuel w type :
  (has_fastabi c settings type = false ->
   get_interfaces c settings fuel w type = get_interfaces_walk c fuel w type /\
   get_fastabi_size c settings fuel w type = Ok 0%N /\
   (forall result,
       get_interfaces c settings fuel w type = Ok result ->
       Forall (fun entry => interface_info.fastabi (snd entry) = false)
              result /\
       has_fastabi_tearoffs c settings fuel w type = Ok false)) /\
  (has_fastabi_tearoffs c settings fuel w type = Ok true ->
   has_fastabi c settings type = true /\
   exists result entries,
     get_interfaces c settings fuel w type = Ok result /\
     get_interfaces_walk c fuel w type = Ok entries /\
     (exists entry,
         In entry result /\
         interface_info.is_default (snd entry) = false /\
         interface_info.fastabi (snd entry) = true) /\
     (exists entry, In entry entries /\ fastabi_candidate entry = true)).
Proof.
  assert (Hplain : has_fastabi c settings type = false ->
                   get_interfaces c settings fuel w type =
                     get_interfaces_walk c fuel w type).
  { intros Hfast. unfold get_interfaces. rewrite Hfast. simpl.
    now destruct (get_interfaces_walk c fuel w type). }
  assert (Hclear : has_fastabi c settings type = false ->
                   forall result,
                     get_interfaces c settings fuel w type = Ok result ->
                     Forall (fun entry =>
                               interface_info.fastabi (snd entry) = false)
                            result).
  { intros Hfast result H. rewrite (Hplain Hfast) in H.
    eapply get_interfaces_walk_fastabi. eassumption. }
  split.
  - intros Hfast. split; [exact (Hplain Hfast) | ].
    split; [unfold get_fastabi_size; now rewrite Hfast | ].
    intros result H. split; [exact (Hclear Hfast result H) | ].
    unfold has_fastabi_tearoffs. rewrite H. simpl. f_equal.
    destruct (first_tearoff result) eqn:Htear; [ | reflexivity].
    apply first_tearoff_true in Htear.
    destruct Htear as (entry & Hin & _ & Hmarked).
    pose proof (Hclear Hfast result H) as Hall.
    rewrite Forall_forall in Hall. rewrite (Hall entry Hin) in Hmarked.
    discriminate.
  - unfold has_fastabi_tearoffs. intros H. bind_inv H.
    injection H as Htear. apply first_tearoff_true in Htear.
    destruct Htear as (entry & Hin & Hdefault & Hmarked).
    destruct (has_fastabi c settings type) eqn:Hfast.
    + split; [reflexivity | ].
      pose proof Ha as Hinv. apply get_interfaces_inv in Hinv.
      destruct Hinv as (entries & Hwalk & Hnone & Hresult).
      exists a, entries. split; [exact Ha | ]. split; [exact Hwalk | ].
      split; [now exists entry | ].
      destruct Hresult as [[Hoff _] | (_ & sorted & Hperm & ->)];
        [rewrite Hfast in Hoff; discriminate | ].
      apply count_if_pos.
      destruct (count_if fastabi_candidate entries); [ | lia].
      simpl in Hin. exfalso.
      assert (Hsorted : Forall (fun entry =>
                                  interface_info.fastabi (snd entry) = false)
                               sorted)
        by (eapply Permutation_Forall; eassumption).
      rewrite Forall_forall in Hsorted. rewrite (Hsorted entry Hin) in Hmarked.
      discriminate.
    + exfalso. pose proof (Hclear eq_refl a Ha) as Hall.
      rewrite Forall_forall in Hall. rewrite (Hall entry Hin) in Hmarked.
      discriminate.
Qed.

Lemma get_fastabi_size_of_classes_from fuel w classes :
  forall start m,
    for_each
      (fun type result =>
         size <- get_fastabi_size c settings fuel w type ;;
         Ok (N.max result size))
      classes start = Ok m ->
    (start <= m)%N /\
    (forall type,
        In type classes ->
        exists size,
          get_fastabi_size c settings fuel w type = Ok size /\
          (size <= m)%N) /\
    (m = start \/
     exists type,
       In type classes /\ get_fastabi_size c settings fuel w type = Ok m).
Proof.
  induction classes as [ | type rest IH]; intros start m H; simpl in H.
  - injection H as <-. split; [lia | ]. split; [intros ? [] | now left].
  - bind_inv H. bind_inv Ha. injection Ha as <-.
    apply IH in H. destruct H as (Hle & Hall & Hmax).
    split; [lia | ]. split.
    + intros type' [<- | Hin]; [ | exact (Hall type' Hin)].
      exists a0. split; [assumption | lia].
    + destruct Hmax as [-> | (type' & Hin & Hsize)].
      * destruct (N.max_spec start a0) as [[_ ->] | [_ ->]];
          [right; exists type; split; [now left | assumption] | now left].
      * right. exists type'. split; [now right | assumption].
Qed.

(** X15.  [get_fastabi_size] over several classes is the largest of
    the classes' sizes: when it returns, every class has a size that
    does not exceed the result, and the result is the size of one of
    the classes or 0.  It returns whenever every class has a size. *)
Theorem get_fastabi_size_of_classes_is_max fuel w classes :
  (forall m,
      get_fastabi_size_of_classes c settings fuel w classes = Ok m ->
      (forall type,
          In type classes ->
          exists size,
            get_fastabi_size c settings fuel w type = Ok size /\
            (size <= m)%N) /\
      (m = 0%N \/
       exists type,
         In type classes /\
         get_fastabi_size c settings fuel w type = Ok m)) /\
  ((forall type,
       In type classes ->
       exists size, get_fastabi_size c settings fuel w type = Ok size) ->
   exists m, get_fastabi_size_of_classes c settings fuel w classes = Ok m).
Proof.
  unfold get_fastabi_size_of_classes. split.
  - intros m H. apply get_fastabi_size_of_classes_from in H.
    destruct H as (_ & Hall & Hmax). now split.
  - generalize 0%N. induction classes as [ | type rest IH]; intros start Hall.
    + now exists start.
    + destruct (Hall type (or_introl eq_refl)) as (size & Hsize).
      simpl. rewrite Hsize. simpl. apply IH.
      intros type' Hin. apply Hall. now right.
Qed.

End TearOffs.

Lemma fastabi_all_or_nothing_witness :
  get_fastabi_size (table_cache widget_table) default_settings 2 fresh_writer
                   Widget = Ok 0%N /\
  has_fastabi_tearoffs (table_cache (slider_table true [] [] []))
                       default_settings 2 fresh_writer Slider = Ok true /\
  has_fastabi (table_cache (slider_table true [] [] [])) default_settings
              Slider = true.
Proof.
  split.
  - apply (proj1 (fastabi_all_or_nothing (table_cache widget_table)
                    default_settings 2 fresh_writer Widget)).
    reflexivity.
  - split; [reflexivity | ].
    apply (proj1 (proj2 (fastabi_all_or_nothing
                           (table_cache (slider_table true [] [] []))
                           default_settings 2 fresh_writer Slider)
                    eq_refl)).
Defined.

Lemma get_fastabi_size_of_classes_is_max_witness :
  exists m,
    get_fastabi_size_of_classes (table_cache button_table) default_settings 2
                                fresh_writer [Button; TypeDef_row 1] = Ok m /\
    exists size,
      get_fastabi_size (table_cache button_table) default_settings 2
                       fresh_writer Button = Ok size /\
      (size <= m)%N.
Proof.
  eexists. split; [reflexivity | ].
  apply (proj1 (proj1 (get_fastabi_size_of_classes_is_max
                         (table_cache button_table) default_settings 2
                         fresh_writer [Button; TypeDef_row 1]) _ eq_refl)).
  now left.
Defined.

(** ** Component file names *)

Lemma string_append_assoc (s t u : string) : (s ++ t) ++ u = s ++ (t ++ u).
Proof.
  induction s as [ | a s IH]; simpl; [reflexivity | now rewrite IH].
Qed.

Lemma string_replace_length (s : string) (old new : ascii) :
  String.length (string_replace s old new) = String.length s.
Proof.
  induction s as [ | a s IH]; simpl; [reflexivity | now rewrite IH].
Qed.

Lemma string_replace_removes (s : string) (old new : ascii) :
  old <> new -> find_index (string_replace s old new) old = None.
Proof.
  intros Hne. induction s as [ | a s IH]; simpl; [reflexivity | ].
  rewrite IH. destruct (Ascii.eqb a old) eqn:E.
  - destruct (Ascii.eqb new old) eqn:E'; [ | reflexivity].
    apply Ascii.eqb_eq in E'. congruence.
  - now rewrite E.
Qed.

Lemma string_replace_absent (s : string) (old new : ascii) :
  find_index s old = None -> string_replace s old new = s.
Proof.
  induction s as [ | a s IH]; simpl; [reflexivity | ].
  destruct (Ascii.eqb a old); [discriminate | ].
  destruct (find_index s old); [discriminate | ].
  intros _. now rewrite IH.
Qed.

Section ComponentFiles.

Variable c : cache.
Variable component_name : string.
Variable component_prefix : bool.

(** X16.  [get_component_filename] returns the namespace-dotted name
    of the type with at most the component name and one dot after it
    taken off the front: nothing when the component name is empty or
    the name does not start with it.  [get_generated_component_filename]
    returns a name of the same length, the same name when the
    component prefix is set and otherwise one without any dot, and a
    name without dots is returned as it is. *)
Theorem component_filenames (type : TypeDef) :
  let full := TypeNamespace c type ++ "." ++ TypeName c type in
  let name := get_component_filename c component_name type in
  let generated :=
    get_generated_component_filename c component_name component_prefix type in
  (exists removed,
      full = removed ++ name /\
      (removed = "" \/ removed = component_name \/
       removed = component_name ++ ".")) /\
  (component_name = "" \/ starts_with full component_name = false ->
   name = full) /\
  String.length generated = String.length name /\
  (component_prefix = true -> generated = name) /\
  (component_prefix = false -> find_index generated "."%char = None) /\
  (find_index name "."%char = None -> generated = name).
Proof.
  intros full name generated.
  split; [ | split; [ | split; [ | split; [ | split]]]].
  - subst name. unfold get_component_filename. fold full.
    destruct (negb (component_name =? "") && starts_with full component_name)
      eqn:Hcut; [ | exists ""; split; [reflexivity | now left]].
    apply andb_true_iff in Hcut. destruct Hcut as [_ Hstarts].
    unfold starts_with in Hstarts. apply prefix_split in Hstarts.
    destruct Hstarts as [rest Hrest]. rewrite Hrest.
    rewrite string_length_append, Nat.add_comm, Nat.add_sub, substring_skip.
    destruct (starts_with rest ".") eqn:Hdot.
    + unfold starts_with in Hdot. apply prefix_split in Hdot.
      destruct Hdot as [rest' ->]. exists (component_name ++ ".").
      split; [ | now right; right].
      simpl. rewrite Nat.sub_0_r, substring_all.
      now rewrite string_append_assoc.
    + exists component_name. split; [reflexivity | now right; left].
  - subst name. unfold get_component_filename. fold full.
    intros [-> | ->]; [reflexivity | ].
    now rewrite andb_false_r.
  - subst generated. unfold get_generated_component_filename. fold name.
    destruct (negb component_prefix); [apply string_replace_length | reflexivity].
  - intros ->. reflexivity.
  - intros ->. subst generated. unfold get_generated_component_filename.
    simpl. apply string_replace_removes. discriminate.
  - intros Hplain. subst generated. unfold get_generated_component_filename.
    fold name. destruct (negb component_prefix); [ | reflexivity].
    now apply string_replace_absent.
Qed.

End ComponentFiles.

Lemma component_filenames_witness :
  get_component_filename (table_cache widget_table) "" Widget = "App.Widget" /\
  get_component_filename (table_cache widget_table) "App" Widget = "Widget" /\
  get_generated_component_filename (table_cache widget_table) "" false Widget
    = "App/Widget".
Proof.
  split; [ | split; reflexivity].
  apply (proj1 (proj2 (component_filenames (table_cache widget_table) ""
                         false Widget))).
  now left.
Defined.

(** ** Factories *)

Lemma map_find_assign_same {V : Type} (m : list (string * V)) key (value : V) :
  map_find (map_assign m key value) key = Some value.
Proof.
  induction m as [ | [k v] m IH]; simpl.
  - now rewrite String.eqb_refl.
  - destruct (k =? key)%string eqn:E; simpl.
    + now rewrite String.eqb_refl.
    + destruct (key <? k)%string; simpl.
      * now rewrite String.eqb_refl.
      * now rewrite E.
Qed.

Lemma map_find_assign_other {V : Type} (m : list (string * V)) key key'
    (value : V) :
  key' <> key -> map_find (map_assign m key value) key' = map_find m key'.
Proof.
  intros Hne. assert (Hkey : (key =? key')%string = false)
    by (apply String.eqb_neq; congruence).
  induction m as [ | [k v] m IH]; simpl.
  - now rewrite Hkey.
  - destruct (k =? key)%string eqn:E; simpl.
    + rewrite Hkey. apply String.eqb_eq in E. subst k. now rewrite Hkey.
    + destruct (key <? k)%string; simpl.
      * now rewrite Hkey.
      * now rewrite IH.
Qed.

Lemma map_find_In {V : Type} (m : list (string * V)) key (value : V) :
  map_find m key = Some value -> In (key, value) m.
Proof.
  induction m as [ | [k v] m IH]; simpl; [discriminate | ].
  destruct (k =? key)%string eqn:E.
  - intros [= ->]. apply String.eqb_eq in E. subst k. now left.
  - intros H. right. now apply IH.
Qed.

Lemma In_map_assign {V : Type} (m : list (string * V)) key (value : V) entry :
  In entry (map_assign m key value) -> entry = (key, value) \/ In entry m.
Proof.
  induction m as [ | [k v] m IH]; simpl.
  - intros [<- | []]. now left.
  - destruct (k =? key)%string.
    + intros [<- | H]; [now left | right; now right].
    + destruct (key <? k)%string.
      * intros [<- | H]; [now left | now right].
      * intros [<- | H]; [right; now left | ].
        destruct (IH H); [now left | right; now right].
Qed.

Lemma map_assign_keys_above {V : Type} (m : list (string * V)) key (value : V)
    bound :
  (bound <? key)%string = true ->
  Forall (fun later => (bound <? later)%string = true) (List.map fst m) ->
  Forall (fun later => (bound <? later)%string = true)
         (List.map fst (map_assign m key value)).
Proof.
  intros Hkey. induction m as [ | [k v] m IH]; simpl; intros H.
  - now constructor.
  - inversion H as [ | k' m' Hk Hm]; subst.
    destruct (k =? key)%string; [now constructor | ].
    destruct (key <? k)%string; constructor; auto.
Qed.

Lemma map_assign_ascending {V : Type} (m : list (string * V)) key (value : V) :
  ascending (List.map fst m) ->
  ascending (List.map fst (map_assign m key value)).
Proof.
  induction m as [ | [k v] m IH]; simpl.
  - intros _. split; [constructor | exact I].
  - intros [Habove Hrest]. destruct (k =? key)%string eqn:E.
    + apply String.eqb_eq in E. subst k. simpl. now split.
    + destruct (key <? k)%string eqn:L; simpl.
      * split; [ | now split]. constructor; [exact L | ].
        eapply Forall_impl; [ | exact Habove].
        intros later. now apply string_ltb_trans.
      * split; [ | now apply IH].
        apply map_assign_keys_above; [ | exact Habove].
        apply string_ltb_total; [exact L | ].
        apply String.eqb_neq in E. congruence.
Qed.

Lemma ascending_find {V : Type} (m : list (string * V)) key (value : V) :
  ascending (List.map fst m) -> In (key, value) m ->
  map_find m key = Some value.
Proof.
  induction m as [ | [k v] m IH]; simpl; [intros _ [] | ].
  intros [Habove Hrest] [[= -> ->] | Hin].
  - now rewrite String.eqb_refl.
  - destruct (k =? key)%string eqn:E; [ | now apply IH].
    apply String.eqb_eq in E. subst k. exfalso.
    rewrite Forall_forall in Habove.
    specialize (Habove key (List.in_map fst _ _ Hin)).
    rewrite string_ltb_irrefl in Habove. discriminate.
Qed.

Lemma for_each_app {A S : Type} (body : A -> S -> res S) (l1 l2 : list A) :
  forall s,
    for_each body (l1 ++ l2)%list s =
      bind (for_each body l1 s) (for_each body l2).
Proof.
  induction l1 as [ | a l1 IH]; intros s; simpl; [reflexivity | ].
  destruct (body a s) as [s' | e]; simpl; [apply IH | reflexivity].
Qed.

Lemma any_of_pure {A : Type} (p : A -> bool) (range : list A) :
  any_of (fun a => Ok (p a)) range = Ok (List.existsb p range).
Proof.
  induction range as [ | a range IH]; simpl; [reflexivity | ].
  destruct (p a); [reflexivity | exact IH].
Qed.

Lemma any_of_true {A : Type} (test : A -> res bool) (range : list A) :
  any_of test range = Ok true ->
  exists a, In a range /\ test a = Ok true.
Proof.
  induction range as [ | a range IH]; simpl; [discriminate | ].
  intros H. bind_inv H. destruct a0.
  - exists a. split; [now left | assumption].
  - destruct (IH H) as (a' & Hin & Ha'). exists a'. split;
      [now right | assumption].
Qed.

Section FactoryMaps.

Variable c : cache.
Variable find_required_name : string -> res TypeDef.
Variable write_temp_TypeDef : writer -> TypeDef -> string.

Lemma factory_of_attribute_kind attribute info :
  factory_of_attribute find_required_name attribute = Ok (Some info) ->
  fst (TypeNamespaceAndName attribute) = "Windows.Foundation.Metadata" /\
  one_factory_kind info = true /\
  (factory_info.visible info = true -> factory_info.composable info = true) /\
  (factory_info.activatable info = true ->
   snd (TypeNamespaceAndName attribute) = "ActivatableAttribute") /\
  (factory_info.statics info = true ->
   snd (TypeNamespaceAndName attribute) = "StaticAttribute") /\
  (factory_info.composable info = true ->
   snd (TypeNamespaceAndName attribute) = "ComposableAttribute").
Proof.
  unfold factory_of_attribute.
  destruct (fst (TypeNamespaceAndName attribute)
              =? "Windows.Foundation.Metadata")%string eqn:Hns;
    simpl; [ | discriminate].
  apply String.eqb_eq in Hns. intros H. split; [exact Hns | ].
  destruct (snd (TypeNamespaceAndName attribute) =? "ActivatableAttribute")%string
    eqn:Ha.
  { apply String.eqb_eq in Ha. bind_inv H. injection H as <-. simpl.
    repeat split; try discriminate; auto. }
  destruct (snd (TypeNamespaceAndName attribute) =? "StaticAttribute")%string
    eqn:Hs.
  { apply String.eqb_eq in Hs. bind_inv H. injection H as <-. simpl.
    repeat split; try discriminate; auto. }
  destruct (snd (TypeNamespaceAndName attribute) =? "ComposableAttribute")%string
    eqn:Hc; [ | discriminate].
  apply String.eqb_eq in Hc. bind_inv H. bind_inv H. injection H as <-. simpl.
  repeat split; try discriminate; auto.
Qed.

Lemma get_factories_from w attributes :
  forall start result,
    for_each (get_factories_step find_required_name write_temp_TypeDef w)
             attributes start = Ok result ->
    (ascending (List.map fst start) -> ascending (List.map fst result)) /\
    (forall entry,
        In entry result ->
        In entry start \/
        exists attribute,
          In attribute attributes /\
          factory_of_attribute find_required_name attribute
            = Ok (Some (snd entry)) /\
          fst entry = factory_name write_temp_TypeDef w (snd entry)).
Proof.
  induction attributes as [ | attribute rest IH]; intros start result H;
    simpl in H.
  - injection H as <-. split; [auto | now left].
  - bind_inv H. apply IH in H. destruct H as [Hsorted Hentries].
    unfold get_factories_step in Ha. bind_inv Ha.
    destruct a0 as [info | ]; injection Ha as <-.
    + split.
      * intros Hstart. apply Hsorted. now apply map_assign_ascending.
      * intros entry Hin. destruct (Hentries entry Hin) as [Hold | Hnew].
        -- apply In_map_assign in Hold. destruct Hold as [-> | Hold];
             [ | now left].
           right. exists attribute. split; [now left | ]. now split.
        -- right. destruct Hnew as (a' & Hin' & Ha').
           exists a'. split; [now right | exact Ha'].
    + split; [exact Hsorted | ].
      intros entry Hin. destruct (Hentries entry Hin) as [Hold | Hnew];
        [now left | ].
      right. destruct Hnew as (a' & Hin' & Ha').
      exists a'. split; [now right | exact Ha'].
Qed.

Lemma get_factories_keeps w attributes name info :
  forall start result,
    for_each (get_factories_step find_required_name write_temp_TypeDef w)
             attributes start = Ok result ->
    map_find start name = Some info ->
    (forall later info',
        In later attributes ->
        factory_of_attribute find_required_name later = Ok (Some info') ->
        factory_name write_temp_TypeDef w info' <> name) ->
    map_find result name = Some info.
Proof.
  induction attributes as [ | attribute rest IH]; intros start result H Hfind Hlater;
    simpl in H.
  - now injection H as <-.
  - bind_inv H. apply IH in H; [exact H | | ].
    + unfold get_factories_step in Ha. bind_inv Ha.
      destruct a0 as [info' | ]; injection Ha as <-; [ | exact Hfind].
      rewrite map_find_assign_other; [exact Hfind | ].
      intros E. apply (Hlater attribute info' (or_introl eq_refl) Ha0).
      now symmetry.
    + intros later info' Hin. apply Hlater. now right.
Qed.

(** X17.  The map [get_factories] returns has its keys in ascending
    order, each once.  Every entry comes from an activatable, static
    or composable attribute of the metadata namespace on the type: it
    has exactly one of the three flags, is visible only if composable,
    and its key is the rendered name of its factory type, or empty
    without one.  Of several attributes with the same key the last
    one stays: an attribute that yields a factory has its entry in the
    map unless a later attribute yields one under the same key. *)
Theorem get_factories_map w type factories :
  get_factories c find_required_name write_temp_TypeDef w type
    = Ok factories ->
  ascending (List.map fst factories) /\
  (forall name info,
      In (name, info) factories ->
      map_find factories name = Some info /\
      name = factory_name write_temp_TypeDef w info /\
      one_factory_kind info = true /\
      (factory_info.visible info = true ->
       factory_info.composable info = true) /\
      exists attribute,
        In attribute (CustomAttribute c type) /\
        fst (TypeNamespaceAndName attribute) = "Windows.Foundation.Metadata" /\
        factory_of_attribute find_required_name attribute = Ok (Some info)) /\
  (forall before attribute after info,
      CustomAttribute c type = (before ++ attribute :: after)%list ->
      factory_of_attribute find_required_name attribute = Ok (Some info) ->
      (forall later info',
          In later after ->
          factory_of_attribute find_required_name later = Ok (Some info') ->
          factory_name write_temp_TypeDef w info' <>
            factory_name write_temp_TypeDef w info) ->
      In (factory_name write_temp_TypeDef w info, info) factories).
Proof.
  unfold get_factories. intros H.
  pose proof (get_factories_from _ _ _ H) as [Hsorted Hentries].
  specialize (Hsorted I). split; [exact Hsorted | ]. split.
  - intros name info Hin. split; [now apply ascending_find | ].
    destruct (Hentries _ Hin) as [[] | (attribute & Hattr & Hinfo & Hname)].
    simpl in Hinfo, Hname.
    destruct (factory_of_attribute_kind _ Hinfo) as (Hns & Hkind & Hvis & _).
    repeat split; try assumption. now exists attribute.
  - intros before attribute after info Hsplit Hinfo Hlater.
    rewrite Hsplit, for_each_app in H. bind_inv H. simpl in H. bind_inv H.
    apply map_find_In. eapply get_factories_keeps; [exact H | | exact Hlater].
    unfold get_factories_step in Ha0. rewrite Hinfo in Ha0. simpl in Ha0.
    injection Ha0 as <-. apply map_find_assign_same.
Qed.

Lemma has_composable_then_members (factories : list (string * factory_info.t)) :
  any_of (fun entry =>
            if factory_info.composable (snd entry)
            then factory_has_methods c (snd entry)
            else Ok false)
         factories = Ok true ->
  any_of (fun entry =>
            match factory_info.type (snd entry) with
            | None => Ok true
            | Some _ => factory_has_methods c (snd entry)
            end)
         factories = Ok true.
Proof.
  induction factories as [ | [name info] rest IH]; simpl; [discriminate | ].
  intros H. bind_inv H. unfold factory_has_methods in *.
  destruct (factory_info.type info) as [factory | ]; simpl; [ | reflexivity].
  destruct (negb (Nat.eqb (List.length (MethodList c factory)) 0)) eqn:Hm;
    [reflexivity | ].
  destruct (factory_info.composable info).
  - injection Ha as <-. now apply IH.
  - injection Ha as <-. now apply IH.
Qed.

Lemma members_test_returns (factories : list (string * factory_info.t)) :
  exists found,
    any_of (fun entry =>
              match factory_info.type (snd entry) with
              | None => Ok true
              | Some _ => factory_has_methods c (snd entry)
              end)
           factories = Ok found.
Proof.
  induction factories as [ | [name info] rest IH]; simpl; [now exists false | ].
  unfold factory_has_methods.
  destruct (factory_info.type info) as [factory | ]; simpl; [ | now exists true].
  destruct (negb (Nat.eqb (List.length (MethodList c factory)) 0));
    [now exists true | exact IH].
Qed.

(** X18.  The three predicates over the factories.  When
    [get_factories] returns, [has_factory_members] and [is_composable]
    return too, and [is_composable] says whether some entry is
    composable.  [is_composable] is true only for a type that carries
    the metadata attribute [ComposableAttribute];
    [has_composable_constructors] is true only if [is_composable] and
    [has_factory_members] are; and a type without any attribute of
    the metadata namespace has no factories, so the three are false. *)
Theorem factory_predicates w type :
  (forall factories,
      get_factories c find_required_name write_temp_TypeDef w type
        = Ok factories ->
      (exists found,
          has_factory_members c find_required_name write_temp_TypeDef w type
            = Ok found) /\
      is_composable c find_required_name write_temp_TypeDef w type =
        Ok (List.existsb (fun entry => factory_info.composable (snd entry))
                         factories)) /\
  (is_composable c find_required_name write_temp_TypeDef w type = Ok true ->
   has_attribute c type "Windows.Foundation.Metadata" "ComposableAttribute"
     = true) /\
  (has_composable_constructors c find_required_name write_temp_TypeDef w type
     = Ok true ->
   is_composable c find_required_name write_temp_TypeDef w type = Ok true /\
   has_factory_members c find_required_name write_temp_TypeDef w type
     = Ok true) /\
  ((forall attribute,
       In attribute (CustomAttribute c type) ->
       fst (TypeNamespaceAndName attribute) <> "Windows.Foundation.Metadata") ->
   get_factories c find_required_name write_temp_TypeDef w type = Ok [] /\
   has_factory_members c find_required_name write_temp_TypeDef w type
     = Ok false /\
   is_composable c find_required_name write_temp_TypeDef w type = Ok false /\
   has_composable_constructors c find_required_name write_temp_TypeDef w type
     = Ok false).
Proof.
  split; [ | split; [ | split]].
  - intros factories H. unfold has_factory_members, is_composable.
    rewrite H. simpl. split; [apply members_test_returns | apply any_of_pure].
  - unfold is_composable. intros H. bind_inv H.
    apply any_of_true in H. destruct H as ([name info] & Hin & Hcomposable).
    simpl in Hcomposable. injection Hcomposable as Hcomposable.
    unfold get_factories in Ha.
    destruct (proj2 (get_factories_from _ _ _ Ha) _ Hin)
      as [[] | (attribute & Hattr & Hinfo & _)].
    simpl in Hinfo.
    destruct (factory_of_attribute_kind _ Hinfo) as (Hns & _ & _ & _ & _ & Hc).
    specialize (Hc Hcomposable).
    unfold has_attribute, get_attribute.
    destruct (List.find _ (row_attributes c type)) eqn:Hfind; [reflexivity | ].
    pose proof (List.find_none _ _ Hfind attribute Hattr) as Hnone.
    simpl in Hnone. rewrite Hns, Hc in Hnone. discriminate.
  - unfold has_composable_constructors, is_composable, has_factory_members.
    intros H. bind_inv H. rewrite Ha. simpl. split.
    + rewrite any_of_pure. f_equal.
      apply any_of_true in H. destruct H as (entry & Hin & Hentry).
      apply List.existsb_exists. exists entry. split; [exact Hin | ].
      destruct (factory_info.composable (snd entry));
        [reflexivity | discriminate].
    + now apply has_composable_then_members.
  - intros Hnone.
    assert (Hempty : get_factories c find_required_name write_temp_TypeDef w
                                   type = Ok []).
    { unfold get_factories. generalize (@nil (string * factory_info.t)).
      induction (CustomAttribute c type) as [ | attribute rest IH];
        intros start; simpl; [reflexivity | ].
      unfold get_factories_step at 1. unfold factory_of_attribute.
      destruct (fst (TypeNamespaceAndName attribute)
                  =? "Windows.Foundation.Metadata")%string eqn:Hns.
      - apply String.eqb_eq in Hns.
        now destruct (Hnone attribute (or_introl eq_refl)).
      - simpl. apply IH. intros a Hin. apply Hnone. now right. }
    unfold has_factory_members, is_composable, has_composable_constructors.
    rewrite Hempty. now repeat split.
Qed.

End FactoryMaps.

Lemma get_factories_map_witness :
  exists factories,
    get_factories (table_cache thing_table)
                  (table_find_required_name thing_table)
                  (render_TypeDef thing_table) fresh_writer Thing
      = Ok factories /\
    List.map fst factories = [""; "App.IThingFactory"; "App.IThingStatics"] /\
    ascending (List.map fst factories).
Proof.
  eexists. split; [reflexivity | ]. split; [reflexivity | ].
  apply (proj1 (get_factories_map (table_cache thing_table)
                  (table_find_required_name thing_table)
                  (render_TypeDef thing_table) fresh_writer Thing eq_refl)).
Defined.

Lemma factory_predicates_witness :
  has_composable_constructors (table_cache thing_table)
                              (table_find_required_name thing_table)
                              (render_TypeDef thing_table) fresh_writer Thing
    = Ok true /\
  is_composable (table_cache thing_table)
                (table_find_required_name thing_table)
                (render_TypeDef thing_table) fresh_writer Thing = Ok true.
Proof.
  split; [reflexivity | ].
  apply (proj1 (proj1 (proj2 (proj2 (factory_predicates
                                       (table_cache thing_table)
                                       (table_find_required_name thing_table)
                                       (render_TypeDef thing_table)
                                       fresh_writer Thing)))
                  eq_refl)).
Defined.

(** ** What the entries record *)

Lemma In_for_each_n_inv {A : Type} (f : A -> A) (n : nat) :
  forall (l : list A) x,
    In x (for_each_n n f l) -> In x l \/ exists y, In y l /\ x = f y.
Proof.
  induction n as [ | n IH]; intros l x Hin; [now left | ].
  destruct l as [ | a l]; [destruct Hin | ]. simpl in Hin.
  destruct Hin as [<- | Hin].
  - right. exists a. split; [now left | reflexivity].
  - destruct (IH l x Hin) as [H | (y & Hy & ->)].
    + left. now right.
    + right. exists y. split; [now right | reflexivity].
Qed.

Section Entries.

Variable c : cache.
Variable settings : settings_type.

Lemma visit_entry recurse w defaulted overridable base stack impl result
    result' :
  visit c recurse w defaulted overridable base stack impl result = Ok result' ->
  result' = result \/
  exists info_type info_stack guard result1 info,
    interface_target c w stack (Interface impl)
      = Ok (info_type, info_stack, guard) /\
    recurse guard result (interface_info.defaulted info)
            (interface_info.overridable info) base info_stack
            (InterfaceImpl c info_type) = Ok result1 /\
    result' = insert_or_assign result1 (write_temp c w (Interface impl)) info /\
    interface_info.type info = info_type /\
    interface_info.generic_param_stack info = info_stack /\
    interface_info.base info = base /\
    interface_info.defaulted info =
      negb base &&
      (defaulted ||
       has_attribute c impl "Windows.Foundation.Metadata" "DefaultAttribute") /\
    interface_info.is_default info =
      has_attribute c impl "Windows.Foundation.Metadata" "DefaultAttribute" /\
    interface_info.overridable info =
      (overridable ||
       has_attribute c impl "Windows.Foundation.Metadata"
                     "OverridableAttribute") /\
    entry_consistent c info.
Proof.
  unfold visit. destruct (already_captured result _ _).
  - intros [= <-]. now left.
  - intros H. right. bind_inv H. destruct a as [[info_type info_stack] guard].
    bind_inv H. bind_inv H. injection H as <-.
    do 5 eexists. split; [exact Ha | ].
    split; [ | split; [reflexivity | ]]; simpl; [exact Ha1 | ].
    unfold entry_consistent. simpl.
    repeat split; try reflexivity; try assumption.
    + intros ->. reflexivity.
    + intros -> ->. simpl. apply orb_true_r.
Qed.

Lemma interface_target_stack w stack type info_type info_stack guard :
  interface_target c w stack type = Ok (info_type, info_stack, guard) ->
  exists frames, info_stack = (stack ++ frames)%list.
Proof.
  destruct type as [type_def | type_ref | type_signature]; simpl; intros H.
  - injection H as _ <- _. exists []. now rewrite List.app_nil_r.
  - bind_inv H. injection H as _ <- _. exists []. now rewrite List.app_nil_r.
  - bind_inv H. injection H as _ <- _. eauto.
Qed.

Lemma get_interfaces_impl_entries fuel :
  forall w result defaulted overridable base stack children result',
    get_interfaces_impl c fuel w result defaulted overridable base stack
                        children = Ok result' ->
    forall entry,
      In entry result' ->
      In entry result \/
      (entry_consistent c (snd entry) /\
       (overridable = true ->
        interface_info.overridable (snd entry) = true) /\
       (defaulted = true -> base = false ->
        interface_info.defaulted (snd entry) = true) /\
       exists frames,
         interface_info.generic_param_stack (snd entry)
           = (stack ++ frames)%list).
Proof.
  induction fuel as [ | fuel IH]; intros w result defaulted overridable base
                                        stack children; [discriminate | ].
  rewrite get_interfaces_impl_S. revert result.
  induction children as [ | impl rest IHrest]; intros result result' H entry Hin;
    simpl in H.
  - injection H as <-. now left.
  - bind_inv H. destruct (IHrest _ _ H entry Hin) as [Hmid | Hnew];
      [ | now right].
    apply visit_entry in Ha.
    destruct Ha as [-> | (info_type & info_stack & guard & result1 & info &
                          Htarget & Hrec & -> & Htype & Hstack & Hbase &
                          Hdefaulted & Hdefault & Hover & Hinfo)];
      [now left | ].
    apply interface_target_stack in Htarget. destruct Htarget as [frames ->].
    apply In_insert_or_assign in Hmid. destruct Hmid as [Hmid | ->].
    + destruct (IH _ _ _ _ _ _ _ _ Hrec entry Hmid)
        as [Hold | (Hentry & Hflag & Hd & frames' & Hframes)];
        [now left | right].
      split; [exact Hentry | ]. split; [ | split].
      * intros ->. apply Hflag. now rewrite Hover.
      * intros -> ->. apply Hd; [ | reflexivity]. now rewrite Hdefaulted.
      * exists (frames ++ frames')%list. now rewrite Hframes, List.app_assoc.
    + right. simpl. split; [exact Hinfo | ]. split; [ | split].
      * intros ->. now rewrite Hover.
      * intros -> ->. now rewrite Hdefaulted.
      * exists frames. exact Hstack.
Qed.

(** X19.  What a call of [get_interfaces_impl] adds.  Every entry in
    its result that was not passed in records its interface
    consistently: [exclusive] and [version] are those of the entry's
    type, [defaulted] is never set on a base-class entry and is set on
    a default interface outside one.  The call's arguments flow down:
    with [overridable] set every new entry is overridable, with
    [defaulted] set outside a base walk every new entry is defaulted,
    and the call's generic parameter stack is a prefix of every new
    entry's.  The consistency carries over to every entry of
    [get_interfaces], marked fast-ABI or not. *)
Theorem entries_record_their_interface :
  (forall fuel w result defaulted overridable base stack children result',
      get_interfaces_impl c fuel w result defaulted overridable base stack
                          children = Ok result' ->
      forall entry,
        In entry result' ->
        In entry result \/
        (entry_consistent c (snd entry) /\
         (overridable = true ->
          interface_info.overridable (snd entry) = true) /\
         (defaulted = true -> base = false ->
          interface_info.defaulted (snd entry) = true) /\
         exists frames,
           interface_info.generic_param_stack (snd entry)
             = (stack ++ frames)%list)) /\
  (forall fuel w type result,
      get_interfaces c settings fuel w type = Ok result ->
      forall entry, In entry result -> entry_consistent c (snd entry)).
Proof.
  split; [intros fuel; apply get_interfaces_impl_entries | ].
  intros fuel w type result H entry Hin.
  assert (Hwalk : forall entries,
             get_interfaces_walk c fuel w type = Ok entries ->
             forall entry, In entry entries -> entry_consistent c (snd entry)).
  { clear. intros entries Hwalk entry Hin.
    apply get_interfaces_walk_inv in Hwalk.
    destruct Hwalk as (own & bases & Hown & _ & Hfor).
    revert own Hown entries Hfor entry Hin.
    intros own Hown.
    assert (Hown' : forall entry, In entry own ->
                                  entry_consistent c (snd entry)).
    { intros entry Hin.
      destruct (get_interfaces_impl_entries _ _ _ _ _ _ _ _ Hown entry Hin)
        as [[] | [Hentry _]].
      exact Hentry. }
    clear Hown. revert own Hown'.
    induction bases as [ | base rest IH]; intros own Hown entries Hfor;
      simpl in Hfor.
    - now injection Hfor as <-.
    - bind_inv Hfor. apply (IH a); [ | exact Hfor].
      intros entry Hin.
      destruct (get_interfaces_impl_entries _ _ _ _ _ _ _ _ Ha entry Hin)
        as [Hold | [Hentry _]]; [now apply Hown | exact Hentry]. }
  apply get_interfaces_inv in H.
  destruct H as (entries & He & _ & [[_ ->] | (_ & sorted & Hperm & ->)]).
  - now apply (Hwalk entries).
  - apply In_for_each_n_inv in Hin.
    destruct Hin as [Hin | (y & Hy & ->)].
    + apply (Hwalk entries He).
      eapply Permutation_in; [apply Permutation_sym; exact Hperm | exact Hin].
    + assert (Hy' : entry_consistent c (snd y)).
      { apply (Hwalk entries He).
        eapply Permutation_in; [apply Permutation_sym; exact Hperm | exact Hy]. }
      exact Hy'.
Qed.

End Entries.

Lemma entries_record_their_interface_witness :
  exists result,
    get_interfaces (table_cache bag_table) default_settings 3 fresh_writer
                   (TypeDef_row 0) = Ok result /\
    Forall (fun entry => entry_consistent (table_cache bag_table) (snd entry))
           result.
Proof.
  eexists. split; [reflexivity | ].
  apply Forall_forall.
  apply (proj2 (entries_record_their_interface (table_cache bag_table)
                  default_settings)
           3 fresh_writer (TypeDef_row 0) _ eq_refl).
Defined.

(** ** Accessors that cannot throw *)

Section NoExcept.

Variable c : cache.

(** X20.  Every remove accessor is [noexcept], whatever its
    attributes.  For any other method, [is_noexcept] is exactly the
    presence of the metadata attribute [NoExceptionAttribute] on the
    method; a get, put or add accessor and a method without the
    special-name marker are such methods. *)
Theorem noexcept_accessors (method : MethodDef) :
  (is_remove_overload method = true -> is_noexcept c method = true) /\
  (is_remove_overload method = false ->
   is_noexcept c method =
     has_attribute c method "Windows.Foundation.Metadata"
                   "NoExceptionAttribute") /\
  (is_get_overload method = true \/ is_put_overload method = true \/
   is_add_overload method = true \/ SpecialName method = false ->
   is_remove_overload method = false /\
   is_noexcept c method =
     has_attribute c method "Windows.Foundation.Metadata"
                   "NoExceptionAttribute").
Proof.
  assert (Hother : is_remove_overload method = false ->
                   is_noexcept c method =
                     has_attribute c method "Windows.Foundation.Metadata"
                                   "NoExceptionAttribute")
    by (unfold is_noexcept; intros ->; reflexivity).
  split; [unfold is_noexcept; intros ->; reflexivity | ].
  split; [exact Hother | ].
  intros Hkind.
  assert (Hremove : is_remove_overload method = false).
  { revert Hkind.
    unfold is_get_overload, is_put_overload, is_add_overload,
      is_remove_overload, starts_with.
    destruct (SpecialName method); simpl; [ | reflexivity].
    intros [Hkind | [Hkind | [Hkind | Hkind]]]; try discriminate;
      apply prefix_split in Hkind; destruct Hkind as [rest Hrest];
      rewrite Hrest; reflexivity. }
  split; [exact Hremove | exact (Hother Hremove)].
Qed.

End NoExcept.

Lemma noexcept_accessors_witness :
  is_noexcept (table_cache widget_table)
              (accessor_method "remove_Changed" None [Int32_sig]) = true /\
  is_noexcept (table_cache widget_table)
              (accessor_method "add_Changed" (Some Int32_sig) [Int32_sig])
    = false /\
  is_noexcept (table_cache widget_table)
              (accessor_method ".ctor" None []) = false.
Proof.
  split; [ | split].
  - apply (proj1 (noexcept_accessors (table_cache widget_table)
                    (accessor_method "remove_Changed" None [Int32_sig]))).
    reflexivity.
  - rewrite (proj2 (proj2 (proj2 (noexcept_accessors
                                    (table_cache widget_table)
                                    (accessor_method "add_Changed"
                                       (Some Int32_sig) [Int32_sig])))
                      (or_intror (or_intror (or_introl eq_refl))))).
    reflexivity.
  - rewrite (proj1 (proj2 (noexcept_accessors (table_cache widget_table)
                             (accessor_method ".ctor" None [])))).
    + reflexivity.
    + reflexivity.
Defined.
